(** * Semantic tensor memory of algorithm-mirror

    A shallow embedding of [src/agents/semantic-tensor-memory.js]
    (class [SemanticTensorMemory]).

    Modelling conventions.
    - JavaScript numbers read from embeddings, confidences and strengths are
      real numbers ([R]): exact arithmetic, without the rounding, underflow
      and overflow of binary64; where the code can produce [NaN] or an
      infinity (an unguarded division) the result is a [jsnum].
      [calculateCosineSimilarity] is given a second time over binary64
      ([Binary64], on [PrimFloat.float]), where those effects show.
    - A JavaScript [Map] is an association list kept in insertion order:
      [mset] updates an existing key in place and appends a new key at the
      end, [mdelete] drops the key, iteration is list order.  A JavaScript
      [Set] of ids is a list: [sadd] appends an absent element.
    - Time stamps are milliseconds since the epoch ([Z]).  The local-time
      breakdown of [Date] and the URL parser are supplied by an [Env].
    - Identifiers produced by [Date.now()] and [Math.random()] (memory ids,
      cluster ids) are inputs of the model.
    - Strings are [String.string] (ASCII); [toLowerCase] and the [\s] class
      are taken on that character set. *)

From Stdlib Require Import Reals Lra String List ZArith Ascii Bool.
From Stdlib Require Import Sorting.Sorted Permutation Lia.
From Stdlib Require Floats.
Import ListNotations.

Open Scope R_scope.

(** ** JavaScript [Map] and [Set] *)

Module JSMap.
Section Ops.
Context {K V : Type} (Keq : forall x y : K, {x = y} + {x <> y}).

(** [m.get(k)] *)
Fixpoint mget (k : K) (m : list (K * V)) : option V :=
  match m with
  | [] => None
  | (k', v) :: m' => if Keq k k' then Some v else mget k m'
  end.

(** [m.has(k)] *)
Definition mhas (k : K) (m : list (K * V)) : bool :=
  match mget k m with Some _ => true | None => false end.

Fixpoint mreplace (k : K) (v : V) (m : list (K * V)) : list (K * V) :=
  match m with
  | [] => []
  | (k', v') :: m' => if Keq k k' then (k', v) :: m' else (k', v') :: mreplace k v m'
  end.

(** [m.set(k, v)]: in place for a present key, appended otherwise. *)
Definition mset (k : K) (v : V) (m : list (K * V)) : list (K * V) :=
  if mhas k m then mreplace k v m else m ++ [(k, v)].

(** [m.delete(k)] *)
Definition mdelete (k : K) (m : list (K * V)) : list (K * V) :=
  filter (fun kv => if Keq k (fst kv) then false else true) m.

(** [m.forEach(v => mutate(v))] where every value is mutated alike. *)
Definition mmap (f : V -> V) (m : list (K * V)) : list (K * V) :=
  map (fun kv => (fst kv, f (snd kv))) m.

(** Read-modify-write of the value at a key that is known to exist,
    as in [m.get(k).add(x)]. *)
Definition mupdate (k : K) (f : V -> V) (m : list (K * V)) : list (K * V) :=
  match mget k m with
  | Some v => mreplace k (f v) m
  | None => m
  end.

(** [s.has(x)], [s.add(x)], [s.delete(x)] on a [Set]. *)
Definition shas (x : K) (s : list K) : bool :=
  existsb (fun y => if Keq x y then true else false) s.

Definition sadd (x : K) (s : list K) : list K :=
  if shas x s then s else s ++ [x].

Definition sdelete (x : K) (s : list K) : list K :=
  filter (fun y => if Keq x y then false else true) s.

(** [[...new Set(l)]]: duplicates dropped, first occurrence kept. *)
Fixpoint dedup_aux (seen : list K) (l : list K) : list K :=
  match l with
  | [] => []
  | x :: l' => if shas x seen then dedup_aux seen l' else x :: dedup_aux (seen ++ [x]) l'
  end.

Definition dedup (l : list K) : list K := dedup_aux [] l.
End Ops.
End JSMap.
Import JSMap.

Definition sget {V} := @mget string V string_dec.
Definition sset {V} := @mset string V string_dec.

(** ** JavaScript numbers where [NaN] and infinities matter *)

Inductive jsnum : Type :=
| JSFinite (r : R)
| JSInfinity (positive : bool)
| JSNaN.

(** [a / b] on finite operands. *)
Definition js_div (a b : R) : jsnum :=
  if Req_dec_T b 0 then
    if Req_dec_T a 0 then JSNaN
    else JSInfinity (if Rlt_dec 0 a then true else false)
  else JSFinite (a / b).

(** [arr.slice(0, n)] *)
Definition js_slice0 {A} (l : list A) (n : Z) : list A :=
  if (n <? 0)%Z then firstn (Z.to_nat (Z.of_nat (length l) + n)) l
  else firstn (Z.to_nat n) l.

(** Stable sort ([Array.prototype.sort] is stable since ES2019):
    [before x y] holds when the comparator is negative, i.e. [x] must come
    first; elements the comparator ties keep their order. *)
Section StableSort.
Context {A : Type} (before : A -> A -> bool).

Fixpoint insert_sorted (x : A) (l : list A) : list A :=
  match l with
  | [] => [x]
  | y :: l' => if before x y then x :: y :: l' else y :: insert_sorted x l'
  end.

Fixpoint sort_by_aux (acc : list A) (l : list A) : list A :=
  match l with
  | [] => acc
  | x :: l' => sort_by_aux (insert_sorted x acc) l'
  end.

Definition sort_by (l : list A) : list A := sort_by_aux [] l.
End StableSort.

(** ** Strings *)

Definition truthy_str (s : string) : bool :=
  match s with EmptyString => false | _ => true end.

(** [a || b] on possibly absent strings. *)
Definition str_or (s : option string) (dflt : string) : string :=
  match s with Some x => if truthy_str x then x else dflt | None => dflt end.

Definition lower_ascii (c : ascii) : ascii :=
  let n := nat_of_ascii c in
  if (65 <=? n)%nat && (n <=? 90)%nat then ascii_of_nat (n + 32) else c.

(** [s.toLowerCase()] *)
Fixpoint toLowerCase (s : string) : string :=
  match s with
  | EmptyString => EmptyString
  | String c s' => String (lower_ascii c) (toLowerCase s')
  end.

(** The characters of the regular-expression class [\s] in the character
    set: tab, line feed, vertical tab, form feed, carriage return, space
    and no-break space. *)
Definition is_ws (c : ascii) : bool :=
  let n := nat_of_ascii c in
  ((9 <=? n)%nat && (n <=? 13)%nat) || (n =? 32)%nat || (n =? 160)%nat.

(** [s.split(/\s+/)]: a run of white space separates two tokens, a leading
    run yields a first empty token, a trailing run a last empty token. *)
Fixpoint split_ws_aux (s : string) (cur : string) (in_run : bool) : list string :=
  match s with
  | EmptyString => [cur]
  | String c s' =>
      if is_ws c then
        if in_run then split_ws_aux s' cur true
        else cur :: split_ws_aux s' EmptyString true
      else split_ws_aux s' (cur ++ String c EmptyString) false
  end.

Definition split_ws (s : string) : list string := split_ws_aux s EmptyString false.

(** ** The raw orchestration result (argument of [storeMemory])

    Every property path the code reads is an optional field: [None] is an
    absent property ([undefined]); an agent that failed is present with
    all its analysis fields absent ([{ error: true, message }]). *)

Record TextMetadata := { tm_contentType : option string; tm_pageType : option string }.
Record TextAnalysis := { ta_summary : option string; ta_metadata : option TextMetadata }.
Record TextResult := {
  tr_textAnalysis : option TextAnalysis;
  tr_confidence : option R;
  tr_agentId : option string }.
Record VisualFeatures := { vf_designStyle : option string; vf_userExperience : option string }.
Record VisionAnalysis := { va_synthesis : option string; va_visualFeatures : option VisualFeatures }.
Record VisionResult := {
  vr_visionAnalysis : option VisionAnalysis;
  vr_confidence : option R;
  vr_agentId : option string }.
Record AgentResults := { ar_text : option TextResult; ar_vision : option VisionResult }.
(** [os_embeddings] is [orchestratorSynthesis.embeddings], the unified
    embedding the orchestrator attaches; [createMemoryEntry] does not read it. *)
Record OrchestratorSynthesis := {
  os_unifiedAnalysis : option string;
  os_confidence : option R;
  os_embeddings : option (list R) }.
Record QualityMetrics := { qm_overallScore : option R }.
Record OrchestrationMetadata := {
  om_processingTime : option R;
  om_synthesisApproach : option string }.
Record OrchestrationResult := {
  r_timestamp : Z;
  r_url : string;
  r_agentResults : option AgentResults;
  r_orchestratorSynthesis : option OrchestratorSynthesis;
  r_qualityMetrics : option QualityMetrics;
  r_orchestrationMetadata : option OrchestrationMetadata }.

(** ** Environment: local time and URL parsing *)

Record Env := {
  (** [new URL(url).hostname]; [None] when the constructor throws *)
  parseHostname : string -> option string;
  (** [new Date(t).getFullYear()], [getMonth()], [getDate()],
      [getHours()], [getDay()] in the local time zone *)
  getFullYear : Z -> Z;
  getMonth : Z -> Z;
  getDate : Z -> Z;
  getHours : Z -> Z;
  getDay : Z -> Z;
  (** [new Date(year, 0, 1).getTime()] *)
  yearStart : Z -> Z }.

Section Builder.
Context (env : Env).

(** [getWeekNumber(date)]:
    [Math.ceil(((date - firstDayOfYear) / 86400000 + firstDayOfYear.getDay() + 1) / 7)],
    computed exactly over the integers. *)
Definition getWeekNumber (t : Z) : Z :=
  let f := yearStart env (getFullYear env t) in
  let num := (t - f + (getDay env f + 1) * 86400000)%Z in
  (- ((- num) / (7 * 86400000)))%Z.

(** Bucket keys: the template strings [`${y}-${m}-${d}-${h}`],
    [`${y}-${m}-${d}`], [`${y}-${week}`] and [`${y}-${m}`], represented by
    their integer components (the templates are injective on them). *)
Definition hourKey (t : Z) : list Z :=
  [getFullYear env t; getMonth env t; getDate env t; getHours env t].
Definition dayKey (t : Z) : list Z :=
  [getFullYear env t; getMonth env t; getDate env t].
Definition weekKey (t : Z) : list Z := [getFullYear env t; getWeekNumber t].
Definition monthKey (t : Z) : list Z := [getFullYear env t; getMonth env t].

Definition extractDomain (u : string) : string :=
  match parseHostname env u with Some h => h | None => "unknown"%string end.
End Builder.

Definition getSeason (month : Z) : string :=
  if (2 <=? month)%Z && (month <=? 4)%Z then "spring"
  else if (5 <=? month)%Z && (month <=? 7)%Z then "summer"
  else if (8 <=? month)%Z && (month <=? 10)%Z then "fall"
  else "winter".

Definition commonWords : list string :=
  ["the"; "and"; "or"; "but"; "in"; "on"; "at"; "to"; "for"; "of"; "with"; "by"]%string.

(** [extractTopicsFromText(text)] *)
Definition extractTopicsFromText (text : string) : list string :=
  firstn 5 (filter (fun w => (3 <? String.length w)%nat && negb (shas string_dec w commonWords))
                   (split_ws (toLowerCase text))).

Definition text_analysis (r : OrchestrationResult) : option TextAnalysis :=
  match r_agentResults r with
  | Some ar => match ar_text ar with Some t => tr_textAnalysis t | None => None end
  | None => None
  end.

Definition vision_analysis (r : OrchestrationResult) : option VisionAnalysis :=
  match r_agentResults r with
  | Some ar => match ar_vision ar with Some v => vr_visionAnalysis v | None => None end
  | None => None
  end.

Definition text_metadata (r : OrchestrationResult) : option TextMetadata :=
  match text_analysis r with Some ta => ta_metadata ta | None => None end.

Definition visual_features (r : OrchestrationResult) : option VisualFeatures :=
  match vision_analysis r with Some va => va_visualFeatures va | None => None end.

(** [agentResults.text?.textAnalysis?.summary] *)
Definition text_summary (r : OrchestrationResult) : option string :=
  match text_analysis r with Some ta => ta_summary ta | None => None end.

(** [agentResults.vision?.visionAnalysis?.synthesis] *)
Definition vision_synthesis (r : OrchestrationResult) : option string :=
  match vision_analysis r with Some va => va_synthesis va | None => None end.

(** [extractTopics(orchestrationResult)] *)
Definition extractTopics (r : OrchestrationResult) : list string :=
  let topics := extractTopicsFromText (str_or (text_summary r) "")
                ++ extractTopicsFromText (str_or (vision_synthesis r) "") in
  firstn 10 (dedup string_dec topics).

Definition push_if (s : option string) (l : list string) : list string :=
  match s with Some x => if truthy_str x then l ++ [x] else l | None => l end.

(** [extractCategories(orchestrationResult)] *)
Definition extractCategories (r : OrchestrationResult) : list string :=
  let tm := text_metadata r in
  let vf := visual_features r in
  let c1 := push_if (match tm with Some m => tm_contentType m | None => None end) [] in
  let c2 := push_if (match tm with Some m => tm_pageType m | None => None end) c1 in
  let c3 := push_if (match vf with Some f => vf_designStyle f | None => None end) c2 in
  let c4 := push_if (match vf with Some f => vf_userExperience f | None => None end) c3 in
  dedup string_dec c4.

Definition extractContentType (r : OrchestrationResult) : string :=
  str_or (match text_metadata r with Some m => tm_contentType m | None => None end) "general".

Definition extractPageType (r : OrchestrationResult) : string :=
  str_or (match text_metadata r with Some m => tm_pageType m | None => None end) "page".

(** [s?.substring(0, 200)] followed by [s ? `${s}...` : ''] *)
Definition clip_with_ellipsis (s : option string) : string :=
  match s with
  | Some x => let y := substring 0 200 x in if truthy_str y then (y ++ "...")%string else ""
  | None => ""
  end.

(** [x?.confidence || 0] *)
Definition conf_or_zero (c : option R) : R := match c with Some x => x | None => 0 end.

(** ** Memory entries *)

(** The fields of the entry built by [createMemoryEntry] that the store
    reads, and the fields whose construction can throw.  The agent
    versions, reasoning traces and [spatialFeatures]/[visualFeatures]
    objects are audit data never read again and are left out. *)
Record MemoryEntry := {
  memoryId : string;
  timestamp : Z;
  url : string;
  domain : string;
  textSummary : string;
  textConfidence : R;
  visionSynthesis : string;
  visionConfidence : R;
  unifiedAnalysis : string;
  orchestratorConfidence : R;
  (** [embeddingsTensor] *)
  unified : option (list R);
  textEmbedding : option (list R);
  visionEmbedding : option (list R);
  dimension : Z;
  (** [semanticFeatures] *)
  contentType : string;
  pageType : string;
  topics : list string;
  categories : list string;
  quality : option R;
  confidence : option R;
  (** [temporalFeatures] *)
  tf_hour : Z;
  tf_dayOfWeek : Z;
  tf_month : Z;
  tf_season : string;
  (** [provenance] *)
  processingTime : option R;
  synthesisApproach : option string }.

(** [createMemoryEntry(memoryId, orchestrationResult)]; [None] when a
    property read throws a [TypeError]: [agentResults],
    [orchestratorSynthesis], [qualityMetrics] and [orchestrationMetadata]
    are dereferenced without optional chaining. *)
Definition createMemoryEntry (env : Env) (mid : string) (r : OrchestrationResult)
  : option MemoryEntry :=
  match r_agentResults r, r_orchestratorSynthesis r, r_qualityMetrics r,
        r_orchestrationMetadata r with
  | Some ar, Some os, Some qm, Some om =>
      Some {|
        memoryId := mid;
        timestamp := r_timestamp r;
        url := r_url r;
        domain := extractDomain env (r_url r);
        textSummary := clip_with_ellipsis (text_summary r);
        textConfidence :=
          conf_or_zero (match ar_text ar with Some t => tr_confidence t | None => None end);
        visionSynthesis := clip_with_ellipsis (vision_synthesis r);
        visionConfidence :=
          conf_or_zero (match ar_vision ar with Some v => vr_confidence v | None => None end);
        unifiedAnalysis := clip_with_ellipsis (os_unifiedAnalysis os);
        orchestratorConfidence := conf_or_zero (os_confidence os);
        (* "Embeddings removed to save storage space" *)
        unified := None;
        textEmbedding := None;
        visionEmbedding := None;
        dimension := 0;
        contentType := extractContentType r;
        pageType := extractPageType r;
        topics := extractTopics r;
        categories := extractCategories r;
        quality := qm_overallScore qm;
        confidence := os_confidence os;
        tf_hour := getHours env (r_timestamp r);
        tf_dayOfWeek := getDay env (r_timestamp r);
        tf_month := getMonth env (r_timestamp r);
        tf_season := getSeason (getMonth env (r_timestamp r));
        processingTime := om_processingTime om;
        synthesisApproach := om_synthesisApproach om |}
  | _, _, _, _ => None
  end.

(** ** The store *)

Record Rel := { rel_type : string; targetId : string; strength : R }.

Record EmbeddingEntry := {
  ee_unified : list R;
  ee_text : option (list R);
  ee_vision : option (list R);
  ee_dimension : Z }.

(** [centroid = None] stands for an array holding [NaN]: an embedding longer
    than the first member's was accumulated ([undefined + value]).  Such a
    centroid never passes a similarity threshold. *)
Record ConceptCluster := {
  cl_id : string;
  centroid : option (list R);
  members : list string;
  concept : string }.

Definition BucketKey := list Z.
Definition bkey_dec : forall x y : BucketKey, {x = y} + {x <> y} := list_eq_dec Z.eq_dec.

(** [calculateEmbeddingBucket] keys: [None] for ['default'], [Some b] for
    [b.toString()]. *)
Definition EmbBucketKey := option Z.
Definition ebkey_dec : forall x y : EmbBucketKey, {x = y} + {x <> y}.
Proof. decide equality; apply Z.eq_dec. Defined.

Record Store := {
  maxMemories : Z;
  memoryStore : list (string * MemoryEntry);
  embeddingIndex : list (string * EmbeddingEntry);
  conceptClusters : list (string * ConceptCluster);
  relationshipGraph : list (string * list Rel);
  hourBuckets : list (BucketKey * list string);
  dayBuckets : list (BucketKey * list string);
  weekBuckets : list (BucketKey * list string);
  monthBuckets : list (BucketKey * list string);
  semanticCategories : list (string * list string);
  domainClusters : list (string * list string);
  embeddingBuckets : list (EmbBucketKey * list string) }.

(** [new SemanticTensorMemory(maxMemories)] followed by
    [initializeIndices()]; [embeddingBuckets] is created on first use,
    which is observably the same as starting empty. *)
Definition emptyStore (maxMem : Z) : Store :=
  {| maxMemories := maxMem; memoryStore := []; embeddingIndex := [];
     conceptClusters := []; relationshipGraph := []; hourBuckets := [];
     dayBuckets := []; weekBuckets := []; monthBuckets := [];
     semanticCategories := []; domainClusters := []; embeddingBuckets := [] |}.

Inductive Granularity := GHour | GDay | GWeek | GMonth.

Definition buckets (g : Granularity) (st : Store) : list (BucketKey * list string) :=
  match g with
  | GHour => hourBuckets st
  | GDay => dayBuckets st
  | GWeek => weekBuckets st
  | GMonth => monthBuckets st
  end.

(** Field writes on the store object. *)
Definition set_memoryStore st v :=
  Build_Store (maxMemories st) v (embeddingIndex st) (conceptClusters st)
    (relationshipGraph st) (hourBuckets st) (dayBuckets st) (weekBuckets st)
    (monthBuckets st) (semanticCategories st) (domainClusters st) (embeddingBuckets st).
Definition set_embeddingIndex st v :=
  Build_Store (maxMemories st) (memoryStore st) v (conceptClusters st)
    (relationshipGraph st) (hourBuckets st) (dayBuckets st) (weekBuckets st)
    (monthBuckets st) (semanticCategories st) (domainClusters st) (embeddingBuckets st).
Definition set_conceptClusters st v :=
  Build_Store (maxMemories st) (memoryStore st) (embeddingIndex st) v
    (relationshipGraph st) (hourBuckets st) (dayBuckets st) (weekBuckets st)
    (monthBuckets st) (semanticCategories st) (domainClusters st) (embeddingBuckets st).
Definition set_relationshipGraph st v :=
  Build_Store (maxMemories st) (memoryStore st) (embeddingIndex st) (conceptClusters st)
    v (hourBuckets st) (dayBuckets st) (weekBuckets st)
    (monthBuckets st) (semanticCategories st) (domainClusters st) (embeddingBuckets st).
Definition set_buckets (g : Granularity) st v :=
  match g with
  | GHour => Build_Store (maxMemories st) (memoryStore st) (embeddingIndex st)
      (conceptClusters st) (relationshipGraph st) v (dayBuckets st) (weekBuckets st)
      (monthBuckets st) (semanticCategories st) (domainClusters st) (embeddingBuckets st)
  | GDay => Build_Store (maxMemories st) (memoryStore st) (embeddingIndex st)
      (conceptClusters st) (relationshipGraph st) (hourBuckets st) v (weekBuckets st)
      (monthBuckets st) (semanticCategories st) (domainClusters st) (embeddingBuckets st)
  | GWeek => Build_Store (maxMemories st) (memoryStore st) (embeddingIndex st)
      (conceptClusters st) (relationshipGraph st) (hourBuckets st) (dayBuckets st) v
      (monthBuckets st) (semanticCategories st) (domainClusters st) (embeddingBuckets st)
  | GMonth => Build_Store (maxMemories st) (memoryStore st) (embeddingIndex st)
      (conceptClusters st) (relationshipGraph st) (hourBuckets st) (dayBuckets st)
      (weekBuckets st) v (semanticCategories st) (domainClusters st) (embeddingBuckets st)
  end.
Definition set_semanticCategories st v :=
  Build_Store (maxMemories st) (memoryStore st) (embeddingIndex st) (conceptClusters st)
    (relationshipGraph st) (hourBuckets st) (dayBuckets st) (weekBuckets st)
    (monthBuckets st) v (domainClusters st) (embeddingBuckets st).
Definition set_domainClusters st v :=
  Build_Store (maxMemories st) (memoryStore st) (embeddingIndex st) (conceptClusters st)
    (relationshipGraph st) (hourBuckets st) (dayBuckets st) (weekBuckets st)
    (monthBuckets st) (semanticCategories st) v (embeddingBuckets st).
Definition set_embeddingBuckets st v :=
  Build_Store (maxMemories st) (memoryStore st) (embeddingIndex st) (conceptClusters st)
    (relationshipGraph st) (hourBuckets st) (dayBuckets st) (weekBuckets st)
    (monthBuckets st) (semanticCategories st) (domainClusters st) v.

(** [if (!m.has(k)) m.set(k, new Set()); m.get(k).add(x);] *)
Definition add_to_set_map {K} (Keq : forall x y : K, {x = y} + {x <> y})
  (k : K) (x : string) (m : list (K * list string)) : list (K * list string) :=
  let m1 := if mhas Keq k m then m else mset Keq k [] m in
  mupdate Keq k (sadd string_dec x) m1.

(** ** Write path *)

(** [calculateEmbeddingBucket(embedding)]:
    [Math.floor(sum * 100) % 100] ([floor r = up r - 1], [%] truncates).
    The sum is taken over [R], exactly, unlike the rounded binary64 sum of
    the code (which can also overflow to [Infinity] and give [NaN]); only
    [indexEmbeddings] calls it, and only with the entry's [unified], which
    [createMemoryEntry] always sets to [null]: on the write path the key is
    always ['default'] ([None]). *)
Definition calculateEmbeddingBucket (emb : option (list R)) : EmbBucketKey :=
  match emb with
  | None => None
  | Some l => Some (Z.rem (up (fold_left Rplus l 0 * 100) - 1) 100)
  end.

(** [indexEmbeddings(memoryId, memoryEntry)] *)
Definition indexEmbeddings (mid : string) (e : MemoryEntry) (st : Store) : Store :=
  let st1 :=
    match unified e with
    | Some u =>
        set_embeddingIndex st
          (sset mid {| ee_unified := u; ee_text := textEmbedding e;
                       ee_vision := visionEmbedding e; ee_dimension := dimension e |}
                (embeddingIndex st))
    | None => st
    end in
  set_embeddingBuckets st1
    (add_to_set_map ebkey_dec (calculateEmbeddingBucket (unified e)) mid (embeddingBuckets st1)).

(** [addToTemporalBucket(bucketType, key, memoryId)] *)
Definition addToTemporalBucket (g : Granularity) (key : BucketKey) (mid : string) (st : Store)
  : Store :=
  set_buckets g st (add_to_set_map bkey_dec key mid (buckets g st)).

(** [updateTemporalIndices(memoryId, memoryEntry)] *)
Definition updateTemporalIndices (env : Env) (mid : string) (e : MemoryEntry) (st : Store)
  : Store :=
  let t := timestamp e in
  let st1 := addToTemporalBucket GHour (hourKey env t) mid st in
  let st2 := addToTemporalBucket GDay (dayKey env t) mid st1 in
  let st3 := addToTemporalBucket GWeek (weekKey env t) mid st2 in
  addToTemporalBucket GMonth (monthKey env t) mid st3.

(** [updateSemanticCategories(memoryId, memoryEntry)] *)
Definition updateSemanticCategories (mid : string) (e : MemoryEntry) (st : Store) : Store :=
  fold_left (fun st c =>
               set_semanticCategories st
                 (add_to_set_map string_dec c mid (semanticCategories st)))
            (categories e) st.

(** [updateDomainClusters(memoryId, memoryEntry)] *)
Definition updateDomainClusters (mid : string) (e : MemoryEntry) (st : Store) : Store :=
  set_domainClusters st (add_to_set_map string_dec (domain e) mid (domainClusters st)).

(** [calculateCosineSimilarity(vecA, vecB)]: the loop accumulating the dot
    product and the two squared norms. *)
Fixpoint cos_loop (a b : list R) (d na nb : R) : R * R * R :=
  match a, b with
  | x :: a', y :: b' => cos_loop a' b' (d + x * y) (na + x * x) (nb + y * y)
  | _, _ => (d, na, nb)
  end.

(** Over [R] the arithmetic is exact: no rounding, underflow or overflow.
    [Binary64.calculateCosineSimilarity] below is the same code on
    binary64 numbers. *)
Definition calculateCosineSimilarity (a b : list R) : R :=
  if Nat.eqb (length a) (length b) then
    let '(d, na, nb) := cos_loop a b 0 0 0 in
    let den := sqrt na * sqrt nb in
    if Req_dec_T den 0 then 0 else d / den
  else 0.

(** [calculateCosineSimilarity(vecA, vecB)] once more, on JavaScript
    numbers as they are: binary64 with rounding to nearest ([PrimFloat]);
    [Math.sqrt] is the correctly rounded square root and [===] the IEEE
    equality ([-0 === 0], [NaN !== NaN]). *)
Module Binary64.
Import PrimFloat.
Local Open Scope float_scope.

Fixpoint cos_loop (a b : list float) (d na nb : float) : float * float * float :=
  match a, b with
  | x :: a', y :: b' => cos_loop a' b' (d + x * y) (na + x * x) (nb + y * y)
  | _, _ => (d, na, nb)
  end.

Definition calculateCosineSimilarity (a b : list float) : float :=
  if Nat.eqb (List.length a) (List.length b) then
    let '(d, na, nb) := cos_loop a b 0 0 0 in
    let den := sqrt na * sqrt nb in
    if den =? 0 then 0 else d / den
  else 0.

(** The specification's [dot(a, b)] in binary64: the products of the
    components at equal positions, summed from the left with a rounding
    after each step. *)
Definition dot (a b : list float) : float :=
  List.fold_left (fun acc p => acc + fst p * snd p) (List.combine a b) 0.
End Binary64.

Definition set_or_empty (o : option (list string)) : list string :=
  match o with Some s => s | None => [] end.

Definition neq_id (x : string) (y : string) : bool :=
  if string_dec y x then false else true.

(** [findDomainRelatedMemories(domain, excludeId)] *)
Definition findDomainRelatedMemories (d exclude : string) (st : Store) : list string :=
  firstn 5 (filter (neq_id exclude) (set_or_empty (sget d (domainClusters st)))).

(** [b.strength - a.strength] as a comparator: [a] first when stronger. *)
Definition stronger (a b : Rel) : bool :=
  if Rlt_dec (strength b) (strength a) then true else false.

Definition similar_rels (kind : string) (threshold : R) (target : list R)
  (pick : EmbeddingEntry -> option (list R)) (exclude : string)
  (idx : list (string * EmbeddingEntry)) : list Rel :=
  flat_map (fun p =>
              if string_dec (fst p) exclude then []
              else match pick (snd p) with
                   | Some emb =>
                       let s := calculateCosineSimilarity target emb in
                       if Rlt_dec threshold s
                       then [{| rel_type := kind; targetId := fst p; strength := s |}]
                       else []
                   | None => []
                   end) idx.

(** [findSemanticallySimilarMemories(memoryEntry, excludeId)] *)
Definition findSemanticallySimilarMemories (e : MemoryEntry) (exclude : string) (st : Store)
  : list Rel :=
  match unified e with
  | None => []
  | Some t =>
      firstn 5 (sort_by stronger
        (similar_rels "semantic-similar" 0.7 t (fun ee => Some (ee_unified ee)) exclude
           (embeddingIndex st)))
  end.

(** [findTemporallyRelatedMemories(timestamp, excludeId)] *)
Definition findTemporallyRelatedMemories (env : Env) (t : Z) (exclude : string) (st : Store)
  : list string :=
  firstn 3 (filter (neq_id exclude) (set_or_empty (mget bkey_dec (dayKey env t) (dayBuckets st)))).

(** [findVisuallySimilarMemories(memoryEntry, excludeId)] *)
Definition findVisuallySimilarMemories (e : MemoryEntry) (exclude : string) (st : Store)
  : list Rel :=
  match visionEmbedding e with
  | None => []
  | Some t =>
      firstn 3 (sort_by stronger
        (similar_rels "visual-similar" 0.8 t ee_vision exclude (embeddingIndex st)))
  end.

(** The [relationships] array built by [discoverRelationships]. *)
Definition discoveredRelationships (env : Env) (mid : string) (e : MemoryEntry) (st : Store)
  : list Rel :=
  map (fun id => {| rel_type := "domain-related"; targetId := id; strength := 0.7 |})
      (findDomainRelatedMemories (domain e) mid st)
  ++ findSemanticallySimilarMemories e mid st
  ++ map (fun id => {| rel_type := "temporal-related"; targetId := id; strength := 0.5 |})
         (findTemporallyRelatedMemories env (timestamp e) mid st)
  ++ (match visionEmbedding e with
      | Some _ => findVisuallySimilarMemories e mid st
      | None => []
      end).

Definition reverseRel (mid : string) (rel : Rel) : Rel :=
  {| rel_type := (rel_type rel ++ "-reverse")%string; targetId := mid;
     strength := strength rel |}.

(** One step of the [relationships.forEach] adding the reverse edge. *)
Definition push_reverse (mid : string) (g : list (string * list Rel)) (rel : Rel)
  : list (string * list Rel) :=
  let g1 := if mhas string_dec (targetId rel) g then g
            else sset (targetId rel) [] g in
  mupdate string_dec (targetId rel) (fun l => l ++ [reverseRel mid rel]) g1.

(** [discoverRelationships(memoryId, memoryEntry)] *)
Definition discoverRelationships (env : Env) (mid : string) (e : MemoryEntry) (st : Store)
  : Store :=
  let rels := discoveredRelationships env mid e st in
  let g := sset mid rels (relationshipGraph st) in
  set_relationshipGraph st (fold_left (push_reverse mid) rels g).

(** ** Concept clusters *)

(** [calculateCosineSimilarity(embedding, cluster.centroid) > threshold] *)
Definition cluster_matches (v : list R) (c : ConceptCluster) : bool :=
  match centroid c with
  | Some cen => if Rlt_dec 0.85 (calculateCosineSimilarity v cen) then true else false
  | None => false
  end.

(** The loop of [findOrCreateConceptCluster]: the first cluster, in
    insertion order, above the threshold. *)
Fixpoint findMatchingCluster (v : list R) (cs : list (string * ConceptCluster))
  : option string :=
  match cs with
  | [] => None
  | (cid, c) :: cs' => if cluster_matches v c then Some cid else findMatchingCluster v cs'
  end.

(** [findOrCreateConceptCluster(embedding, semanticFeatures)]; [freshId] is
    the generated [cluster-...] identifier. *)
Definition findOrCreateConceptCluster (v : list R) (freshId : string) (st : Store) : string :=
  match findMatchingCluster v (conceptClusters st) with
  | Some cid => cid
  | None => freshId
  end.

Fixpoint join_str (sep : string) (l : list string) : string :=
  match l with
  | [] => ""
  | [x] => x
  | x :: l' => (x ++ sep ++ join_str sep l')%string
  end.

(** [inferConceptFromFeatures(semanticFeatures)] *)
Definition inferConceptFromFeatures (e : MemoryEntry) : string :=
  (contentType e ++ ": " ++ join_str ", " (firstn 3 (topics e)))%string.

(** [centroid[index] += value] for every [(value, index)] of one embedding;
    [None] once an index past the array was written ([NaN]). *)
Fixpoint add_prefix (acc emb : list R) : list R :=
  match acc, emb with
  | a :: acc', x :: emb' => (a + x) :: add_prefix acc' emb'
  | _, _ => acc
  end.

Definition add_embedding (acc : option (list R)) (emb : list R) : option (list R) :=
  match acc with
  | Some a => if (length emb <=? length a)%nat then Some (add_prefix a emb) else None
  | None => None
  end.

Definition member_embeddings (ms : list string) (st : Store) : list (list R) :=
  flat_map (fun m => match sget m (embeddingIndex st) with
                     | Some ee => [ee_unified ee]
                     | None => []
                     end) ms.

Definition with_centroid (c : ConceptCluster) (cen : option (list R)) : ConceptCluster :=
  {| cl_id := cl_id c; centroid := cen; members := members c; concept := concept c |}.

Definition with_members (c : ConceptCluster) (ms : list string) : ConceptCluster :=
  {| cl_id := cl_id c; centroid := centroid c; members := ms; concept := concept c |}.

(** [updateClusterCentroid(clusterId)] *)
Definition updateClusterCentroid (cid : string) (st : Store) : Store :=
  match sget cid (conceptClusters st) with
  | None => st
  | Some c =>
      match members c with
      | [] => st
      | _ =>
          match member_embeddings (members c) st with
          | [] => st
          | (e0 :: _) as embs =>
              let sums := fold_left add_embedding embs (Some (repeat 0 (length e0))) in
              let cen := option_map (map (fun x => x / INR (length embs))) sums in
              set_conceptClusters st
                (mreplace string_dec cid (with_centroid c cen) (conceptClusters st))
          end
      end
  end.

(** [updateConceptClusters(memoryId, memoryEntry)] *)
Definition updateConceptClusters (mid : string) (e : MemoryEntry) (freshId : string)
  (st : Store) : Store :=
  match unified e with
  | None => st
  | Some v =>
      let cid := findOrCreateConceptCluster v freshId st in
      let st1 :=
        if mhas string_dec cid (conceptClusters st) then st
        else set_conceptClusters st
               (sset cid {| cl_id := cid; centroid := Some v; members := [];
                            concept := inferConceptFromFeatures e |} (conceptClusters st)) in
      let st2 :=
        set_conceptClusters st1
          (mupdate string_dec cid (fun c => with_members c (sadd string_dec mid (members c)))
                   (conceptClusters st1)) in
      updateClusterCentroid cid st2
  end.

(** ** Removal and eviction *)

(** [relationships.findIndex(rel => rel.targetId === memoryId)] followed by
    [splice(index, 1)]: the first such edge only. *)
Fixpoint remove_first_target (mid : string) (l : list Rel) : list Rel :=
  match l with
  | [] => []
  | r :: l' => if string_dec (targetId r) mid then l' else r :: remove_first_target mid l'
  end.

(** [removeMemory(memoryId)] *)
Definition removeMemory (mid : string) (st : Store) : Store :=
  {| maxMemories := maxMemories st;
     memoryStore := mdelete string_dec mid (memoryStore st);
     embeddingIndex := mdelete string_dec mid (embeddingIndex st);
     relationshipGraph :=
       mmap (remove_first_target mid) (mdelete string_dec mid (relationshipGraph st));
     conceptClusters :=
       mmap (fun c => with_members c (sdelete string_dec mid (members c))) (conceptClusters st);
     hourBuckets := mmap (sdelete string_dec mid) (hourBuckets st);
     dayBuckets := mmap (sdelete string_dec mid) (dayBuckets st);
     weekBuckets := mmap (sdelete string_dec mid) (weekBuckets st);
     monthBuckets := mmap (sdelete string_dec mid) (monthBuckets st);
     semanticCategories := mmap (sdelete string_dec mid) (semanticCategories st);
     domainClusters := mmap (sdelete string_dec mid) (domainClusters st);
     embeddingBuckets := embeddingBuckets st |}.

(** [a[1].timestamp - b[1].timestamp] as a comparator. *)
Definition older (a b : string * MemoryEntry) : bool :=
  (timestamp (snd a) <? timestamp (snd b))%Z.

(** The records [maintainMemoryLimits] hands to [removeMemory]. *)
Definition evictionVictims (st : Store) : list (string * MemoryEntry) :=
  let n := Z.of_nat (length (memoryStore st)) in
  js_slice0 (sort_by older (memoryStore st)) (n - maxMemories st).

(** [maintainMemoryLimits()] *)
Definition maintainMemoryLimits (st : Store) : Store :=
  if (Z.of_nat (length (memoryStore st)) <=? maxMemories st)%Z then st
  else fold_left (fun st p => removeMemory (fst p) st) (evictionVictims st) st.

(** ** [storeMemory] *)

(** The writes of [storeMemory] before relationship discovery. *)
Definition indexEntry (env : Env) (mid : string) (e : MemoryEntry) (st : Store) : Store :=
  let st1 := set_memoryStore st (sset mid e (memoryStore st)) in
  let st2 := indexEmbeddings mid e st1 in
  let st3 := updateTemporalIndices env mid e st2 in
  let st4 := updateSemanticCategories mid e st3 in
  updateDomainClusters mid e st4.

(** The body of [storeMemory] after the entry is built. *)
Definition insertEntry (env : Env) (mid clusterId : string) (e : MemoryEntry) (st : Store)
  : Store :=
  let st5 := indexEntry env mid e st in
  let st6 := discoverRelationships env mid e st5 in
  let st7 := updateConceptClusters mid e clusterId st6 in
  maintainMemoryLimits st7.

(** [getMemoryClusters(memoryId)] *)
Definition getMemoryClusters (mid : string) (st : Store) : list ConceptCluster :=
  map snd (filter (fun p => shas string_dec mid (members (snd p))) (conceptClusters st)).

Record StoreResult := {
  res_memoryId : option string;
  res_stored : bool;
  res_relationships : nat;
  res_clusters : nat;
  res_error : option string }.

(** [storeMemory(orchestrationResult)]; [mid] and [clusterId] are the
    identifiers generated from [Date.now()] and [Math.random()].  The only
    statement of the [try] block that can throw is [createMemoryEntry],
    which runs before any write. *)
Definition storeMemory (env : Env) (mid clusterId : string) (r : OrchestrationResult)
  (st : Store) : Store * StoreResult :=
  match createMemoryEntry env mid r with
  | None =>
      (st, {| res_memoryId := None; res_stored := false; res_relationships := 0;
              res_clusters := 0; res_error := Some "TypeError"%string |})
  | Some e =>
      let st' := insertEntry env mid clusterId e st in
      (st', {| res_memoryId := Some mid; res_stored := true;
               res_relationships :=
                 match sget mid (relationshipGraph st') with
                 | Some rels => length rels
                 | None => 0
                 end;
               res_clusters := length (getMemoryClusters mid st');
               res_error := None |})
  end.

(** ** Read path: [searchMemories] *)

Record SearchOptions := {
  opt_limit : Z;
  opt_threshold : R;
  opt_includeRelationships : bool;
  opt_temporalFilter : option (Z * Z);
  opt_domainFilter : option string;
  opt_categoryFilter : option string }.

(** The defaults of the destructuring in [searchMemories]. *)
Definition defaultSearchOptions : SearchOptions :=
  {| opt_limit := 10; opt_threshold := 0.7; opt_includeRelationships := true;
     opt_temporalFilter := None; opt_domainFilter := None; opt_categoryFilter := None |}.

Record RelatedMemory := { rm_type : string; rm_strength : R; rm_memory : MemoryEntry }.

Record SearchHit := {
  hit_memoryId : string;
  hit_similarity : R;
  hit_memory : MemoryEntry;
  hit_url : string;
  hit_timestamp : Z;
  hit_summary : string;
  hit_relationships : option (list RelatedMemory) }.

Record SearchMetrics := {
  queryEmbeddingGenerated : bool;
  memoryStoreSize : nat;
  averageSimilarity : jsnum }.

Record SearchResult := {
  sr_query : string;
  sr_results : list SearchHit;
  sr_totalFound : nat;
  sr_searchMetrics : option SearchMetrics;
  sr_error : option string }.

(** [generateMemorySummary(memory)]: on a stored entry [agentOutputs.text]
    has no [textAnalysis] and [agentOutputs.vision] no [visionAnalysis], so
    only the orchestrator summary can be non-empty. *)
Definition generateMemorySummary (m : MemoryEntry) : string :=
  let u := substring 0 200 (unifiedAnalysis m) in
  if truthy_str u then (u ++ "...")%string else "No summary available".

(** [findSimilarMemories(queryEmbedding, threshold)] for a present query
    embedding; [None] when [memory.url] throws (an indexed id without a
    stored record). *)
Fixpoint findSimilarMemories (q : list R) (threshold : R) (ms : list (string * MemoryEntry))
  (idx : list (string * EmbeddingEntry)) : option (list SearchHit) :=
  match idx with
  | [] => Some []
  | (mid, ee) :: idx' =>
      let s := calculateCosineSimilarity q (ee_unified ee) in
      if Rle_dec threshold s then
        match sget mid ms with
        | Some m =>
            option_map (fun rest =>
              {| hit_memoryId := mid; hit_similarity := s; hit_memory := m;
                 hit_url := url m; hit_timestamp := timestamp m;
                 hit_summary := generateMemorySummary m;
                 hit_relationships := None |} :: rest)
              (findSimilarMemories q threshold ms idx')
        | None => None
        end
      else findSimilarMemories q threshold ms idx'
  end.

(** [applyFilters(results, filters)] *)
Definition applyFilters (o : SearchOptions) (hits : list SearchHit) : list SearchHit :=
  let f1 := match opt_domainFilter o with
            | Some d => if truthy_str d
                        then filter (fun h => if string_dec (domain (hit_memory h)) d
                                              then true else false) hits
                        else hits
            | None => hits
            end in
  let f2 := match opt_categoryFilter o with
            | Some c => if truthy_str c
                        then filter (fun h => shas string_dec c (categories (hit_memory h))) f1
                        else f1
            | None => f1
            end in
  match opt_temporalFilter o with
  | Some (s, e) =>
      filter (fun h => (s <=? timestamp (hit_memory h))%Z && (timestamp (hit_memory h) <=? e)%Z) f2
  | None => f2
  end.

(** [enhanceWithRelationships(results)] *)
Definition enhanceWithRelationships (st : Store) (hits : list SearchHit) : list SearchHit :=
  map (fun h =>
         let rels := match sget (hit_memoryId h) (relationshipGraph st) with
                     | Some l => l
                     | None => []
                     end in
         {| hit_memoryId := hit_memoryId h; hit_similarity := hit_similarity h;
            hit_memory := hit_memory h; hit_url := hit_url h;
            hit_timestamp := hit_timestamp h; hit_summary := hit_summary h;
            hit_relationships := Some
              (flat_map (fun r => match sget (targetId r) (memoryStore st) with
                                  | Some m => [{| rm_type := rel_type r;
                                                  rm_strength := strength r;
                                                  rm_memory := m |}]
                                  | None => []
                                  end) rels) |}) hits.

Definition by_similarity (a b : SearchHit) : bool :=
  if Rlt_dec (hit_similarity b) (hit_similarity a) then true else false.

(** [searchMemories(query, options)]; [qemb] is the value
    [generateQueryEmbedding(query)] resolves to ([None]: the request failed
    or the response carried no embedding; that function catches its own
    errors and returns [null]). *)
Definition searchMemories (st : Store) (query : string) (o : SearchOptions)
  (qemb : option (list R)) : SearchResult :=
  let similarities :=
    match qemb with
    | Some q => findSimilarMemories q (opt_threshold o) (memoryStore st) (embeddingIndex st)
    | None => Some []
    end in
  match similarities with
  | None =>
      {| sr_query := query; sr_results := []; sr_totalFound := 0;
         sr_searchMetrics := None; sr_error := Some "TypeError"%string |}
  | Some sims =>
      let ranked := js_slice0 (sort_by by_similarity (applyFilters o sims)) (opt_limit o) in
      let results := if opt_includeRelationships o
                      then enhanceWithRelationships st ranked else ranked in
      {| sr_query := query; sr_results := results; sr_totalFound := length results;
         sr_searchMetrics := Some
           {| queryEmbeddingGenerated := match qemb with Some _ => true | None => false end;
              memoryStoreSize := length (memoryStore st);
              averageSimilarity :=
                js_div (fold_left (fun acc h => acc + hit_similarity h) results 0)
                       (INR (length results)) |};
         sr_error := None |}
  end.

(** ** Persistence *)

(** [new Map(entries)]: a repeated key keeps its first position and takes
    its last value. *)
Definition mapFromEntries {K V} (Keq : forall x y : K, {x = y} + {x <> y})
  (l : list (K * V)) : list (K * V) :=
  fold_left (fun m kv => mset Keq (fst kv) (snd kv) m) l [].

(** The object returned by [exportMemoryState()]. *)
Record MemoryState := {
  ms_memories : list (string * MemoryEntry);
  ms_embeddings : list (string * EmbeddingEntry);
  ms_clusters : list (string * ConceptCluster);
  ms_relationships : list (string * list Rel);
  ms_systemId : string;
  ms_exportTimestamp : Z }.

(** [exportMemoryState()]; [systemId] and [Date.now()] are inputs. *)
Definition exportMemoryState (systemId : string) (now : Z) (st : Store) : MemoryState :=
  {| ms_memories := memoryStore st; ms_embeddings := embeddingIndex st;
     ms_clusters := conceptClusters st; ms_relationships := relationshipGraph st;
     ms_systemId := systemId; ms_exportTimestamp := now |}.

(** [rebuildIndices()]: the temporal, category and domain indexes are
    replaced by empty maps, then refilled from [memoryStore];
    [embeddingBuckets] is left as it is. *)
Definition rebuildIndices (env : Env) (st : Store) : Store :=
  let st0 := set_domainClusters
               (set_semanticCategories
                  (set_buckets GMonth (set_buckets GWeek (set_buckets GDay
                     (set_buckets GHour st []) []) []) []) []) [] in
  fold_left (fun st p =>
               let st1 := updateTemporalIndices env (fst p) (snd p) st in
               let st2 := updateSemanticCategories (fst p) (snd p) st1 in
               updateDomainClusters (fst p) (snd p) st2)
            (memoryStore st0) st0.

(** [importMemoryState(state)] *)
Definition importMemoryState (env : Env) (state : MemoryState) (st : Store) : Store :=
  let st1 := set_memoryStore st (mapFromEntries string_dec (ms_memories state)) in
  let st2 := set_embeddingIndex st1 (mapFromEntries string_dec (ms_embeddings state)) in
  let st3 := set_conceptClusters st2 (mapFromEntries string_dec (ms_clusters state)) in
  let st4 := set_relationshipGraph st3 (mapFromEntries string_dec (ms_relationships state)) in
  rebuildIndices env st4.

(** ** Analytics *)

(** A property value of the [distribution] object of [getMemoryDistribution]. *)
Inductive DistValue :=
| DCount (n : nat)
  (** [String(Object.prototype[name])] followed by [ones] characters ['1']:
      what [(distribution[name] || 0) + 1] builds, and then extends, when
      [name] is a member a plain object inherits *)
| DInherited (name : string) (ones : nat).

(** The members a plain object ([{}]) inherits from [Object.prototype]. *)
Definition objectPrototypeMembers : list string :=
  ["constructor"; "hasOwnProperty"; "isPrototypeOf"; "propertyIsEnumerable";
   "toLocaleString"; "toString"; "valueOf"; "__defineGetter__"; "__defineSetter__";
   "__lookupGetter__"; "__lookupSetter__"; "__proto__"]%string.

(** [distribution[contentType] = (distribution[contentType] || 0) + 1].
    Reading an inherited member gives a function (for [__proto__], the
    prototype object), which is truthy, so [+ 1] concatenates a string;
    assigning a string to [__proto__] is ignored.  Only lookups of the
    object are modelled, not its key order. *)
Definition count_content_type (d : list (string * DistValue)) (c : string)
  : list (string * DistValue) :=
  match sget c d with
  | Some (DCount n) => sset c (DCount (S n)) d
  | Some (DInherited nm k) => sset c (DInherited nm (S k)) d
  | None =>
      if string_dec c "__proto__" then d
      else if shas string_dec c objectPrototypeMembers then sset c (DInherited c 1) d
      else sset c (DCount 1) d
  end.

(** [getMemoryDistribution()] *)
Definition getMemoryDistribution (st : Store) : list (string * DistValue) :=
  fold_left count_content_type (map (fun p => contentType (snd p)) (memoryStore st)) [].

(** [getMemoriesInTimeRange(range)]; [now] is the time of [new Date()]. *)
Definition getMemoriesInTimeRange (env : Env) (now : Z) (range : string) (st : Store) : nat :=
  let count g k := match mget bkey_dec k (buckets g st) with
                   | Some s => length s
                   | None => 0%nat
                   end in
  if string_dec range "hour" then count GHour (hourKey env now)
  else if string_dec range "day" then count GDay (dayKey env now)
  else if string_dec range "week" then count GWeek (weekKey env now)
  else if string_dec range "month" then count GMonth (monthKey env now)
  else 0%nat.

(** [b[1] - a[1]] as a comparator: [a] first when its count is larger. *)
Definition larger_count (a b : string * nat) : bool := (snd b <? snd a)%nat.

(** The body shared by [getTopCategories] and [getTopDomains]: a [Map]
    from each key to the size of its set, sorted by decreasing size, the
    first ten; a pair [(key, count)] is the object [{ category, count }]
    (resp. [{ domain, count }]). *)
Definition topCounts (index : list (string * list string)) : list (string * nat) :=
  let counts := fold_left (fun m kv => sset (fst kv) (length (snd kv)) m) index [] in
  js_slice0 (sort_by larger_count counts) 10.

(** [getTopCategories()] *)
Definition getTopCategories (st : Store) : list (string * nat) :=
  topCounts (semanticCategories st).

(** [getTopDomains()] *)
Definition getTopDomains (st : Store) : list (string * nat) :=
  topCounts (domainClusters st).

(** ** Recent memories *)

(** [new Date(t)] as a time value: [NaN] outside the range of [Date]. *)
Definition dateValue (t : Z) : option Z :=
  if (Z.abs t <=? 8640000000000000)%Z then Some t else None.

(** [new Date(b.timestamp) - new Date(a.timestamp)] as a comparator: [a]
    first when it is more recent; a [NaN] difference counts as a tie (the
    comparator is then inconsistent and the engine's order is not
    specified; this stable insertion sort is one of the allowed orders). *)
Definition more_recent (a b : MemoryEntry) : bool :=
  match dateValue (timestamp a), dateValue (timestamp b) with
  | Some ta, Some tb => (tb <? ta)%Z
  | _, _ => false
  end.

(** [getRecentMemories(limit)] *)
Definition getRecentMemories (limit : Z) (st : Store) : list MemoryEntry :=
  js_slice0 (sort_by more_recent (map snd (memoryStore st))) limit.

(** ** A concrete environment: UTC and a scheme-and-host URL parser *)

Definition civil_from_days (days : Z) : Z * Z * Z :=
  let z := (days + 719468)%Z in
  let era := (z / 146097)%Z in
  let doe := (z - era * 146097)%Z in
  let yoe := ((doe - doe / 1460 + doe / 36524 - doe / 146096) / 365)%Z in
  let doy := (doe - (365 * yoe + yoe / 4 - yoe / 100))%Z in
  let mp := ((5 * doy + 2) / 153)%Z in
  let d := (doy - (153 * mp + 2) / 5 + 1)%Z in
  let m := (if mp <? 10 then mp + 3 else mp - 9)%Z in
  let y := (yoe + era * 400 + (if m <=? 2 then 1 else 0))%Z in
  (y, m, d).

(** Days from 1970-01-01 to January 1st of [y]. *)
Definition days_to_jan1 (y : Z) : Z :=
  let y' := (y - 1)%Z in
  let era := (y' / 400)%Z in
  let yoe := (y' - era * 400)%Z in
  let doe := (yoe * 365 + yoe / 4 - yoe / 100 + 306)%Z in
  (era * 146097 + doe - 719468)%Z.

Fixpoint strip_prefix (p s : string) : option string :=
  match p, s with
  | EmptyString, _ => Some s
  | String c p', String c' s' => if Ascii.eqb c c' then strip_prefix p' s' else None
  | String _ _, EmptyString => None
  end.

Fixpoint take_host (s : string) : string :=
  match s with
  | EmptyString => EmptyString
  | String c s' => if Ascii.eqb c "/"%char then EmptyString else String c (take_host s')
  end.

Definition simpleHostname (u : string) : option string :=
  let rest := match strip_prefix "https://" u with
              | Some r => Some r
              | None => strip_prefix "http://" u
              end in
  match rest with
  | Some r => let h := take_host r in if truthy_str h then Some h else None
  | None => None
  end.

Definition utcEnv : Env :=
  {| parseHostname := simpleHostname;
     getFullYear := fun t => let '(y, _, _) := civil_from_days (t / 86400000) in y;
     getMonth := fun t => let '(_, m, _) := civil_from_days (t / 86400000) in (m - 1)%Z;
     getDate := fun t => let '(_, _, d) := civil_from_days (t / 86400000) in d;
     getHours := fun t => ((t mod 86400000) / 3600000)%Z;
     getDay := fun t => ((t / 86400000 + 4) mod 7)%Z;
     yearStart := fun y => (days_to_jan1 y * 86400000)%Z |}.

(** A vision-only orchestration result as the background worker builds it. *)
Definition visionOnlyResult (t : Z) (u synthesis : string) : OrchestrationResult :=
  {| r_timestamp := t; r_url := u;
     r_agentResults := Some {| ar_text := None;
       ar_vision := Some {| vr_visionAnalysis := Some {| va_synthesis := Some synthesis;
                                                        va_visualFeatures := None |};
                            vr_confidence := None; vr_agentId := None |} |};
     r_orchestratorSynthesis := Some {| os_unifiedAnalysis := Some synthesis;
                                        os_confidence := None; os_embeddings := None |};
     r_qualityMetrics := Some {| qm_overallScore := None |};
     r_orchestrationMetadata := Some {| om_processingTime := None;
                                        om_synthesisApproach := Some "vision-only"%string |} |}.

(** ** Specification-side definitions and sample data *)

(** *** Cosine similarity *)

(** The definition the specification gives, component by component. *)
Fixpoint dot (a b : list R) : R :=
  match a, b with
  | x :: a', y :: b' => x * y + dot a' b'
  | _, _ => 0
  end.

Definition norm (a : list R) : R := sqrt (dot a a).

(** *** Topics and search samples *)

(** The filter of [extractTopicsFromText]: longer than three characters
    and not a common word. *)
Definition topic_word (w : string) : bool :=
  (3 <? String.length w)%nat && negb (shas string_dec w commonWords).

Definition textOnlyResult (t : Z) (u summary : string) : OrchestrationResult :=
  {| r_timestamp := t; r_url := u;
     r_agentResults := Some {| ar_text := Some {| tr_textAnalysis :=
                                 Some {| ta_summary := Some summary; ta_metadata := None |};
                               tr_confidence := None; tr_agentId := None |};
                               ar_vision := None |};
     r_orchestratorSynthesis := Some {| os_unifiedAnalysis := Some summary;
                                        os_confidence := None; os_embeddings := None |};
     r_qualityMetrics := Some {| qm_overallScore := None |};
     r_orchestrationMetadata := Some {| om_processingTime := None;
                                        om_synthesisApproach := Some "text-primary"%string |} |}.

(** A result whose synthesis carries the unified embedding [v], as the
    orchestrator builds it ([embeddings: combinedEmbeddings.unified]). *)
Definition embeddedResult (t : Z) (u summary : string) (v : list R) : OrchestrationResult :=
  {| r_timestamp := t; r_url := u;
     r_agentResults := Some {| ar_text := Some {| tr_textAnalysis :=
                                 Some {| ta_summary := Some summary; ta_metadata := None |};
                               tr_confidence := None; tr_agentId := None |};
                               ar_vision := None |};
     r_orchestratorSynthesis := Some {| os_unifiedAnalysis := Some summary;
                                        os_confidence := None; os_embeddings := Some v |};
     r_qualityMetrics := Some {| qm_overallScore := None |};
     r_orchestrationMetadata := Some {| om_processingTime := None;
                                        om_synthesisApproach := Some "text-primary"%string |} |}.

(** *** Capacity eviction *)

Definition sampleEntry (mid : string) (t : Z) : MemoryEntry :=
  {| memoryId := mid; timestamp := t; url := "https://example.com/"; domain := "example.com";
     textSummary := ""; textConfidence := 0; visionSynthesis := ""; visionConfidence := 0;
     unifiedAnalysis := ""; orchestratorConfidence := 0; unified := None;
     textEmbedding := None; visionEmbedding := None; dimension := 0;
     contentType := "general"; pageType := "page"; topics := []; categories := [];
     quality := None; confidence := None; tf_hour := 0; tf_dayOfWeek := 0; tf_month := 0;
     tf_season := "winter"; processingTime := None; synthesisApproach := None |}.

Definition evictionSample : Store :=
  set_memoryStore (emptyStore 1)
    [("a", sampleEntry "a" 30); ("b", sampleEntry "b" 10); ("c", sampleEntry "c" 20)]%string.

(** *** Relationship reciprocity *)

Definition edges (k : string) (g : list (string * list Rel)) : list Rel :=
  match sget k g with Some l => l | None => [] end.

(** *** Fan-out of an inserted record *)

Definition gkey (env : Env) (g : Granularity) (t : Z) : BucketKey :=
  match g with
  | GHour => hourKey env t
  | GDay => dayKey env t
  | GWeek => weekKey env t
  | GMonth => monthKey env t
  end.

(** Where the write path puts a record [mid] built as [e]. *)
Definition fanned_out (env : Env) (mid : string) (e : MemoryEntry) (st : Store) : Prop :=
  (forall u, unified e = Some u ->
     exists ee, sget mid (embeddingIndex st) = Some ee /\ ee_unified ee = u) /\
  (forall g, exists s, mget bkey_dec (gkey env g (timestamp e)) (buckets g st) = Some s /\ In mid s) /\
  (forall g k s, In (k, s) (buckets g st) -> In mid s -> k = gkey env g (timestamp e)) /\
  (exists s, sget (domain e) (domainClusters st) = Some s /\ In mid s) /\
  (forall c, In c (categories e) -> exists s, sget c (semanticCategories st) = Some s /\ In mid s).

(** *** Concept clusters *)

Definition sampleEmbEntry (mid : string) (t : Z) (v : list R) : MemoryEntry :=
  {| memoryId := mid; timestamp := t; url := "https://example.com/"; domain := "example.com";
     textSummary := ""; textConfidence := 0; visionSynthesis := ""; visionConfidence := 0;
     unifiedAnalysis := ""; orchestratorConfidence := 0; unified := Some v;
     textEmbedding := None; visionEmbedding := None; dimension := Z.of_nat (length v);
     contentType := "general"; pageType := "page"; topics := []; categories := ["docs"%string];
     quality := None; confidence := None; tf_hour := 0; tf_dayOfWeek := 0; tf_month := 0;
     tf_season := "winter"; processingTime := None; synthesisApproach := None |}.

(** The arithmetic mean of a family of [d]-dimensional vectors, component
    by component. *)
Definition vec_mean (vs : list (list R)) (d : nat) : list R :=
  map (fun i => fold_right Rplus 0 (map (fun w => nth i w 0) vs) / INR (length vs)) (seq 0 d).

(** The cosine of [v] to the centroid of a cluster does not exceed the
    threshold ([NaN] centroids never pass it). *)
Definition below_threshold (v : list R) (c : ConceptCluster) : Prop :=
  match centroid c with
  | Some cen => calculateCosineSimilarity v cen <= 0.85
  | None => True
  end.

Definition sampleEmbedding (v : list R) : EmbeddingEntry :=
  {| ee_unified := v; ee_text := None; ee_vision := None; ee_dimension := Z.of_nat (length v) |}.

(** Two clusters: [c1] around [[1; 0]], then [c2] around [[4/5; 3/5]]. *)
Definition clusterSample : Store :=
  set_conceptClusters
    (set_embeddingIndex (emptyStore 10)
       [("m1"%string, sampleEmbedding [1; 0]); ("m2"%string, sampleEmbedding [4/5; 3/5]);
        ("m3"%string, sampleEmbedding [12/13; 5/13])]%string)
    [("c1"%string, {| cl_id := "c1"%string; centroid := Some [1; 0]; members := ["m1"%string];
               concept := ""%string |});
     ("c2"%string, {| cl_id := "c2"%string; centroid := Some [4/5; 3/5]; members := ["m2"%string];
               concept := ""%string |})]%string.

(** ** Definitions for the further properties *)

(** [Some l] for a non-empty list: the set an index holds once a key has
    members. *)
Definition nonempty (l : list string) : option (list string) :=
  match l with [] => None | _ => Some l end.

(** A set after the elements [l] are appended to it. *)
Definition extend_set (o : option (list string)) (l : list string) : option (list string) :=
  match o with Some s => Some (s ++ l) | None => nonempty l end.

(** Adding each element [a] of a list, as [id a], to the set at [key a]
    (the loop body of the index-building functions, folded). *)
Definition add_all {A K : Type} (Keq : forall x y : K, {x = y} + {x <> y})
  (key : A -> K) (id : A -> string) (l : list A) (m : list (K * list string))
  : list (K * list string) :=
  fold_left (fun m a => add_to_set_map Keq (key a) (id a) m) l m.

(** The pairs (category, id) of a table, in the order the table lists them. *)
Definition cat_pairs (l : list (string * MemoryEntry)) : list (string * string) :=
  flat_map (fun p => map (fun c => (c, fst p)) (categories (snd p))) l.

(** The name [getMemoryClusters] uses for a granularity. *)
Definition granularityName (g : Granularity) : string :=
  match g with GHour => "hour" | GDay => "day" | GWeek => "week" | GMonth => "month" end.

(** The entry a count of [n] records leaves in a distribution. *)
Definition count_of (n : nat) : option DistValue :=
  match n with O => None | _ => Some (DCount n) end.

(** How many times [c] occurs in a list. *)
Definition content_count (c : string) (l : list string) : nat :=
  length (filter (fun x => if string_dec x c then true else false) l).

(** [t] is a ranking of the keys of [index] by set size: the ten largest
    sets (or all of them), each key once with its size, largest first, and
    no key left out with a larger set than one listed. *)
Definition top_ok (index : list (string * list string)) (t : list (string * nat)) : Prop :=
  length t = Nat.min 10 (length index) /\ NoDup (map fst t) /\
  (forall k n, In (k, n) t -> exists s, sget k index = Some s /\ length s = n) /\
  StronglySorted (fun a b => (snd b <= snd a)%nat) t /\
  (forall k s, In (k, s) index -> ~ In k (map fst t) -> forall q, In q t -> (length s <= snd q)%nat).

(** The conditions [applyFilters] checks on a record. *)
Definition passes_filters (o : SearchOptions) (m : MemoryEntry) : Prop :=
  (forall d, opt_domainFilter o = Some d -> truthy_str d = true -> domain m = d) /\
  (forall c, opt_categoryFilter o = Some c -> truthy_str c = true -> In c (categories m)) /\
  (forall s e, opt_temporalFilter o = Some (s, e) -> (s <= timestamp m <= e)%Z).

(** Two records [a] and [b], an embedding for [a] only, and two edges from
    [a]: to [b] and to a record that is not stored. *)
Definition searchSample : Store :=
  set_relationshipGraph
    (set_embeddingIndex
       (set_memoryStore (emptyStore 10)
          [("a"%string, sampleEmbEntry "a" 1000 [1]); ("b"%string, sampleEmbEntry "b" 2000 [1])])
       [("a"%string, sampleEmbedding [1])])
    [("a"%string, [{| rel_type := "domain-related"; targetId := "b"; strength := 0.7 |};
                   {| rel_type := "temporal-related"; targetId := "gone"; strength := 0.5 |}])].

(** The hit a search over [searchSample] returns for [a], with its
    relationships. *)
Definition searchSampleHit : SearchHit :=
  {| hit_memoryId := "a"; hit_similarity := 1; hit_memory := sampleEmbEntry "a" 1000 [1];
     hit_url := "https://example.com/"; hit_timestamp := 1000;
     hit_summary := "No summary available";
     hit_relationships := Some [{| rm_type := "domain-related"; rm_strength := 0.7;
                                   rm_memory := sampleEmbEntry "b" 2000 [1] |}] |}.

(** [out] is what [s?.substring(0, 200)] and [s ? `${s}...` : ''] give
    for the source text [src]. *)
Definition clipped (src : option string) (out : string) : Prop :=
  (out = ""%string /\ forall x, src = Some x -> x = ""%string) \/
  (exists x y rest, src = Some x /\ x = (y ++ rest)%string /\ y <> ""%string /\
     String.length y = Nat.min 200 (String.length x) /\ out = (y ++ "...")%string).

(** The four optional fields [extractCategories] reads, in order. *)
Definition category_sources (r : OrchestrationResult) : list (option string) :=
  [match text_metadata r with Some m => tm_contentType m | None => None end;
   match text_metadata r with Some m => tm_pageType m | None => None end;
   match visual_features r with Some f => vf_designStyle f | None => None end;
   match visual_features r with Some f => vf_userExperience f | None => None end].

(** * Properties *)

(** ** Search *)

Lemma applyFilters_nil (o : SearchOptions) : applyFilters o [] = [].
Proof.
  unfold applyFilters.
  destruct (opt_domainFilter o) as [d|]; [destruct (truthy_str d)|];
  destruct (opt_categoryFilter o) as [c|]; try destruct (truthy_str c);
  destruct (opt_temporalFilter o) as [[s e]|]; reflexivity.
Qed.

Lemma js_slice0_nil {A} (n : Z) : js_slice0 (@nil A) n = [].
Proof. unfold js_slice0; destruct (n <? 0)%Z; apply firstn_nil. Qed.

Lemma js_div_zero_zero : js_div 0 0 = JSNaN.
Proof.
  unfold js_div; destruct (Req_dec_T 0 0) as [_|H]; [|congruence].
  destruct (Req_dec_T 0 0) as [_|H]; [reflexivity|congruence].
Qed.

(** C8 (amended): when the embedding provider fails, [searchMemories]
    returns a value (it does not throw) with no results, [totalFound = 0]
    and [searchMetrics.queryEmbeddingGenerated = false]; the [error] field
    is not set. *)
Theorem searchMemories_provider_failure (st : Store) (query : string) (o : SearchOptions) :
  searchMemories st query o None =
  {| sr_query := query; sr_results := []; sr_totalFound := 0;
     sr_searchMetrics := Some {| queryEmbeddingGenerated := false;
                                 memoryStoreSize := length (memoryStore st);
                                 averageSimilarity := JSNaN |};
     sr_error := None |}.
Proof.
  unfold searchMemories. rewrite applyFilters_nil. cbn [sort_by sort_by_aux].
  rewrite js_slice0_nil.
  destruct (opt_includeRelationships o); cbn [enhanceWithRelationships map length fold_left INR];
    rewrite js_div_zero_zero; reflexivity.
Qed.

(** C8 (counterexample): on a failed query embedding the result carries
    no error indicator: [error] is absent. *)
Lemma searchMemories_provider_failure_no_error_field :
  sr_results (searchMemories (emptyStore 100) "query" defaultSearchOptions None) = [] /\
  sr_error (searchMemories (emptyStore 100) "query" defaultSearchOptions None) = None.
Proof. split; reflexivity. Qed.

(** C10: whenever [searchMemories] completes its [try] block (the result
    has [searchMetrics]) with an empty result list, [averageSimilarity] is
    [0 / 0], i.e. [NaN]. *)
Theorem searchMemories_empty_average_nan (st : Store) (query : string) (o : SearchOptions)
  (qemb : option (list R)) (m : SearchMetrics) :
  sr_results (searchMemories st query o qemb) = [] ->
  sr_searchMetrics (searchMemories st query o qemb) = Some m ->
  averageSimilarity m = JSNaN.
Proof.
  unfold searchMemories.
  destruct (match qemb with
            | Some q => findSimilarMemories q (opt_threshold o) (memoryStore st) (embeddingIndex st)
            | None => Some []
            end) as [sims|]; cbn [sr_results sr_searchMetrics]; intros Hres Hm; [|discriminate].
  injection Hm as <-. cbn [averageSimilarity]. rewrite Hres.
  cbn [fold_left length INR]. apply js_div_zero_zero.
Qed.

Lemma searchMemories_empty_average_nan_witness :
  exists m, sr_searchMetrics (searchMemories (emptyStore 100) "query" defaultSearchOptions None)
            = Some m /\ averageSimilarity m = JSNaN.
Proof.
  eexists. split; [reflexivity|].
  apply (searchMemories_empty_average_nan (emptyStore 100) "query" defaultSearchOptions None);
    reflexivity.
Defined.

Lemma cos_loop_acc (a b : list R) (d na nb : R) :
  length a = length b ->
  cos_loop a b d na nb = (d + dot a b, na + dot a a, nb + dot b b).
Proof.
  revert b d na nb; induction a as [|x a IH]; intros [|y b] d na nb Hl;
    simpl in Hl; try discriminate.
  - simpl. f_equal; [f_equal|]; ring.
  - simpl. rewrite IH by lia. f_equal; [f_equal|]; ring.
Qed.

Lemma cos_equal_length (a b : list R) :
  length a = length b ->
  calculateCosineSimilarity a b =
  if Req_dec_T (norm a * norm b) 0 then 0 else dot a b / (norm a * norm b).
Proof.
  intros Hl. unfold calculateCosineSimilarity.
  rewrite Hl, Nat.eqb_refl, cos_loop_acc by exact Hl.
  unfold norm. rewrite !Rplus_0_l. reflexivity.
Qed.

Module Binary64Facts.
Import PrimFloat SpecFloat FloatOps FloatAxioms Binary64.
Local Open Scope float_scope.
Local Set Warnings "-inexact-float".








End Binary64Facts.

(** ** Topics *)

Lemma lower_ascii_idem (c : ascii) : lower_ascii (lower_ascii c) = lower_ascii c.
Proof.
  destruct c as [[] [] [] [] [] [] [] []]; vm_compute; reflexivity.
Qed.

Lemma toLowerCase_idem (s : string) : toLowerCase (toLowerCase s) = toLowerCase s.
Proof. induction s as [|c s IH]; simpl; [reflexivity|]. rewrite lower_ascii_idem, IH. reflexivity. Qed.

Lemma toLowerCase_append (s1 s2 : string) :
  toLowerCase (s1 ++ s2) = (toLowerCase s1 ++ toLowerCase s2)%string.
Proof. induction s1 as [|c s1 IH]; simpl; [reflexivity|]. rewrite IH. reflexivity. Qed.

Lemma split_ws_aux_lower (s cur : string) (b : bool) (t : string) :
  toLowerCase s = s -> toLowerCase cur = cur -> In t (split_ws_aux s cur b) ->
  toLowerCase t = t.
Proof.
  revert cur b; induction s as [|c s IH]; intros cur b Hs Hc Hin; simpl in *.
  - destruct Hin as [<-|[]]. exact Hc.
  - injection Hs as Hcl Hs.
    destruct (is_ws c); [destruct b|].
    + exact (IH cur true Hs Hc Hin).
    + destruct Hin as [<-|Hin]; [exact Hc|]. exact (IH EmptyString true Hs eq_refl Hin).
    + refine (IH _ false Hs _ Hin). rewrite toLowerCase_append, Hc. simpl. rewrite Hcl. reflexivity.
Qed.

Lemma dedup_aux_spec (seen l : list string) :
  NoDup (dedup_aux string_dec seen l) /\
  (forall x, In x (dedup_aux string_dec seen l) -> In x l /\ ~ In x seen).
Proof.
  revert seen; induction l as [|y l IH]; intros seen; simpl.
  - split; [constructor | tauto].
  - destruct (shas string_dec y seen) eqn:Hy.
    + destruct (IH seen) as [Hn Hm]. split; [exact Hn|].
      intros x Hx. destruct (Hm x Hx). tauto.
    + destruct (IH (seen ++ [y])) as [Hn Hm]. split.
      * constructor; [|exact Hn]. intros Hin. destruct (Hm y Hin) as [_ Hs].
        apply Hs. apply in_or_app. right. left. reflexivity.
      * intros x [->|Hx].
        -- split; [left; reflexivity|]. intros Hin. unfold shas in Hy.
           assert (existsb (fun z => if string_dec x z then true else false) seen = true)
             by (apply existsb_exists; exists x; split; [exact Hin|];
                 destruct (string_dec x x); congruence).
           congruence.
        -- destruct (Hm x Hx) as [H1 H2]. split; [right; exact H1|].
           intros Hin. apply H2. apply in_or_app. left. exact Hin.
Qed.

Lemma NoDup_firstn_str (n : nat) (l : list string) : NoDup l -> NoDup (firstn n l).
Proof.
  intros H. rewrite <- (firstn_skipn n l) in H. exact (NoDup_app_remove_r _ _ H).
Qed.

Lemma In_firstn {A} (n : nat) (l : list A) (x : A) : In x (firstn n l) -> In x l.
Proof. intros H. rewrite <- (firstn_skipn n l). apply in_or_app. left. exact H. Qed.

Lemma In_skipn {A} (n : nat) (l : list A) (x : A) : In x (skipn n l) -> In x l.
Proof. intros H. rewrite <- (firstn_skipn n l). apply in_or_app. right. exact H. Qed.

Lemma topics_from_text (s t : string) :
  In t (extractTopicsFromText s) ->
  In t (split_ws (toLowerCase s)) /\ (3 < String.length t)%nat /\ ~ In t commonWords /\
  toLowerCase t = t.
Proof.
  unfold extractTopicsFromText. intros Hin. apply In_firstn in Hin.
  apply filter_In in Hin as [Hin Hok]. apply andb_prop in Hok as [Hl Hc].
  apply Nat.ltb_lt in Hl. split; [exact Hin|]. split; [exact Hl|]. split.
  - intros Hw. apply negb_true_iff in Hc. unfold shas in Hc.
    assert (existsb (fun z => if string_dec t z then true else false) commonWords = true)
      by (apply existsb_exists; exists t; split; [exact Hw|];
          destruct (string_dec t t); congruence).
    congruence.
  - apply (split_ws_aux_lower (toLowerCase s) EmptyString false t);
      [apply toLowerCase_idem | reflexivity | exact Hin].
Qed.

(** C9 (amended): the topics of a result are the first ten distinct words
    of: the first five topic words of the lowercased text summary followed
    by the first five of the lowercased vision synthesis (a topic word is a
    white-space token longer than three characters that is not a common
    word); the list has at most ten entries, has no duplicates, and every
    entry is a lowercase topic word of one of the two texts. *)
Theorem extractTopics_spec (r : OrchestrationResult) :
  let summary := str_or (text_summary r) "" in
  let synthesis := str_or (vision_synthesis r) "" in
  extractTopics r =
    firstn 10 (dedup string_dec
      (firstn 5 (filter topic_word (split_ws (toLowerCase summary)))
       ++ firstn 5 (filter topic_word (split_ws (toLowerCase synthesis))))) /\
  (length (extractTopics r) <= 10)%nat /\
  NoDup (extractTopics r) /\
  (forall t, In t (extractTopics r) ->
     (In t (split_ws (toLowerCase summary)) \/ In t (split_ws (toLowerCase synthesis))) /\
     (3 < String.length t)%nat /\ ~ In t commonWords /\ toLowerCase t = t).
Proof.
  cbv zeta. split; [reflexivity|]. split; [apply firstn_le_length|]. split.
  - unfold extractTopics, dedup. apply NoDup_firstn_str. apply dedup_aux_spec.
  - intros t Ht. unfold extractTopics in Ht. apply In_firstn in Ht.
    unfold dedup in Ht. apply dedup_aux_spec in Ht as [Ht _].
    apply in_app_or in Ht as [Ht|Ht]; apply topics_from_text in Ht as (H1 & H2 & H3 & H4);
      repeat split; auto.
Qed.

(** C9 (counterexample): the summary has six non-common words, all kept by
    "the top ten longest"; the record's topics keep the first five and drop
    the longest one. *)
Lemma extractTopics_not_longest :
  let r := textOnlyResult 1700000000000 "https://example.com/"
             "Alpha beta gamma delta epsilon superlongword" in
  option_map topics (createMemoryEntry utcEnv "m" r) =
    Some ["alpha"; "beta"; "gamma"; "delta"; "epsilon"]%string /\
  In "superlongword"%string (split_ws (toLowerCase (str_or (text_summary r) ""))) /\
  topic_word "superlongword" = true.
Proof. vm_compute. split; [reflexivity|]. split; [tauto|reflexivity]. Qed.

(** ** Facts about the [Map] and [Set] operations *)

Section MapFacts.
Context {K V : Type} (Keq : forall x y : K, {x = y} + {x <> y}).

Lemma mget_mreplace_same (k : K) (v : V) (m : list (K * V)) :
  mhas Keq k m = true -> mget Keq k (mreplace Keq k v m) = Some v.
Proof.
  unfold mhas. induction m as [|[k' v'] m IH]; simpl; [discriminate|].
  destruct (Keq k k') as [->|Hne]; simpl.
  - destruct (Keq k' k') as [_|C]; [reflexivity|congruence].
  - destruct (Keq k k') as [C|_]; [congruence|]. exact IH.
Qed.

Lemma mget_mreplace_other (k k' : K) (v : V) (m : list (K * V)) :
  k' <> k -> mget Keq k' (mreplace Keq k v m) = mget Keq k' m.
Proof.
  intros Hne. induction m as [|[k0 v0] m IH]; simpl; [reflexivity|].
  destruct (Keq k k0) as [<-|Hk]; simpl.
  - destruct (Keq k' k) as [C|_]; [congruence|reflexivity].
  - destruct (Keq k' k0); [reflexivity|exact IH].
Qed.

Lemma mget_app_other (k k' : K) (v : V) (m : list (K * V)) :
  k' <> k -> mget Keq k' (m ++ [(k, v)]) = mget Keq k' m.
Proof.
  intros Hne. induction m as [|[k0 v0] m IH]; simpl.
  - destruct (Keq k' k); [congruence|reflexivity].
  - destruct (Keq k' k0); [reflexivity|exact IH].
Qed.

Lemma mget_app_new (k : K) (v : V) (m : list (K * V)) :
  mget Keq k m = None -> mget Keq k (m ++ [(k, v)]) = Some v.
Proof.
  induction m as [|[k0 v0] m IH]; simpl.
  - intros _. destruct (Keq k k); [reflexivity|congruence].
  - destruct (Keq k k0); [discriminate|exact IH].
Qed.

Lemma mget_mset_same (k : K) (v : V) (m : list (K * V)) :
  mget Keq k (mset Keq k v m) = Some v.
Proof.
  unfold mset. destruct (mhas Keq k m) eqn:H.
  - apply mget_mreplace_same. exact H.
  - apply mget_app_new. unfold mhas in H. destruct (mget Keq k m); [discriminate|reflexivity].
Qed.

Lemma mget_mset_other (k k' : K) (v : V) (m : list (K * V)) :
  k' <> k -> mget Keq k' (mset Keq k v m) = mget Keq k' m.
Proof.
  intros Hne. unfold mset. destruct (mhas Keq k m).
  - apply mget_mreplace_other. exact Hne.
  - apply mget_app_other. exact Hne.
Qed.

Lemma mget_mdelete_same (k : K) (m : list (K * V)) : mget Keq k (mdelete Keq k m) = None.
Proof.
  unfold mdelete. induction m as [|[k0 v0] m IH]; simpl; [reflexivity|].
  destruct (Keq k k0) as [<-|Hne]; [exact IH|]. simpl.
  destruct (Keq k k0); [congruence|exact IH].
Qed.

Lemma mget_mdelete_other (k k' : K) (m : list (K * V)) :
  k' <> k -> mget Keq k' (mdelete Keq k m) = mget Keq k' m.
Proof.
  intros Hne. unfold mdelete. induction m as [|[k0 v0] m IH]; simpl; [reflexivity|].
  destruct (Keq k k0) as [<-|Hk]; simpl.
  - destruct (Keq k' k); [congruence|exact IH].
  - destruct (Keq k' k0); [reflexivity|exact IH].
Qed.

Lemma mget_mmap (f : V -> V) (k : K) (m : list (K * V)) :
  mget Keq k (mmap f m) = option_map f (mget Keq k m).
Proof.
  induction m as [|[k0 v0] m IH]; simpl; [reflexivity|].
  destruct (Keq k k0); [reflexivity|exact IH].
Qed.

Lemma mget_mupdate_same (k : K) (f : V -> V) (m : list (K * V)) :
  mget Keq k (mupdate Keq k f m) = option_map f (mget Keq k m).
Proof.
  unfold mupdate. destruct (mget Keq k m) eqn:H; [|exact H].
  apply mget_mreplace_same. unfold mhas. rewrite H. reflexivity.
Qed.

Lemma mget_mupdate_other (k k' : K) (f : V -> V) (m : list (K * V)) :
  k' <> k -> mget Keq k' (mupdate Keq k f m) = mget Keq k' m.
Proof.
  intros Hne. unfold mupdate. destruct (mget Keq k m); [|reflexivity].
  apply mget_mreplace_other. exact Hne.
Qed.

Lemma shas_In (x : K) (s : list K) : shas Keq x s = true <-> In x s.
Proof.
  unfold shas. rewrite existsb_exists. split.
  - intros [y [Hy Heq]]. destruct (Keq x y) as [->|]; [exact Hy|discriminate].
  - intros H. exists x. split; [exact H|]. destruct (Keq x x); congruence.
Qed.

Lemma In_sadd (x y : K) (s : list K) : In y (sadd Keq x s) <-> y = x \/ In y s.
Proof.
  unfold sadd. destruct (shas Keq x s) eqn:H.
  - apply shas_In in H. split; [tauto|]. intros [->|]; assumption.
  - rewrite in_app_iff. simpl. split; intros; intuition.
Qed.

Lemma In_sdelete (x y : K) (s : list K) : In y (sdelete Keq x s) <-> In y s /\ y <> x.
Proof.
  unfold sdelete. rewrite filter_In.
  destruct (Keq x y) as [->|Hne]; split; intros; intuition; congruence.
Qed.
End MapFacts.

Lemma mhas_mget {K V} (Keq : forall x y : K, {x = y} + {x <> y}) k (m : list (K * V)) :
  mhas Keq k m = false <-> mget Keq k m = None.
Proof. unfold mhas. destruct (mget Keq k m); split; congruence. Qed.

(** After [add_to_set_map k x], the set at [k] holds [x]. *)
Lemma add_to_set_map_same {K} (Keq : forall x y : K, {x = y} + {x <> y}) k x m :
  exists s, mget Keq k (add_to_set_map Keq k x m) = Some s /\ In x s.
Proof.
  unfold add_to_set_map. rewrite mget_mupdate_same.
  destruct (mhas Keq k m) eqn:H.
  - unfold mhas in H. destruct (mget Keq k m) as [s|] eqn:Hs; [|discriminate].
    simpl. eexists; split; [reflexivity|]. apply In_sadd. left; reflexivity.
  - rewrite mget_mset_same. simpl. eexists; split; [reflexivity|].
    apply In_sadd. left; reflexivity.
Qed.

(** [add_to_set_map] keeps every membership. *)
Lemma add_to_set_map_keep {K} (Keq : forall x y : K, {x = y} + {x <> y}) k x m k' s y :
  mget Keq k' m = Some s -> In y s ->
  exists s', mget Keq k' (add_to_set_map Keq k x m) = Some s' /\ In y s'.
Proof.
  intros Hs Hy. unfold add_to_set_map.
  assert (Hm1 : mget Keq k' (if mhas Keq k m then m else mset Keq k [] m) = Some s).
  { destruct (mhas Keq k m) eqn:H; [exact Hs|].
    destruct (Keq k' k) as [->|Hne].
    - apply mhas_mget in H. congruence.
    - rewrite mget_mset_other by exact Hne. exact Hs. }
  destruct (Keq k' k) as [->|Hne].
  - rewrite mget_mupdate_same, Hm1. simpl. eexists; split; [reflexivity|].
    apply In_sadd. right; exact Hy.
  - rewrite mget_mupdate_other by exact Hne. eexists; split; [exact Hm1|exact Hy].
Qed.

(** ** Removal *)

(** C2 (code bug): [removeMemory] strips only the first edge of each list
    that targets the removed id.  With [maxMemories = 1], storing a record
    [A] and then a record [B] of the same domain and day gives [B] the edges
    [domain-related -> A] and [temporal-related -> A]; the eviction of [A]
    removes the first one only, and the graph keeps an edge to an id absent
    from the canonical table. *)
Theorem removeMemory_leaves_dangling_edge :
  let s1 := fst (storeMemory utcEnv "A" "cA" (visionOnlyResult 1000 "https://ex.com/a" "one")
                   (emptyStore 1)) in
  let s2 := fst (storeMemory utcEnv "B" "cB" (visionOnlyResult 2000 "https://ex.com/b" "two") s1) in
  sget "A" (memoryStore s2) = None /\
  exists rels, sget "B" (relationshipGraph s2) = Some rels /\
               exists r, In r rels /\ targetId r = "A"%string.
Proof.
  vm_compute. split; [reflexivity|].
  eexists; split; [reflexivity|]. eexists; split; [left; reflexivity|reflexivity].
Qed.

(** ** The canonical table along the write path *)

Lemma memoryStore_indexEmbeddings mid e st :
  memoryStore (indexEmbeddings mid e st) = memoryStore st.
Proof. unfold indexEmbeddings. destruct (unified e); reflexivity. Qed.

Lemma memoryStore_updateSemanticCategories mid e st :
  memoryStore (updateSemanticCategories mid e st) = memoryStore st.
Proof.
  unfold updateSemanticCategories. generalize st.
  induction (categories e) as [|c cs IH]; intros s; simpl; [reflexivity|].
  rewrite IH. reflexivity.
Qed.

Lemma memoryStore_updateTemporalIndices env mid e st :
  memoryStore (updateTemporalIndices env mid e st) = memoryStore st.
Proof. reflexivity. Qed.

Lemma memoryStore_updateDomainClusters mid e st :
  memoryStore (updateDomainClusters mid e st) = memoryStore st.
Proof. reflexivity. Qed.

Lemma memoryStore_indexEntry env mid e st :
  memoryStore (indexEntry env mid e st) = sset mid e (memoryStore st).
Proof.
  unfold indexEntry.
  rewrite memoryStore_updateDomainClusters, memoryStore_updateSemanticCategories,
    memoryStore_updateTemporalIndices, memoryStore_indexEmbeddings.
  reflexivity.
Qed.

Lemma memoryStore_discoverRelationships env mid e st :
  memoryStore (discoverRelationships env mid e st) = memoryStore st.
Proof. reflexivity. Qed.

Lemma memoryStore_updateClusterCentroid cid st :
  memoryStore (updateClusterCentroid cid st) = memoryStore st.
Proof.
  unfold updateClusterCentroid.
  destruct (sget cid (conceptClusters st)) as [c|]; [|reflexivity].
  destruct (members c); [reflexivity|].
  destruct (member_embeddings _ st); reflexivity.
Qed.

Lemma memoryStore_updateConceptClusters mid e fresh st :
  memoryStore (updateConceptClusters mid e fresh st) = memoryStore st.
Proof.
  unfold updateConceptClusters. destruct (unified e); [|reflexivity].
  rewrite memoryStore_updateClusterCentroid. cbn.
  destruct (mhas _ _ _); reflexivity.
Qed.

Lemma length_sset_new {V} k (v : V) m :
  sget k m = None -> length (sset k v m) = S (length m).
Proof.
  intros H. unfold sset, mset. unfold sget in H.
  assert (Hh : mhas string_dec k m = false) by (apply mhas_mget; exact H).
  rewrite Hh, length_app. simpl. lia.
Qed.

(** The canonical table before [maintainMemoryLimits]. *)
Lemma memoryStore_before_limits env mid cid e st :
  memoryStore (updateConceptClusters mid e cid
                 (discoverRelationships env mid e (indexEntry env mid e st)))
  = sset mid e (memoryStore st).
Proof.
  rewrite memoryStore_updateConceptClusters, memoryStore_discoverRelationships.
  apply memoryStore_indexEntry.
Qed.

Lemma maxMemories_before_limits env mid cid e st :
  maxMemories (updateConceptClusters mid e cid
                 (discoverRelationships env mid e (indexEntry env mid e st)))
  = maxMemories st.
Proof.
  assert (Hc : forall c s, maxMemories (updateClusterCentroid c s) = maxMemories s).
  { intros c s. unfold updateClusterCentroid.
    destruct (sget c (conceptClusters s)) as [cl|]; [|reflexivity].
    destruct (members cl); [reflexivity|].
    destruct (member_embeddings _ s); reflexivity. }
  unfold updateConceptClusters. destruct (unified e).
  - rewrite Hc. cbn. destruct (mhas _ _ _); cbn.
    + unfold indexEntry. cbn.
      assert (Hs : forall cs s0, maxMemories (fold_left (fun st c =>
               set_semanticCategories st
                 (add_to_set_map string_dec c mid (semanticCategories st))) cs s0) = maxMemories s0).
      { induction cs as [|x cs IH]; intros s0; simpl; [reflexivity|]. rewrite IH. reflexivity. }
      unfold updateSemanticCategories. rewrite Hs. unfold indexEmbeddings.
      destruct (unified e); reflexivity.
    + unfold indexEntry. cbn.
      assert (Hs : forall cs s0, maxMemories (fold_left (fun st c =>
               set_semanticCategories st
                 (add_to_set_map string_dec c mid (semanticCategories st))) cs s0) = maxMemories s0).
      { induction cs as [|x cs IH]; intros s0; simpl; [reflexivity|]. rewrite IH. reflexivity. }
      unfold updateSemanticCategories. rewrite Hs. unfold indexEmbeddings.
      destruct (unified e); reflexivity.
  - unfold indexEntry. cbn.
    assert (Hs : forall cs s0, maxMemories (fold_left (fun st c =>
             set_semanticCategories st
               (add_to_set_map string_dec c mid (semanticCategories st))) cs s0) = maxMemories s0).
    { induction cs as [|x cs IH]; intros s0; simpl; [reflexivity|]. rewrite IH. reflexivity. }
    unfold updateSemanticCategories. rewrite Hs. unfold indexEmbeddings.
    destruct (unified e); reflexivity.
Qed.

(** ** Building a record *)

(** C7: when the four containers the builder dereferences without
    optional chaining are present ([agentResults],
    [orchestratorSynthesis], [qualityMetrics], [orchestrationMetadata]),
    [createMemoryEntry] succeeds whatever text, vision or embedding part
    is missing, [storeMemory] reports [stored: true] with no error and
    runs the insert on that record, the record's embedding is [null],
    absent text or vision parts are replaced by empty strings, zero
    confidences, the [general]/[page] types and empty topic and category
    lists, and a fresh record is in the canonical table afterwards when
    the table had room. *)
Theorem storeMemory_partial_input (env : Env) (mid cid : string) (r : OrchestrationResult)
  (st : Store) (ar : AgentResults) (os : OrchestratorSynthesis) (qm : QualityMetrics)
  (om : OrchestrationMetadata) :
  r_agentResults r = Some ar ->
  r_orchestratorSynthesis r = Some os ->
  r_qualityMetrics r = Some qm ->
  r_orchestrationMetadata r = Some om ->
  exists e,
    createMemoryEntry env mid r = Some e /\
    storeMemory env mid cid r st =
      (insertEntry env mid cid e st,
       {| res_memoryId := Some mid; res_stored := true;
          res_relationships :=
            match sget mid (relationshipGraph (insertEntry env mid cid e st)) with
            | Some rels => length rels
            | None => 0
            end;
          res_clusters := length (getMemoryClusters mid (insertEntry env mid cid e st));
          res_error := None |}) /\
    unified e = None /\
    (text_analysis r = None ->
       textSummary e = ""%string /\ contentType e = "general"%string /\
       pageType e = "page"%string) /\
    (ar_text ar = None -> textConfidence e = 0) /\
    (vision_analysis r = None -> visionSynthesis e = ""%string) /\
    (ar_vision ar = None -> visionConfidence e = 0) /\
    (text_analysis r = None -> vision_analysis r = None ->
       topics e = [] /\ categories e = []) /\
    (sget mid (memoryStore st) = None ->
     (Z.of_nat (length (memoryStore st)) < maxMemories st)%Z ->
     sget mid (memoryStore (fst (storeMemory env mid cid r st))) = Some e).
Proof.
  intros Ha Ho Hq Hm.
  destruct (createMemoryEntry env mid r) as [e|] eqn:Hc;
    [|unfold createMemoryEntry in Hc; rewrite Ha, Ho, Hq, Hm in Hc; discriminate].
  exists e.
  assert (Hs : fst (storeMemory env mid cid r st) = insertEntry env mid cid e st)
    by (unfold storeMemory; rewrite Hc; reflexivity).
  assert (Hin : sget mid (memoryStore st) = None ->
                (Z.of_nat (length (memoryStore st)) < maxMemories st)%Z ->
                sget mid (memoryStore (fst (storeMemory env mid cid r st))) = Some e).
  { intros Hfresh Hroom. rewrite Hs.
    unfold insertEntry, maintainMemoryLimits. cbv zeta.
    rewrite maxMemories_before_limits, memoryStore_before_limits, length_sset_new
      by exact Hfresh.
    destruct (Z.leb_spec (Z.of_nat (S (length (memoryStore st)))) (maxMemories st)) as [_|C];
      [|lia].
    rewrite memoryStore_before_limits. apply mget_mset_same. }
  split; [reflexivity|].
  split; [unfold storeMemory; rewrite Hc; reflexivity|].
  unfold createMemoryEntry in Hc. rewrite Ha, Ho, Hq, Hm in Hc.
  injection Hc as He. subst e.
  split; [reflexivity|].
  split.
  { intros Ht. cbn [textSummary contentType pageType].
    unfold extractContentType, extractPageType, text_summary, text_metadata.
    rewrite Ht. repeat split; reflexivity. }
  split; [intros Ht; cbn [textConfidence]; rewrite Ht; reflexivity|].
  split; [intros Hv; cbn [visionSynthesis]; unfold vision_synthesis; rewrite Hv; reflexivity|].
  split; [intros Hv; cbn [visionConfidence]; rewrite Hv; reflexivity|].
  split; [|exact Hin].
  intros Ht Hv. cbn [topics categories]. split.
  - unfold extractTopics, text_summary, vision_synthesis. rewrite Ht, Hv. reflexivity.
  - unfold extractCategories, text_metadata, visual_features. rewrite Ht, Hv. reflexivity.
Qed.

Lemma storeMemory_partial_input_witness :
  exists e,
    createMemoryEntry utcEnv "A" (visionOnlyResult 1000 "https://ex.com/a" "one") = Some e /\
    storeMemory utcEnv "A" "cA" (visionOnlyResult 1000 "https://ex.com/a" "one") (emptyStore 1) =
      (insertEntry utcEnv "A" "cA" e (emptyStore 1),
       {| res_memoryId := Some "A"%string; res_stored := true;
          res_relationships :=
            match sget "A" (relationshipGraph (insertEntry utcEnv "A" "cA" e (emptyStore 1))) with
            | Some rels => length rels
            | None => 0
            end;
          res_clusters := length (getMemoryClusters "A" (insertEntry utcEnv "A" "cA" e (emptyStore 1)));
          res_error := None |}) /\
    unified e = None /\
    (text_analysis (visionOnlyResult 1000 "https://ex.com/a" "one") = None ->
       textSummary e = ""%string /\ contentType e = "general"%string /\
       pageType e = "page"%string) /\
    (ar_text {| ar_text := None;
       ar_vision := Some {| vr_visionAnalysis := Some {| va_synthesis := Some "one"%string;
                                                        va_visualFeatures := None |};
                            vr_confidence := None; vr_agentId := None |} |} = None ->
       textConfidence e = 0) /\
    (vision_analysis (visionOnlyResult 1000 "https://ex.com/a" "one") = None ->
       visionSynthesis e = ""%string) /\
    (ar_vision {| ar_text := None;
       ar_vision := Some {| vr_visionAnalysis := Some {| va_synthesis := Some "one"%string;
                                                        va_visualFeatures := None |};
                            vr_confidence := None; vr_agentId := None |} |} = None ->
       visionConfidence e = 0) /\
    (text_analysis (visionOnlyResult 1000 "https://ex.com/a" "one") = None ->
     vision_analysis (visionOnlyResult 1000 "https://ex.com/a" "one") = None ->
       topics e = [] /\ categories e = []) /\
    (sget "A" (memoryStore (emptyStore 1)) = None ->
     (Z.of_nat (length (memoryStore (emptyStore 1))) < maxMemories (emptyStore 1))%Z ->
     sget "A" (memoryStore (fst (storeMemory utcEnv "A" "cA"
                                   (visionOnlyResult 1000 "https://ex.com/a" "one")
                                   (emptyStore 1)))) = Some e).
Proof.
  apply (storeMemory_partial_input utcEnv "A" "cA" (visionOnlyResult 1000 "https://ex.com/a" "one")
           (emptyStore 1)
           {| ar_text := None;
              ar_vision := Some {| vr_visionAnalysis := Some {| va_synthesis := Some "one"%string;
                                                               va_visualFeatures := None |};
                                   vr_confidence := None; vr_agentId := None |} |}
           {| os_unifiedAnalysis := Some "one"%string; os_confidence := None; os_embeddings := None |}
           {| qm_overallScore := None |}
           {| om_processingTime := None; om_synthesisApproach := Some "vision-only"%string |});
  reflexivity.
Defined.

(** ** The stable sort on an integer key *)

Section StableSortFacts.
Context {A : Type} (f : A -> Z).

Let before (x y : A) : bool := (f x <? f y)%Z.
Let le_key (x y : A) : Prop := (f x <= f y)%Z.
Let key_is (c : Z) (x : A) : bool := (f x =? c)%Z.

Lemma insert_sorted_perm (x : A) (l : list A) :
  Permutation (insert_sorted before x l) (x :: l).
Proof.
  induction l as [|y l IH]; simpl; [reflexivity|].
  destruct (before x y); [reflexivity|].
  rewrite IH. apply perm_swap.
Qed.

Lemma sort_by_aux_perm (acc l : list A) :
  Permutation (sort_by_aux before acc l) (acc ++ l).
Proof.
  revert acc. induction l as [|x l IH]; intros acc; simpl.
  - rewrite app_nil_r. reflexivity.
  - rewrite IH, insert_sorted_perm. simpl. apply Permutation_middle.
Qed.

Lemma insert_sorted_sorted (x : A) (l : list A) :
  StronglySorted le_key l -> StronglySorted le_key (insert_sorted before x l).
Proof.
  induction l as [|y l IH]; intros Hs; simpl.
  - repeat constructor.
  - inversion Hs as [|? ? Hl Hf]; subst.
    unfold before. destruct (Z.ltb_spec (f x) (f y)) as [Hlt|Hge].
    + constructor; [exact Hs|]. constructor; [unfold le_key; lia|].
      rewrite Forall_forall in Hf |- *. intros z Hz. specialize (Hf z Hz).
      unfold le_key in *. lia.
    + constructor; [apply IH; exact Hl|].
      rewrite Forall_forall in Hf |- *. intros z Hz.
      apply (Permutation_in _ (insert_sorted_perm x l)) in Hz.
      destruct Hz as [<-|Hz]; [unfold le_key; lia|]. apply Hf; exact Hz.
Qed.

Lemma sort_by_aux_sorted (acc l : list A) :
  StronglySorted le_key acc -> StronglySorted le_key (sort_by_aux before acc l).
Proof.
  revert acc. induction l as [|x l IH]; intros acc Hs; simpl; [exact Hs|].
  apply IH. apply insert_sorted_sorted. exact Hs.
Qed.

Lemma filter_none_above (x : A) (l : list A) :
  Forall (fun z => (f x < f z)%Z) l -> filter (key_is (f x)) l = [].
Proof.
  induction l as [|z l IH]; intros Hf; simpl; [reflexivity|].
  inversion Hf; subst. unfold key_is at 1.
  destruct (Z.eqb_spec (f z) (f x)); [lia|]. apply IH; assumption.
Qed.

Lemma insert_sorted_filter (c : Z) (x : A) (l : list A) :
  StronglySorted le_key l ->
  filter (key_is c) (insert_sorted before x l) =
  filter (key_is c) l ++ (if key_is c x then [x] else []).
Proof.
  induction l as [|y l IH]; intros Hs.
  - reflexivity.
  - inversion Hs as [|? ? Hl Hf]; subst.
    cbn [insert_sorted].
    replace (before x y) with (f x <? f y)%Z by reflexivity. destruct (Z.ltb_spec (f x) (f y)) as [Hlt|Hge].
    + assert (Hab : Forall (fun z => (f x < f z)%Z) (y :: l)).
      { constructor; [exact Hlt|]. rewrite Forall_forall in Hf |- *. intros z Hz.
        specialize (Hf z Hz). unfold le_key in Hf. lia. }
      destruct (Z.eqb_spec (f x) c) as [<-|Hne].
      * assert (Hkx : key_is (f x) x = true) by (unfold key_is; apply Z.eqb_refl).
        transitivity (x :: filter (key_is (f x)) (y :: l)).
        { cbn [filter]. rewrite Hkx. reflexivity. }
        rewrite (filter_none_above x (y :: l) Hab), Hkx. reflexivity.
      * assert (Hkx : key_is c x = false) by (unfold key_is; apply Z.eqb_neq; exact Hne).
        cbn [filter]. rewrite Hkx, app_nil_r. reflexivity.
    + cbn [filter]. rewrite IH by exact Hl. destruct (key_is c y); reflexivity.
Qed.

Lemma sort_by_aux_filter (c : Z) (acc l : list A) :
  StronglySorted le_key acc ->
  filter (key_is c) (sort_by_aux before acc l) = filter (key_is c) acc ++ filter (key_is c) l.
Proof.
  revert acc. induction l as [|x l IH]; intros acc Hs; simpl.
  - rewrite app_nil_r. reflexivity.
  - rewrite IH by (apply insert_sorted_sorted; exact Hs).
    rewrite insert_sorted_filter by exact Hs.
    destruct (key_is c x); simpl; rewrite <- app_assoc; reflexivity.
Qed.

Lemma StronglySorted_app_rel {B} (Rl : B -> B -> Prop) (l1 l2 : list B) (p q : B) :
  StronglySorted Rl (l1 ++ l2) -> In p l1 -> In q l2 -> Rl p q.
Proof.
  induction l1 as [|y l1 IH]; intros Hs Hp Hq; [destruct Hp|].
  simpl in Hs. inversion Hs as [|? ? Hl Hf]; subst.
  destruct Hp as [<-|Hp].
  - rewrite Forall_forall in Hf. apply Hf. apply in_or_app. right; exact Hq.
  - apply IH; assumption.
Qed.

Lemma filter_split {B} (g : B -> bool) (l X Y : list B) :
  filter g l = X ++ Y ->
  exists l1 l2, l = l1 ++ l2 /\ filter g l1 = X /\ filter g l2 = Y.
Proof.
  revert X. induction l as [|a l IH]; intros X H; simpl in H.
  - destruct X; [|discriminate]. exists [], []. split; [reflexivity|]. split; [reflexivity|].
    exact H.
  - destruct (g a) eqn:Hg.
    + destruct X as [|x X].
      * exists [], (a :: l). split; [reflexivity|]. split; [reflexivity|].
        simpl. rewrite Hg. exact H.
      * simpl in H. injection H as -> H. destruct (IH X H) as (l1 & l2 & -> & H1 & H2).
        exists (x :: l1), l2. split; [reflexivity|]. split; [simpl; rewrite Hg, H1; reflexivity|].
        exact H2.
    + destruct (IH X H) as (l1 & l2 & -> & H1 & H2).
      exists (a :: l1), l2. split; [reflexivity|]. split; [simpl; rewrite Hg; exact H1|].
      exact H2.
Qed.

(** An element placed before another by the sort has a smaller key, or
    the same key and an earlier position in the input. *)
Lemma sort_by_stable (l L1 L2 : list A) (p q : A) :
  sort_by before l = L1 ++ L2 -> In p L1 -> In q L2 ->
  (f p < f q)%Z \/
  (f p = f q /\ exists l1 l2, l = l1 ++ l2 /\ In p l1 /\ In q l2).
Proof.
  intros Hs Hp Hq.
  assert (Hss : StronglySorted le_key (L1 ++ L2)).
  { rewrite <- Hs. apply sort_by_aux_sorted. constructor. }
  pose proof (StronglySorted_app_rel le_key L1 L2 p q Hss Hp Hq) as Hle.
  unfold le_key in Hle. destruct (Z.lt_ge_cases (f p) (f q)) as [Hlt|Hge]; [left; exact Hlt|].
  right. split; [lia|].
  pose proof (sort_by_aux_filter (f p) [] l (SSorted_nil _)) as Hf.
  fold (sort_by before l) in Hf. rewrite Hs, filter_app in Hf. simpl in Hf.
  destruct (filter_split (key_is (f p)) l _ _ (eq_sym Hf)) as (l1 & l2 & Hl & H1 & H2).
  exists l1, l2. split; [exact Hl|]. split.
  - assert (Hin : In p (filter (key_is (f p)) L1))
      by (apply filter_In; split; [exact Hp|unfold key_is; apply Z.eqb_refl]).
    rewrite <- H1 in Hin. apply filter_In in Hin. apply Hin.
  - assert (Hin : In q (filter (key_is (f p)) L2))
      by (apply filter_In; split; [exact Hq|unfold key_is; apply Z.eqb_eq; lia]).
    rewrite <- H2 in Hin. apply filter_In in Hin. apply Hin.
Qed.

Lemma sort_by_perm (l : list A) : Permutation (sort_by before l) l.
Proof. unfold sort_by. rewrite sort_by_aux_perm. reflexivity. Qed.
End StableSortFacts.

(** ** Eviction *)

Lemma NoDup_app_disjoint {B} (l1 l2 : list B) (a : B) :
  NoDup (l1 ++ l2) -> In a l1 -> In a l2 -> False.
Proof.
  induction l1 as [|x l1 IH]; intros Hn H1 H2; [destruct H1|].
  simpl in Hn. inversion Hn as [|? ? Hx Hn']; subst.
  destruct H1 as [->|H1].
  - apply Hx. apply in_or_app. right; exact H2.
  - exact (IH Hn' H1 H2).
Qed.

Lemma key_unique {B} (l : list (string * B)) (a b : string * B) :
  NoDup (map fst l) -> In a l -> In b l -> fst a = fst b -> a = b.
Proof.
  induction l as [|x l IH]; intros Hn Ha Hb Hk; [destruct Ha|].
  simpl in Hn. inversion Hn as [|? ? Hx Hn']; subst.
  destruct Ha as [<-|Ha], Hb as [<-|Hb]; [reflexivity| | |exact (IH Hn' Ha Hb Hk)].
  - exfalso. apply Hx. rewrite Hk. apply in_map. exact Hb.
  - exfalso. apply Hx. rewrite <- Hk. apply in_map. exact Ha.
Qed.

Lemma filter_filter_and {B} (f g : B -> bool) (l : list B) :
  filter f (filter g l) = filter (fun x => g x && f x) l.
Proof.
  induction l as [|x l IH]; simpl; [reflexivity|].
  destruct (g x); simpl; [destruct (f x); rewrite IH; reflexivity|exact IH].
Qed.

Lemma memoryStore_fold_remove_eq (vs : list (string * MemoryEntry)) (st : Store) :
  memoryStore (fold_left (fun st p => removeMemory (fst p) st) vs st) =
  filter (fun q => negb (existsb (fun v => if string_dec (fst v) (fst q) then true else false) vs))
         (memoryStore st).
Proof.
  revert st. induction vs as [|v vs IH]; intros st; simpl.
  - symmetry. apply forallb_filter_id. apply forallb_forall. reflexivity.
  - rewrite IH. cbn [memoryStore removeMemory]. unfold mdelete. rewrite filter_filter_and.
    apply filter_ext. intros q.
    destruct (string_dec (fst v) (fst q)); reflexivity.
Qed.

Lemma memoryStore_fold_remove (vs : list (string * MemoryEntry)) (st : Store) q :
  In q (memoryStore (fold_left (fun st p => removeMemory (fst p) st) vs st)) <->
  In q (memoryStore st) /\ ~ In (fst q) (map fst vs).
Proof.
  revert st. induction vs as [|v vs IH]; intros st; simpl.
  - tauto.
  - rewrite IH. cbn [memoryStore removeMemory]. unfold mdelete. rewrite filter_In.
    destruct (string_dec (fst v) (fst q)) as [Heq|Hne]; split; intros H.
    + destruct H as [[_ C] _]; discriminate.
    + exfalso. destruct H as [_ H]. apply H. left; exact Heq.
    + destruct H as [[Hq _] Hn]. split; [exact Hq|]. intros [C|C]; [congruence|tauto].
    + destruct H as [Hq Hn]. split; [split; [exact Hq|reflexivity]|]. intros C; apply Hn; right; exact C.
Qed.

Lemma older_sort (ms : list (string * MemoryEntry)) :
  sort_by older ms = sort_by (fun x y => (timestamp (snd x) <? timestamp (snd y))%Z) ms.
Proof. reflexivity. Qed.

(** C3 (amended): when the table holds more than [maxMemories >= 0]
    records with distinct ids, [maintainMemoryLimits] removes the first
    [size - maxMemories] records of the table sorted by timestamp (ties in
    insertion order), and nothing else: the table ends with exactly
    [maxMemories] records, every removed record is older than every kept
    one or as old and inserted earlier.  No exception is made for the
    record just inserted. *)
Theorem maintainMemoryLimits_evicts_oldest (st : Store) :
  NoDup (map fst (memoryStore st)) ->
  (0 <= maxMemories st)%Z ->
  (maxMemories st < Z.of_nat (length (memoryStore st)))%Z ->
  length (memoryStore (maintainMemoryLimits st)) = Z.to_nat (maxMemories st) /\
  length (evictionVictims st) = (length (memoryStore st) - Z.to_nat (maxMemories st))%nat /\
  incl (evictionVictims st) (memoryStore st) /\
  (forall q, In q (memoryStore (maintainMemoryLimits st)) <->
             In q (memoryStore st) /\ ~ In q (evictionVictims st)) /\
  (forall p q, In p (evictionVictims st) -> In q (memoryStore (maintainMemoryLimits st)) ->
     (timestamp (snd p) < timestamp (snd q))%Z \/
     (timestamp (snd p) = timestamp (snd q) /\
      exists l1 l2, memoryStore st = l1 ++ l2 /\ In p l1 /\ In q l2)).
Proof.
  intros Hnd H0 Hlt.
  set (ms := memoryStore st) in *.
  set (S := sort_by older ms).
  set (k := Z.to_nat (Z.of_nat (length ms) - maxMemories st)).
  assert (HV : evictionVictims st = firstn k S).
  { unfold evictionVictims, js_slice0. fold ms. fold S.
    destruct (Z.ltb_spec (Z.of_nat (length ms) - maxMemories st) 0); [lia|reflexivity]. }
  assert (HM : maintainMemoryLimits st =
               fold_left (fun st p => removeMemory (fst p) st) (evictionVictims st) st).
  { unfold maintainMemoryLimits. fold ms.
    destruct (Z.leb_spec (Z.of_nat (length ms)) (maxMemories st)); [lia|reflexivity]. }
  assert (Hperm : Permutation S ms)
    by (unfold S; rewrite older_sort; apply sort_by_perm).
  assert (HlenS : length S = length ms) by (apply Permutation_length; exact Hperm).
  assert (HndS : NoDup (map fst S))
    by (apply (Permutation_NoDup (Permutation_map fst (Permutation_sym Hperm))); exact Hnd).
  assert (Hsplit : S = firstn k S ++ skipn k S) by (symmetry; apply firstn_skipn).
  assert (Hkeys : forall q, In q ms ->
            (In (fst q) (map fst (firstn k S)) <-> In q (firstn k S))).
  { intros q Hq. split.
    - intros Hin. apply in_map_iff in Hin as [v [Hv Hvin]].
      assert (v = q) as <-; [|exact Hvin].
      apply (key_unique ms); [exact Hnd| |exact Hq|exact Hv].
      apply (Permutation_in _ Hperm). apply (In_firstn k). exact Hvin.
    - intros Hin. apply in_map. exact Hin. }
  assert (Hkept : forall q, In q (memoryStore (maintainMemoryLimits st)) <->
                            In q ms /\ ~ In q (firstn k S)).
  { intros q. rewrite HM, memoryStore_fold_remove, HV. fold ms.
    split; intros [Hq Hn]; split; try exact Hq; intros C; apply Hn; apply (Hkeys q Hq); exact C. }
  assert (Hrest : forall q, In q (memoryStore (maintainMemoryLimits st)) <-> In q (skipn k S)).
  { intros q. rewrite Hkept. split.
    - intros [Hq Hn]. apply (Permutation_in _ (Permutation_sym Hperm)) in Hq.
      rewrite Hsplit in Hq. apply in_app_or in Hq as [C|Hq]; [contradiction|exact Hq].
    - intros Hq. split.
      + apply (Permutation_in _ Hperm). apply (In_skipn k). exact Hq.
      + intros C. apply (NoDup_app_disjoint (map fst (firstn k S)) (map fst (skipn k S)) (fst q)).
        * rewrite <- map_app, <- Hsplit. exact HndS.
        * apply in_map. exact C.
        * apply in_map. exact Hq. }
  assert (Hnd1 : NoDup (memoryStore (maintainMemoryLimits st))).
  { rewrite HM, memoryStore_fold_remove_eq. apply NoDup_filter.
    apply (NoDup_map_inv fst). exact Hnd. }
  assert (Hnd2 : NoDup (skipn k S)).
  { rewrite Hsplit in HndS. rewrite map_app in HndS.
    apply NoDup_app_remove_l in HndS. apply (NoDup_map_inv fst). exact HndS. }
  assert (Hlen : length (memoryStore (maintainMemoryLimits st)) = length (skipn k S)).
  { apply Permutation_length. apply NoDup_Permutation; [exact Hnd1|exact Hnd2|exact Hrest]. }
  assert (Hk : (k <= length ms)%nat) by (unfold k; lia).
  split; [|split; [|split; [|split]]].
  - rewrite Hlen, length_skipn, HlenS. unfold k. lia.
  - rewrite HV, length_firstn, HlenS. unfold k. lia.
  - rewrite HV. intros v Hv. apply (Permutation_in _ Hperm). apply (In_firstn k). exact Hv.
  - intros q. rewrite Hkept, HV. reflexivity.
  - intros p q Hp Hq. rewrite HV in Hp. apply Hrest in Hq.
    exact (sort_by_stable (fun x => timestamp (snd x)) ms (firstn k S) (skipn k S) p q
             (eq_trans (older_sort ms) (eq_sym (eq_trans (eq_sym Hsplit) eq_refl))) Hp Hq).
Qed.

Lemma maintainMemoryLimits_evicts_oldest_witness :
  length (memoryStore (maintainMemoryLimits evictionSample)) = 1%nat /\
  length (evictionVictims evictionSample) = 2%nat.
Proof.
  destruct (maintainMemoryLimits_evicts_oldest evictionSample) as (H1 & H2 & _).
  - vm_compute. repeat constructor; simpl; intuition discriminate.
  - vm_compute. discriminate.
  - vm_compute. reflexivity.
  - split; [exact H1|exact H2].
Defined.

(** C3 (counterexample): with [maxMemories = 1], storing a record stamped
    [10] and then one stamped [5] evicts the record just inserted, although
    [storeMemory] reports it stored. *)
Lemma maintainMemoryLimits_evicts_new_record :
  let s1 := storeMemory utcEnv "A" "cA" (visionOnlyResult 10 "https://ex.com/a" "one")
              (emptyStore 1) in
  let s2 := storeMemory utcEnv "B" "cB" (visionOnlyResult 5 "https://ex.com/b" "two") (fst s1) in
  res_stored (snd s2) = true /\
  sget "B" (memoryStore (fst s2)) = None /\
  (exists e, sget "A" (memoryStore (fst s2)) = Some e).
Proof.
  vm_compute. split; [reflexivity|]. split; [reflexivity|]. eexists; reflexivity.
Qed.








Lemma removeMemory_graph_none k v st :
  sget k (relationshipGraph st) = None \/ k = v ->
  sget k (relationshipGraph (removeMemory v st)) = None.
Proof.
  intros H. cbn [removeMemory relationshipGraph]. unfold sget. rewrite mget_mmap.
  destruct (string_dec k v) as [->|Hne].
  - rewrite mget_mdelete_same. reflexivity.
  - rewrite mget_mdelete_other by exact Hne. destruct H as [H|H]; [|congruence].
    unfold sget in H. rewrite H. reflexivity.
Qed.





Lemma In_mreplace {K V} (Keq : forall x y : K, {x = y} + {x <> y}) k v (m : list (K * V)) p :
  In p (mreplace Keq k v m) -> In p m \/ p = (k, v).
Proof.
  induction m as [|[k0 v0] m IH]; simpl; [tauto|].
  destruct (Keq k k0) as [<-|Hne]; simpl.
  - intros [<-|H]; [right; reflexivity|left; right; exact H].
  - intros [<-|H]; [left; left; reflexivity|]. destruct (IH H); [left; right|right]; assumption.
Qed.

Lemma In_add_to_set_map {K} (Keq : forall x y : K, {x = y} + {x <> y}) key x m k s :
  In (k, s) (add_to_set_map Keq key x m) -> In (k, s) m \/ k = key.
Proof.
  unfold add_to_set_map, mupdate. intros H.
  assert (H1 : forall p, In p (if mhas Keq key m then m else mset Keq key [] m) ->
                         In p m \/ fst p = key).
  { intros p Hp. destruct (mhas Keq key m); [left; exact Hp|].
    unfold mset in Hp. destruct (mhas Keq key m).
    - apply In_mreplace in Hp as [Hp| ->]; [left; exact Hp|right; reflexivity].
    - apply in_app_or in Hp. destruct Hp as [Hp|Hp]; [left; exact Hp|right].
      destruct Hp as [Hp|Hp]; [rewrite <- Hp; reflexivity|destruct Hp]. }
  destruct (mget Keq key _).
  - apply In_mreplace in H as [H|H].
    + apply H1 in H as [H|H]; [left; exact H|right; exact H].
    + injection H as -> _. right; reflexivity.
  - apply H1 in H as [H|H]; [left; exact H|right; exact H].
Qed.

Lemma updateClusterCentroid_only_clusters cid st :
  updateClusterCentroid cid st =
  set_conceptClusters st (conceptClusters (updateClusterCentroid cid st)).
Proof.
  unfold updateClusterCentroid.
  destruct (sget cid (conceptClusters st)) as [c|]; [|destruct st; reflexivity].
  destruct (members c); [destruct st; reflexivity|].
  destruct (member_embeddings _ st); [destruct st|]; reflexivity.
Qed.

Lemma updateConceptClusters_only_clusters mid e cid st :
  updateConceptClusters mid e cid st =
  set_conceptClusters st (conceptClusters (updateConceptClusters mid e cid st)).
Proof.
  unfold updateConceptClusters. destruct (unified e); [|destruct st; reflexivity].
  rewrite updateClusterCentroid_only_clusters. cbn [conceptClusters set_conceptClusters].
  destruct (mhas _ _ _); reflexivity.
Qed.

Lemma updateSemanticCategories_only_categories mid e st :
  updateSemanticCategories mid e st =
  set_semanticCategories st (semanticCategories (updateSemanticCategories mid e st)).
Proof.
  unfold updateSemanticCategories. generalize st.
  induction (categories e) as [|c cs IH]; intros s; simpl; [destruct s; reflexivity|].
  rewrite IH. reflexivity.
Qed.

Lemma updateSemanticCategories_present mid cs st c :
  In c cs \/ (exists l, sget c (semanticCategories st) = Some l /\ In mid l) ->
  exists l, sget c (semanticCategories
                      (fold_left (fun st c =>
                                    set_semanticCategories st
                                      (add_to_set_map string_dec c mid (semanticCategories st)))
                                 cs st)) = Some l /\ In mid l.
Proof.
  revert st. induction cs as [|c' cs IH]; intros st H; simpl.
  - destruct H as [[]|H]; exact H.
  - apply IH. destruct H as [[<-|H]|(l & Hl & Hin)].
    + right. apply add_to_set_map_same.
    + left; exact H.
    + right. exact (add_to_set_map_keep string_dec c' mid _ c l mid Hl Hin).
Qed.

Lemma buckets_updateTemporalIndices env mid e st g :
  buckets g (updateTemporalIndices env mid e st) =
  add_to_set_map bkey_dec (gkey env g (timestamp e)) mid (buckets g st).
Proof. destruct g; reflexivity. Qed.

Lemma buckets_indexEmbeddings mid e st g :
  buckets g (indexEmbeddings mid e st) = buckets g st.
Proof. unfold indexEmbeddings. destruct (unified e); destruct g; reflexivity. Qed.

Lemma buckets_removeMemory v st g :
  buckets g (removeMemory v st) = mmap (sdelete string_dec v) (buckets g st).
Proof. destruct g; reflexivity. Qed.

Lemma fanned_out_indexEntry env mid e st :
  (forall g k s, In (k, s) (buckets g st) -> ~ In mid s) ->
  fanned_out env mid e (indexEntry env mid e st).
Proof.
  intros Hfresh. unfold indexEntry. cbv zeta.
  rewrite (updateSemanticCategories_only_categories mid e).
  unfold fanned_out, updateDomainClusters. cbn [embeddingIndex domainClusters semanticCategories
    set_domainClusters set_semanticCategories].
  split; [|split; [|split; [|split]]].
  - intros u Hu. unfold indexEmbeddings. rewrite Hu. cbn.
    eexists. split; [apply mget_mset_same|reflexivity].
  - intros g.
    replace (buckets g _) with (buckets g (updateTemporalIndices env mid e
               (indexEmbeddings mid e (set_memoryStore st (sset mid e (memoryStore st))))))
      by (destruct g; reflexivity).
    rewrite buckets_updateTemporalIndices. apply add_to_set_map_same.
  - intros g k s.
    replace (buckets g _) with (buckets g (updateTemporalIndices env mid e
               (indexEmbeddings mid e (set_memoryStore st (sset mid e (memoryStore st))))))
      by (destruct g; reflexivity).
    rewrite buckets_updateTemporalIndices, buckets_indexEmbeddings. intros Hk Hs.
    apply In_add_to_set_map in Hk as [Hk|Hk]; [|exact Hk].
    exfalso. apply (Hfresh g k s); [destruct g; exact Hk|exact Hs].
  - apply add_to_set_map_same.
  - intros c Hc. unfold updateSemanticCategories.
    apply updateSemanticCategories_present. left; exact Hc.
Qed.

Lemma fanned_out_removeMemory env mid e st v :
  v <> mid -> fanned_out env mid e st -> fanned_out env mid e (removeMemory v st).
Proof.
  intros Hv (He & Hb & Hu & Hd & Hc).
  assert (Hdel : forall s, In mid s -> In mid (sdelete string_dec v s))
    by (intros s Hs; apply In_sdelete; split; [exact Hs|congruence]).
  split; [|split; [|split; [|split]]].
  - intros u Hu'. destruct (He u Hu') as (ee & H1 & H2). exists ee. split; [|exact H2].
    cbn [embeddingIndex removeMemory]. unfold sget in *.
    rewrite mget_mdelete_other by congruence. exact H1.
  - intros g. destruct (Hb g) as (s & H1 & H2). exists (sdelete string_dec v s).
    rewrite buckets_removeMemory, mget_mmap, H1. split; [reflexivity|apply Hdel; exact H2].
  - intros g k s. rewrite buckets_removeMemory. unfold mmap. intros Hk Hs.
    apply in_map_iff in Hk as ([k0 s0] & Heq & Hin). cbn in Heq. injection Heq as <- <-.
    apply (Hu g k0 s0 Hin). apply In_sdelete in Hs. apply Hs.
  - destruct Hd as (s & H1 & H2). exists (sdelete string_dec v s).
    cbn [domainClusters removeMemory]. unfold sget in *. rewrite mget_mmap, H1.
    split; [reflexivity|apply Hdel; exact H2].
  - intros c Hin. destruct (Hc c Hin) as (s & H1 & H2). exists (sdelete string_dec v s).
    cbn [semanticCategories removeMemory]. unfold sget in *. rewrite mget_mmap, H1.
    split; [reflexivity|apply Hdel; exact H2].
Qed.

Lemma fanned_out_fold_remove env mid e (vs : list (string * MemoryEntry)) st :
  ~ In mid (map fst vs) -> fanned_out env mid e st ->
  fanned_out env mid e (fold_left (fun st p => removeMemory (fst p) st) vs st).
Proof.
  revert st. induction vs as [|v vs IH]; intros st Hn H; simpl; [exact H|].
  apply IH; [intros C; apply Hn; right; exact C|].
  apply fanned_out_removeMemory; [intros C; apply Hn; left; exact C|exact H].
Qed.

Lemma createMemoryEntry_unified env mid r e :
  createMemoryEntry env mid r = Some e -> unified e = None.
Proof.
  intros Hc. unfold createMemoryEntry in Hc.
  destruct (r_agentResults r), (r_orchestratorSynthesis r), (r_qualityMetrics r),
    (r_orchestrationMetadata r); try discriminate.
  injection Hc as <-. reflexivity.
Qed.

Lemma indexEntry_no_embedding env mid e st :
  unified e = None ->
  embeddingIndex (indexEntry env mid e st) = embeddingIndex st /\
  conceptClusters (indexEntry env mid e st) = conceptClusters st.
Proof.
  intros Hu. unfold indexEntry. cbv zeta.
  rewrite updateSemanticCategories_only_categories. unfold indexEmbeddings. rewrite Hu.
  split; reflexivity.
Qed.

Lemma embeddingIndex_fold_remove_none (vs : list (string * MemoryEntry)) st k :
  sget k (embeddingIndex st) = None ->
  sget k (embeddingIndex (fold_left (fun st p => removeMemory (fst p) st) vs st)) = None.
Proof.
  revert st. induction vs as [|v vs IH]; intros st H; simpl; [exact H|].
  apply IH. cbn [removeMemory embeddingIndex]. unfold sget in *.
  destruct (string_dec k (fst v)) as [->|Hne].
  - apply mget_mdelete_same.
  - rewrite mget_mdelete_other by exact Hne. exact H.
Qed.

Lemma insertEntry_embeddingIndex_none env mid cid e st :
  unified e = None -> sget mid (embeddingIndex st) = None ->
  sget mid (embeddingIndex (insertEntry env mid cid e st)) = None.
Proof.
  intros Hu H. unfold insertEntry. cbv zeta.
  set (st7 := updateConceptClusters mid e cid
                (discoverRelationships env mid e (indexEntry env mid e st))).
  assert (E : embeddingIndex st7 = embeddingIndex st).
  { unfold st7, updateConceptClusters. rewrite Hu.
    destruct (indexEntry_no_embedding env mid e st Hu) as [E1 _].
    unfold discoverRelationships. cbn. exact E1. }
  unfold maintainMemoryLimits. destruct (_ <=? _)%Z.
  - rewrite E. exact H.
  - apply embeddingIndex_fold_remove_none. rewrite E. exact H.
Qed.

Lemma insertEntry_fanned_out (env : Env) (mid cid : string) (e : MemoryEntry) (st : Store) :
  (forall g k s, In (k, s) (buckets g st) -> ~ In mid s) ->
  In mid (map fst (memoryStore (insertEntry env mid cid e st))) ->
  fanned_out env mid e (insertEntry env mid cid e st).
Proof.
  intros Hfresh Hin.
  pose proof (fanned_out_indexEntry env mid e st Hfresh) as H5.
  unfold insertEntry in *. cbv zeta in *.
  set (s6 := discoverRelationships env mid e (indexEntry env mid e st)) in *.
  assert (H6 : fanned_out env mid e s6) by exact H5.
  set (s7 := updateConceptClusters mid e cid s6) in *.
  assert (H7 : fanned_out env mid e s7)
    by (unfold s7; rewrite updateConceptClusters_only_clusters; exact H6).
  unfold maintainMemoryLimits in *.
  destruct (Z.of_nat (length (memoryStore s7)) <=? maxMemories s7)%Z; [exact H7|].
  apply fanned_out_fold_remove; [|exact H7].
  intros C. apply in_map_iff in Hin as [q [Hq Hqin]].
  apply memoryStore_fold_remove in Hqin as [_ Hn]. rewrite Hq in Hn. exact (Hn C).
Qed.

(** C1 (amended): [createMemoryEntry] always builds [unified = null] and
    drops the embedding the orchestration result carries, so a record
    stored through [storeMemory] never enters the embedding index.  For a
    stored record whose fresh id is in no temporal bucket and not in the
    embedding index beforehand, and which is still in the table after the
    call: its [unified] is [null], its id is not in the embedding index, it
    is in the bucket of each granularity keyed by its own timestamp and in
    no other bucket, in the domain index under its domain, and in the
    category index under each of its categories. *)
Theorem storeMemory_fan_out (env : Env) (mid cid : string) (r : OrchestrationResult)
  (e : MemoryEntry) (st : Store) :
  createMemoryEntry env mid r = Some e ->
  (forall g k s, In (k, s) (buckets g st) -> ~ In mid s) ->
  sget mid (embeddingIndex st) = None ->
  In mid (map fst (memoryStore (fst (storeMemory env mid cid r st)))) ->
  unified e = None /\
  sget mid (embeddingIndex (fst (storeMemory env mid cid r st))) = None /\
  fanned_out env mid e (fst (storeMemory env mid cid r st)).
Proof.
  intros Hc Hfresh Hemb Hin.
  pose proof (createMemoryEntry_unified env mid r e Hc) as Hu.
  unfold storeMemory in *. rewrite Hc in *. cbn [fst] in *.
  split; [exact Hu|]. split.
  - apply insertEntry_embeddingIndex_none; assumption.
  - apply insertEntry_fanned_out; assumption.
Qed.

Lemma storeMemory_fan_out_witness :
  let r := embeddedResult 1000 "https://example.com/" "summary" [1] in
  exists e, createMemoryEntry utcEnv "m1" r = Some e /\
    unified e = None /\
    sget "m1" (embeddingIndex (fst (storeMemory utcEnv "m1" "c1" r (emptyStore 10)))) = None /\
    fanned_out utcEnv "m1" e (fst (storeMemory utcEnv "m1" "c1" r (emptyStore 10))).
Proof.
  intros r.
  destruct (createMemoryEntry utcEnv "m1" r) as [e|] eqn:Hc; [|discriminate Hc].
  exists e. split; [reflexivity|].
  apply (storeMemory_fan_out utcEnv "m1" "c1" r e (emptyStore 10) Hc).
  - intros g k s Hk. destruct g; destruct Hk.
  - reflexivity.
  - vm_compute. left; reflexivity.
Defined.

(** C1 (counterexample): the orchestration result carries the unified
    embedding [[1]]; [storeMemory] reports it stored and the record is in
    the table, yet its id is not in the embedding index. *)
Lemma storeMemory_drops_embedding :
  let r := embeddedResult 1000 "https://example.com/" "summary" [1] in
  let res := storeMemory utcEnv "m1" "c1" r (emptyStore 10) in
  option_map os_embeddings (r_orchestratorSynthesis r) = Some (Some [1]) /\
  res_stored (snd res) = true /\
  In "m1"%string (map fst (memoryStore (fst res))) /\
  sget "m1" (embeddingIndex (fst res)) = None.
Proof.
  intros r res. split; [reflexivity|]. split; [vm_compute; reflexivity|].
  split; [vm_compute; left; reflexivity|vm_compute; reflexivity].
Qed.

(** ** Concept clusters *)

Lemma nth_map_lt {A B} (f : A -> B) (l : list A) (i : nat) (d : B) (d' : A) :
  (i < length l)%nat -> nth i (map f l) d = f (nth i l d').
Proof.
  intros H. rewrite (nth_indep (map f l) d (f d')) by (rewrite length_map; exact H).
  apply map_nth.
Qed.

Lemma add_prefix_length acc w : length (add_prefix acc w) = length acc.
Proof.
  revert w. induction acc as [|a acc IH]; intros [|x w]; simpl; try reflexivity.
  rewrite IH. reflexivity.
Qed.

Lemma add_prefix_nth acc w i :
  length acc = length w -> nth i (add_prefix acc w) 0 = nth i acc 0 + nth i w 0.
Proof.
  revert w i. induction acc as [|a acc IH]; intros [|x w] i Hl; simpl in *; try discriminate.
  - destruct i; simpl; ring.
  - destruct i; [reflexivity|]. apply IH. lia.
Qed.

Lemma fold_add_embedding (d : nat) (embs : list (list R)) (acc : list R) :
  Forall (fun w => length w = d) embs -> length acc = d ->
  exists s, fold_left add_embedding embs (Some acc) = Some s /\ length s = d /\
    forall i, nth i s 0 = nth i acc 0 + fold_right Rplus 0 (map (fun w => nth i w 0) embs).
Proof.
  revert acc. induction embs as [|w embs IH]; intros acc Hf Hl; simpl.
  - exists acc. split; [reflexivity|]. split; [exact Hl|]. intros i; ring.
  - apply Forall_cons_iff in Hf as [Hw Hf'].
    assert (Hle : (length w <=? length acc)%nat = true) by (apply Nat.leb_le; lia).
    rewrite Hle.
    destruct (IH (add_prefix acc w) Hf') as (s & Hs & Hls & Hn);
      [rewrite add_prefix_length; exact Hl|].
    exists s. split; [exact Hs|]. split; [exact Hls|].
    intros i. rewrite Hn, add_prefix_nth by congruence. simpl. ring.
Qed.

Lemma updateClusterCentroid_mean (cid : string) (st : Store) (c : ConceptCluster) (d : nat) :
  sget cid (conceptClusters st) = Some c ->
  member_embeddings (members c) st <> [] ->
  Forall (fun w => length w = d) (member_embeddings (members c) st) ->
  sget cid (conceptClusters (updateClusterCentroid cid st)) =
    Some (with_centroid c (Some (vec_mean (member_embeddings (members c) st) d))).
Proof.
  intros Hc Hne Hf. unfold updateClusterCentroid. rewrite Hc.
  destruct (members c) as [|m0 ms] eqn:Hm; [contradiction|].
  destruct (member_embeddings (m0 :: ms) st) as [|e0 rest] eqn:He; [contradiction|].
  pose proof (proj1 (proj1 (Forall_cons_iff _ _ _) Hf)) as He0. rewrite <- He0 in Hf |- *.
  destruct (fold_add_embedding (length e0) (e0 :: rest) (repeat 0 (length e0)) Hf)
    as (s & Hs & Hls & Hn); [apply repeat_length|].
  rewrite Hs. cbn [option_map set_conceptClusters conceptClusters].
  unfold sget. rewrite mget_mreplace_same; [|unfold mhas; unfold sget in Hc; rewrite Hc; reflexivity].
  do 3 f_equal. unfold vec_mean. apply nth_ext with (d := 0) (d' := 0).
  - rewrite !length_map, length_seq. exact Hls.
  - intros i Hi. rewrite length_map in Hi.
    rewrite (nth_map_lt _ _ _ _ 0) by exact Hi.
    rewrite (nth_map_lt _ _ _ _ 0%nat) by (rewrite length_seq; lia).
    rewrite seq_nth by lia. simpl Nat.add.
    rewrite Hn. rewrite nth_repeat. f_equal. ring.
Qed.

Lemma vec_mean_single (v : list R) : vec_mean [v] (length v) = v.
Proof.
  unfold vec_mean. apply nth_ext with (d := 0) (d' := 0).
  - rewrite length_map, length_seq. reflexivity.
  - intros i Hi. rewrite length_map, length_seq in Hi.
    rewrite (nth_map_lt _ _ _ _ 0%nat) by (rewrite length_seq; lia).
    rewrite seq_nth by lia. simpl. field.
Qed.

Lemma cluster_matches_below v c : below_threshold v c -> cluster_matches v c = false.
Proof.
  unfold below_threshold, cluster_matches. destruct (centroid c) as [cen|]; [|reflexivity].
  intros H. destruct (Rlt_dec 0.85 (calculateCosineSimilarity v cen)); [lra|reflexivity].
Qed.

Lemma findMatchingCluster_first v pre cid c post :
  (forall p, In p pre -> below_threshold v (snd p)) -> cluster_matches v c = true ->
  findMatchingCluster v (pre ++ (cid, c) :: post) = Some cid.
Proof.
  induction pre as [|[k c0] pre IH]; intros Hpre Hc; simpl; [rewrite Hc; reflexivity|].
  rewrite (cluster_matches_below v c0) by (apply (Hpre (k, c0)); left; reflexivity).
  apply IH; [intros p Hp; apply Hpre; right; exact Hp|exact Hc].
Qed.

Lemma findMatchingCluster_none v cs :
  (forall p, In p cs -> below_threshold v (snd p)) -> findMatchingCluster v cs = None.
Proof.
  induction cs as [|[k c0] cs IH]; intros H; simpl; [reflexivity|].
  rewrite (cluster_matches_below v c0) by (apply (H (k, c0)); left; reflexivity).
  apply IH. intros p Hp; apply H; right; exact Hp.
Qed.

Lemma sget_app_first {V} (pre post : list (string * V)) k (x : V) :
  ~ In k (map fst pre) -> sget k (pre ++ (k, x) :: post) = Some x.
Proof.
  unfold sget. induction pre as [|[k0 x0] pre IH]; intros Hn; simpl.
  - destruct (string_dec k k); congruence.
  - destruct (string_dec k k0) as [->|_]; [exfalso; apply Hn; left; reflexivity|].
    apply IH. intros C; apply Hn; right; exact C.
Qed.

Lemma member_embeddings_In ms st m ee :
  In m ms -> sget m (embeddingIndex st) = Some ee -> In (ee_unified ee) (member_embeddings ms st).
Proof.
  intros Hm He. unfold member_embeddings. apply in_flat_map. exists m.
  split; [exact Hm|]. rewrite He. left; reflexivity.
Qed.

(** C4 (amended): for a record [mid] whose embedding [v] is indexed, the
    cluster step scans the clusters in insertion order and joins the FIRST
    one whose centroid has cosine above [0.85] with [v] (not the most
    similar one): [mid] is added to its members and its centroid becomes
    the arithmetic mean of the members' embeddings (members of equal
    dimension).  When no centroid is above [0.85], a new cluster is made
    with [mid] as its only member and [v] as its centroid.  ([storeMemory]
    never reaches this step: its records carry no embedding.) *)
Theorem updateConceptClusters_first_fit (mid fresh : string) (e : MemoryEntry) (st : Store)
  (v : list R) (ee : EmbeddingEntry) :
  unified e = Some v ->
  sget mid (embeddingIndex st) = Some ee -> ee_unified ee = v ->
  (forall pre cid c post cen,
     conceptClusters st = pre ++ (cid, c) :: post ->
     ~ In cid (map fst pre) ->
     (forall p, In p pre -> below_threshold v (snd p)) ->
     centroid c = Some cen -> 0.85 < calculateCosineSimilarity v cen ->
     Forall (fun w => length w = length v)
            (member_embeddings (sadd string_dec mid (members c)) st) ->
     exists c', sget cid (conceptClusters (updateConceptClusters mid e fresh st)) = Some c' /\
       members c' = sadd string_dec mid (members c) /\
       centroid c' = Some (vec_mean (member_embeddings (members c') st) (length v))) /\
  ((forall p, In p (conceptClusters st) -> below_threshold v (snd p)) ->
   sget fresh (conceptClusters st) = None ->
   exists c', sget fresh (conceptClusters (updateConceptClusters mid e fresh st)) = Some c' /\
     members c' = [mid] /\ centroid c' = Some v).
Proof.
  intros Hu Hee Hv. split.
  - intros pre cid c post cen Hcl Hn Hpre Hcen Hcos Hf.
    assert (Hm : cluster_matches v c = true).
    { unfold cluster_matches. rewrite Hcen.
      destruct (Rlt_dec 0.85 (calculateCosineSimilarity v cen)); [reflexivity|lra]. }
    assert (Hs : sget cid (conceptClusters st) = Some c)
      by (rewrite Hcl; apply sget_app_first; exact Hn).
    assert (Hh : mhas string_dec cid (conceptClusters st) = true)
      by (unfold mhas; unfold sget in Hs; rewrite Hs; reflexivity).
    unfold updateConceptClusters, findOrCreateConceptCluster. rewrite Hu. cbv beta iota zeta.
    replace (findMatchingCluster v (conceptClusters st)) with (Some cid)
      by (rewrite Hcl; symmetry; apply findMatchingCluster_first; assumption).
    rewrite Hh.
    set (c2 := with_members c (sadd string_dec mid (members c))).
    set (st2 := set_conceptClusters st
                  (mupdate string_dec cid (fun c => with_members c (sadd string_dec mid (members c)))
                     (conceptClusters st))).
    assert (Hs2 : sget cid (conceptClusters st2) = Some c2).
    { unfold st2. cbn [conceptClusters set_conceptClusters]. unfold sget.
      rewrite mget_mupdate_same. unfold sget in Hs. rewrite Hs. reflexivity. }
    exists (with_centroid c2 (Some (vec_mean (member_embeddings (members c2) st2) (length v)))).
    split; [|split; reflexivity].
    apply updateClusterCentroid_mean; [exact Hs2| |exact Hf].
    intros C. assert (Hin : In (ee_unified ee) (member_embeddings (members c2) st2)).
    { apply member_embeddings_In with (m := mid); [|exact Hee].
      apply In_sadd. left; reflexivity. }
    rewrite C in Hin. destruct Hin.
  - intros Hall Hfresh.
    assert (Hh : mhas string_dec fresh (conceptClusters st) = false)
      by (apply mhas_mget; exact Hfresh).
    unfold updateConceptClusters, findOrCreateConceptCluster. rewrite Hu. cbv beta iota zeta.
    rewrite findMatchingCluster_none by exact Hall. rewrite Hh.
    set (c0 := {| cl_id := fresh; centroid := Some v; members := [];
                  concept := inferConceptFromFeatures e |}).
    set (st1 := set_conceptClusters st (sset fresh c0 (conceptClusters st))).
    set (st2 := set_conceptClusters st1
                  (mupdate string_dec fresh
                     (fun c => with_members c (sadd string_dec mid (members c)))
                     (conceptClusters st1))).
    assert (Hs2 : sget fresh (conceptClusters st2) = Some (with_members c0 [mid])).
    { unfold st2, st1. cbn [conceptClusters set_conceptClusters]. unfold sget.
      rewrite mget_mupdate_same. unfold sset. rewrite mget_mset_same. reflexivity. }
    assert (He2 : member_embeddings (members (with_members c0 [mid])) st2 = [v]).
    { cbn [members with_members]. unfold member_embeddings. cbn [flat_map].
      change (sget mid (embeddingIndex st2)) with (sget mid (embeddingIndex st)).
      rewrite Hee, Hv. reflexivity. }
    exists (with_centroid (with_members c0 [mid]) (Some v)).
    split; [|split; reflexivity].
    rewrite (updateClusterCentroid_mean fresh st2 (with_members c0 [mid]) (length v) Hs2).
    + rewrite He2, vec_mean_single. reflexivity.
    + rewrite He2. discriminate.
    + rewrite He2. constructor; [reflexivity|constructor].
Qed.

Lemma cos_unit (a b : list R) :
  length a = length b -> dot a a = 1 -> dot b b = 1 -> calculateCosineSimilarity a b = dot a b.
Proof.
  intros Hl Ha Hb. rewrite cos_equal_length by exact Hl.
  unfold norm. rewrite Ha, Hb, sqrt_1.
  destruct (Req_dec_T (1 * 1) 0) as [H|_]; [lra|]. field.
Qed.

Lemma cos_sample_c1 : calculateCosineSimilarity [12/13; 5/13] [1; 0] = 12/13.
Proof. rewrite cos_unit by (simpl; try reflexivity; field). simpl. field. Qed.

Lemma cos_sample_c2 : calculateCosineSimilarity [12/13; 5/13] [4/5; 3/5] = 63/65.
Proof. rewrite cos_unit by (simpl; try reflexivity; field). simpl. field. Qed.

Lemma updateConceptClusters_first_fit_witness :
  exists c', sget "c1" (conceptClusters (updateConceptClusters "m3"
                 (sampleEmbEntry "m3" 0 [12/13; 5/13]) "fresh" clusterSample)) = Some c' /\
    members c' = ["m1"; "m3"]%string /\
    centroid c' = Some (vec_mean (member_embeddings (members c') clusterSample) 2).
Proof.
  destruct (updateConceptClusters_first_fit "m3" "fresh" (sampleEmbEntry "m3" 0 [12/13; 5/13])
              clusterSample [12/13; 5/13] (sampleEmbedding [12/13; 5/13])) as [H _];
    [reflexivity|reflexivity|reflexivity|].
  destruct (H [] "c1"%string
              {| cl_id := "c1"; centroid := Some [1; 0]; members := ["m1"%string]; concept := ""%string |}
              [("c2", {| cl_id := "c2"; centroid := Some [4/5; 3/5]; members := ["m2"%string];
                         concept := ""%string |})]%string [1; 0]) as (c' & H1 & H2 & H3).
  - reflexivity.
  - intros [].
  - intros p [].
  - reflexivity.
  - rewrite cos_sample_c1. lra.
  - vm_compute. repeat constructor.
  - exists c'. split; [exact H1|]. split; [exact H2|]. exact H3.
Defined.

(** C4 (counterexample): [[12/13; 5/13]] is closer to the centroid of [c2]
    (cosine [63/65]) than to that of [c1] (cosine [12/13]); both are above
    [0.85], and the record joins [c1], the first of them. *)
Lemma updateConceptClusters_not_most_similar :
  0.85 < calculateCosineSimilarity [12/13; 5/13] [1; 0] /\
  calculateCosineSimilarity [12/13; 5/13] [1; 0] <
    calculateCosineSimilarity [12/13; 5/13] [4/5; 3/5] /\
  findOrCreateConceptCluster [12/13; 5/13] "fresh" clusterSample = "c1"%string /\
  exists c, sget "c1" (conceptClusters (updateConceptClusters "m3"
               (sampleEmbEntry "m3" 0 [12/13; 5/13]) "fresh" clusterSample)) = Some c /\
            In "m3"%string (members c).
Proof.
  assert (Hf : findOrCreateConceptCluster [12/13; 5/13] "fresh" clusterSample = "c1"%string).
  { unfold findOrCreateConceptCluster. cbn [conceptClusters clusterSample set_conceptClusters
      findMatchingCluster].
    unfold cluster_matches. cbn [centroid]. rewrite cos_sample_c1.
    destruct (Rlt_dec 0.85 (12/13)); [reflexivity|lra]. }
  rewrite cos_sample_c1, cos_sample_c2. split; [lra|]. split; [lra|]. split; [exact Hf|].
  unfold updateConceptClusters. cbn [unified sampleEmbEntry]. cbv beta iota zeta.
  rewrite Hf. vm_compute. eexists. split; [reflexivity|]. right; left; reflexivity.
Qed.

(** * Further properties *)

Lemma mget_add_to_set_map {K} (Keq : forall x y : K, {x = y} + {x <> y}) k k' x m :
  mget Keq k' (add_to_set_map Keq k x m) =
  if Keq k' k then Some (sadd string_dec x (set_or_empty (mget Keq k m))) else mget Keq k' m.
Proof.
  unfold add_to_set_map. destruct (Keq k' k) as [->|Hne].
  - rewrite mget_mupdate_same. unfold mhas. destruct (mget Keq k m) eqn:H.
    + rewrite H. reflexivity.
    + rewrite mget_mset_same. reflexivity.
  - rewrite mget_mupdate_other by exact Hne. destruct (mhas Keq k m); [reflexivity|].
    apply mget_mset_other. exact Hne.
Qed.

Lemma sadd_new x s : ~ In x s -> sadd string_dec x s = s ++ [x].
Proof.
  intros H. unfold sadd. destruct (shas string_dec x s) eqn:E; [|reflexivity].
  apply shas_In in E. contradiction.
Qed.

Lemma in_set_add_to_set_map {K} (Keq : forall x y : K, {x = y} + {x <> y}) kk y m k x :
  (exists s, mget Keq k (add_to_set_map Keq kk y m) = Some s /\ In x s) <->
  (exists s, mget Keq k m = Some s /\ In x s) \/ (kk = k /\ y = x).
Proof.
  rewrite mget_add_to_set_map. destruct (Keq k kk) as [->|Hne].
  - split.
    + intros (s & Hs & Hx). injection Hs as <-. apply In_sadd in Hx as [->|Hx]; [right; tauto|].
      left. destruct (mget Keq kk m) as [s|]; [exists s; tauto|destruct Hx].
    + intros [(s & Hs & Hx)|[_ ->]]; eexists; split; try reflexivity; apply In_sadd.
      * right. rewrite Hs. exact Hx.
      * left; reflexivity.
  - split; [tauto|]. intros [H|[-> _]]; [exact H|congruence].
Qed.

Section SetMapFold.
Context {A K : Type} (Keq : forall x y : K, {x = y} + {x <> y}) (key : A -> K) (id : A -> string).

Lemma add_all_in (l : list A) m k x :
  (exists s, mget Keq k (add_all Keq key id l m) = Some s /\ In x s) <->
  (exists s, mget Keq k m = Some s /\ In x s) \/ (exists a, In a l /\ key a = k /\ id a = x).
Proof.
  unfold add_all. revert m. induction l as [|a l IH]; intros m; simpl.
  - split; [tauto|]. intros [H|(a & [] & _)]; exact H.
  - rewrite IH, in_set_add_to_set_map. split.
    + intros [[H|[H1 H2]]|(b & Hb & H1 & H2)]; [tauto| |].
      * right. exists a. tauto.
      * right. exists b. tauto.
    + intros [H|(b & [<-|Hb] & H1 & H2)]; [tauto|tauto|].
      right. exists b. tauto.
Qed.

Let at_key (k : K) (a : A) : bool := if Keq (key a) k then true else false.

Lemma add_all_exact (l : list A) m k :
  NoDup (map id (filter (at_key k) l)) ->
  (forall s, mget Keq k m = Some s -> forall a, In a l -> key a = k -> ~ In (id a) s) ->
  mget Keq k (add_all Keq key id l m) = extend_set (mget Keq k m) (map id (filter (at_key k) l)).
Proof.
  unfold add_all. revert m. induction l as [|a l IH]; intros m Hn Hm; simpl.
  - destruct (mget Keq k m); simpl; [rewrite app_nil_r|]; reflexivity.
  - simpl in Hn |- *. destruct (Keq (key a) k) as [Hk|Hk].
    + replace (at_key k a) with true in *
        by (unfold at_key; destruct (Keq (key a) k); congruence).
      simpl in Hn |- *. apply NoDup_cons_iff in Hn as [Hna Hn].
      assert (Ha0 : ~ In (id a) (set_or_empty (mget Keq k m))).
      { destruct (mget Keq k m) as [s|] eqn:E; [|intros []].
        apply (Hm s eq_refl a); [left; reflexivity|exact Hk]. }
      rewrite IH; [|exact Hn|].
      * rewrite mget_add_to_set_map. rewrite Hk. destruct (Keq k k) as [_|]; [|congruence].
        rewrite sadd_new by exact Ha0. simpl.
        destruct (mget Keq k m) as [s|]; simpl.
        -- rewrite <- app_assoc. reflexivity.
        -- reflexivity.
      * intros s Hs b Hb Hbk. rewrite mget_add_to_set_map, Hk in Hs.
        destruct (Keq k k) as [_|]; [|congruence]. injection Hs as <-.
        rewrite In_sadd. intros [He|Hin].
        -- apply Hna. rewrite <- He. apply in_map. apply filter_In. split; [exact Hb|].
           unfold at_key. destruct (Keq (key b) k); congruence.
        -- destruct (mget Keq k m) as [s|] eqn:E; [|destruct Hin].
           exact (Hm s eq_refl b (or_intror Hb) Hbk Hin).
    + replace (at_key k a) with false in *
        by (unfold at_key; destruct (Keq (key a) k); congruence).
      rewrite IH; [|exact Hn|].
      * rewrite mget_add_to_set_map. destruct (Keq k (key a)); [congruence|reflexivity].
      * intros s Hs b Hb Hbk. rewrite mget_add_to_set_map in Hs.
        destruct (Keq k (key a)); [congruence|]. exact (Hm s Hs b (or_intror Hb) Hbk).
Qed.
End SetMapFold.

Lemma semanticCategories_updateSemanticCategories mid e st :
  semanticCategories (updateSemanticCategories mid e st) =
  fold_left (fun m c => add_to_set_map string_dec c mid m) (categories e) (semanticCategories st).
Proof.
  unfold updateSemanticCategories. revert st.
  induction (categories e) as [|c cs IH]; intros st; simpl; [reflexivity|]. apply IH.
Qed.

Lemma rebuild_step_eq env st mid e :
  updateDomainClusters mid e (updateSemanticCategories mid e (updateTemporalIndices env mid e st)) =
  {| maxMemories := maxMemories st; memoryStore := memoryStore st;
     embeddingIndex := embeddingIndex st; conceptClusters := conceptClusters st;
     relationshipGraph := relationshipGraph st;
     hourBuckets := add_to_set_map bkey_dec (hourKey env (timestamp e)) mid (hourBuckets st);
     dayBuckets := add_to_set_map bkey_dec (dayKey env (timestamp e)) mid (dayBuckets st);
     weekBuckets := add_to_set_map bkey_dec (weekKey env (timestamp e)) mid (weekBuckets st);
     monthBuckets := add_to_set_map bkey_dec (monthKey env (timestamp e)) mid (monthBuckets st);
     semanticCategories :=
       fold_left (fun m c => add_to_set_map string_dec c mid m) (categories e) (semanticCategories st);
     domainClusters := add_to_set_map string_dec (domain e) mid (domainClusters st);
     embeddingBuckets := embeddingBuckets st |}.
Proof.
  rewrite updateSemanticCategories_only_categories, semanticCategories_updateSemanticCategories.
  destruct st; reflexivity.
Qed.

Lemma fold_categories_add_all mid cs m :
  fold_left (fun m c => add_to_set_map string_dec c mid m) cs m =
  add_all string_dec fst snd (map (fun c => (c, mid)) cs) m.
Proof. revert m. induction cs as [|c cs IH]; intros m; simpl; [reflexivity|]. apply IH. Qed.

Lemma rebuild_fold_eq env (l : list (string * MemoryEntry)) st :
  fold_left (fun st p =>
               let st1 := updateTemporalIndices env (fst p) (snd p) st in
               let st2 := updateSemanticCategories (fst p) (snd p) st1 in
               updateDomainClusters (fst p) (snd p) st2) l st =
  {| maxMemories := maxMemories st; memoryStore := memoryStore st;
     embeddingIndex := embeddingIndex st; conceptClusters := conceptClusters st;
     relationshipGraph := relationshipGraph st;
     hourBuckets := add_all bkey_dec (fun p => hourKey env (timestamp (snd p))) fst l (hourBuckets st);
     dayBuckets := add_all bkey_dec (fun p => dayKey env (timestamp (snd p))) fst l (dayBuckets st);
     weekBuckets := add_all bkey_dec (fun p => weekKey env (timestamp (snd p))) fst l (weekBuckets st);
     monthBuckets := add_all bkey_dec (fun p => monthKey env (timestamp (snd p))) fst l (monthBuckets st);
     semanticCategories := add_all string_dec fst snd (cat_pairs l) (semanticCategories st);
     domainClusters := add_all string_dec (fun p => domain (snd p)) fst l (domainClusters st);
     embeddingBuckets := embeddingBuckets st |}.
Proof.
  revert st. induction l as [|p l IH]; intros st; simpl.
  - destruct st; reflexivity.
  - rewrite IH, rebuild_step_eq. cbn [maxMemories memoryStore embeddingIndex conceptClusters
      relationshipGraph hourBuckets dayBuckets weekBuckets monthBuckets semanticCategories
      domainClusters embeddingBuckets]. f_equal.
    unfold cat_pairs. cbn [flat_map]. unfold add_all. rewrite fold_left_app.
    rewrite fold_categories_add_all. reflexivity.
Qed.

Lemma fold_mset_fresh {K V} (Keq : forall x y : K, {x = y} + {x <> y}) (l : list (K * V)) m :
  NoDup (map fst l) -> (forall k, In k (map fst l) -> mget Keq k m = None) ->
  fold_left (fun m kv => mset Keq (fst kv) (snd kv) m) l m = m ++ l.
Proof.
  revert m. induction l as [|[k v] l IH]; intros m Hn Hm; simpl.
  - rewrite app_nil_r. reflexivity.
  - apply NoDup_cons_iff in Hn as [Hk Hn].
    assert (Hmk : mset Keq k v m = m ++ [(k, v)]).
    { unfold mset, mhas. rewrite (Hm k (or_introl eq_refl)). reflexivity. }
    rewrite Hmk, IH; [rewrite <- app_assoc; reflexivity|exact Hn|].
    intros k' Hk'. rewrite mget_app_other by (intros ->; contradiction).
    apply Hm. right. exact Hk'.
Qed.

Lemma mapFromEntries_id {K V} (Keq : forall x y : K, {x = y} + {x <> y}) (l : list (K * V)) :
  NoDup (map fst l) -> mapFromEntries Keq l = l.
Proof. intros Hn. unfold mapFromEntries. rewrite fold_mset_fresh; [reflexivity|exact Hn|reflexivity]. Qed.

Lemma rebuildIndices_eq env st :
  rebuildIndices env st =
  {| maxMemories := maxMemories st; memoryStore := memoryStore st;
     embeddingIndex := embeddingIndex st; conceptClusters := conceptClusters st;
     relationshipGraph := relationshipGraph st;
     hourBuckets := add_all bkey_dec (fun p => hourKey env (timestamp (snd p))) fst (memoryStore st) [];
     dayBuckets := add_all bkey_dec (fun p => dayKey env (timestamp (snd p))) fst (memoryStore st) [];
     weekBuckets := add_all bkey_dec (fun p => weekKey env (timestamp (snd p))) fst (memoryStore st) [];
     monthBuckets := add_all bkey_dec (fun p => monthKey env (timestamp (snd p))) fst (memoryStore st) [];
     semanticCategories := add_all string_dec fst snd (cat_pairs (memoryStore st)) [];
     domainClusters := add_all string_dec (fun p => domain (snd p)) fst (memoryStore st) [];
     embeddingBuckets := embeddingBuckets st |}.
Proof. unfold rebuildIndices. rewrite rebuild_fold_eq. reflexivity. Qed.

Lemma buckets_rebuildIndices env st g :
  buckets g (rebuildIndices env st) =
  add_all bkey_dec (fun p => gkey env g (timestamp (snd p))) fst (memoryStore st) [].
Proof. rewrite rebuildIndices_eq. destruct g; reflexivity. Qed.

Lemma nodup_filter_fst {B} (f : string * B -> bool) (l : list (string * B)) :
  NoDup (map fst l) -> NoDup (map fst (filter f l)).
Proof.
  induction l as [|p l IH]; intros Hn; simpl; [constructor|].
  apply NoDup_cons_iff in Hn as [Hp Hn]. destruct (f p); simpl; [|exact (IH Hn)].
  constructor; [|exact (IH Hn)]. intros Hin. apply Hp.
  apply in_map_iff in Hin as (q & Hq & Hqin). apply filter_In in Hqin as [Hqin _].
  rewrite <- Hq. apply in_map. exact Hqin.
Qed.

Lemma cat_pairs_in (l : list (string * MemoryEntry)) c mid :
  (exists a, In a (cat_pairs l) /\ fst a = c /\ snd a = mid) <->
  (exists e, In (mid, e) l /\ In c (categories e)).
Proof.
  unfold cat_pairs. split.
  - intros (a & Ha & <- & <-). apply in_flat_map in Ha as ([m e] & Hp & Ha).
    apply in_map_iff in Ha as (c' & <- & Hc). exists e. simpl. tauto.
  - intros (e & Hin & Hc). exists (c, mid). split; [|tauto].
    apply in_flat_map. exists (mid, e). split; [exact Hin|]. apply in_map_iff.
    exists c. tauto.
Qed.

(** What [rebuildIndices] builds from a table with distinct ids. *)
Lemma rebuildIndices_indexes env st :
  NoDup (map fst (memoryStore st)) ->
  (forall g k, mget bkey_dec k (buckets g (rebuildIndices env st)) =
     nonempty (map fst (filter (fun p => if bkey_dec (gkey env g (timestamp (snd p))) k
                                         then true else false) (memoryStore st)))) /\
  (forall d, sget d (domainClusters (rebuildIndices env st)) =
     nonempty (map fst (filter (fun p => if string_dec (domain (snd p)) d then true else false)
                               (memoryStore st)))) /\
  (forall c mid, (exists s, sget c (semanticCategories (rebuildIndices env st)) = Some s /\ In mid s)
     <-> exists e, In (mid, e) (memoryStore st) /\ In c (categories e)).
Proof.
  intros Hn. split; [|split].
  - intros g k. rewrite buckets_rebuildIndices. rewrite add_all_exact.
    + reflexivity.
    + apply nodup_filter_fst. exact Hn.
    + intros s Hs. discriminate.
  - intros d. rewrite rebuildIndices_eq. unfold sget. cbn [domainClusters]. rewrite add_all_exact.
    + reflexivity.
    + apply nodup_filter_fst. exact Hn.
    + intros s Hs. discriminate.
  - intros c mid. rewrite rebuildIndices_eq. unfold sget. cbn [semanticCategories].
    rewrite add_all_in, <- cat_pairs_in. split.
    + intros [(s & Hs & _)|H]; [discriminate|exact H].
    + intros H. right. exact H.
Qed.

Lemma importMemoryState_eq env state st :
  importMemoryState env state st =
  rebuildIndices env
    {| maxMemories := maxMemories st;
       memoryStore := mapFromEntries string_dec (ms_memories state);
       embeddingIndex := mapFromEntries string_dec (ms_embeddings state);
       conceptClusters := mapFromEntries string_dec (ms_clusters state);
       relationshipGraph := mapFromEntries string_dec (ms_relationships state);
       hourBuckets := hourBuckets st; dayBuckets := dayBuckets st;
       weekBuckets := weekBuckets st; monthBuckets := monthBuckets st;
       semanticCategories := semanticCategories st; domainClusters := domainClusters st;
       embeddingBuckets := embeddingBuckets st |}.
Proof. reflexivity. Qed.

(** X1: exporting a store and importing the export into any instance gives
    back the table, the embedding index, the clusters and the relationship
    graph unchanged (keys of a [Map] are distinct); the importing instance
    keeps its own [maxMemories], even when the table is larger, and its own
    [embeddingBuckets]. *)
Theorem importMemoryState_exportMemoryState env sid now st st' :
  NoDup (map fst (memoryStore st)) -> NoDup (map fst (embeddingIndex st)) ->
  NoDup (map fst (conceptClusters st)) -> NoDup (map fst (relationshipGraph st)) ->
  let st'' := importMemoryState env (exportMemoryState sid now st) st' in
  memoryStore st'' = memoryStore st /\ embeddingIndex st'' = embeddingIndex st /\
  conceptClusters st'' = conceptClusters st /\ relationshipGraph st'' = relationshipGraph st /\
  maxMemories st'' = maxMemories st' /\ embeddingBuckets st'' = embeddingBuckets st'.
Proof.
  intros H1 H2 H3 H4 st''. unfold st''. rewrite importMemoryState_eq, rebuildIndices_eq.
  cbn [maxMemories memoryStore embeddingIndex conceptClusters relationshipGraph embeddingBuckets
       exportMemoryState ms_memories ms_embeddings ms_clusters ms_relationships].
  rewrite !mapFromEntries_id by assumption. repeat split.
Qed.

Lemma importMemoryState_exportMemoryState_witness :
  let st'' := importMemoryState utcEnv (exportMemoryState "tensor-memory-1" 5000 evictionSample)
                (emptyStore 1) in
  memoryStore st'' = memoryStore evictionSample /\ maxMemories st'' = 1%Z.
Proof.
  destruct (importMemoryState_exportMemoryState utcEnv "tensor-memory-1" 5000 evictionSample
              (emptyStore 1)) as (H1 & _ & _ & _ & H5 & _).
  - vm_compute. repeat constructor; simpl; intuition discriminate.
  - constructor.
  - constructor.
  - constructor.
  - split; [exact H1|exact H5].
Defined.

(** X2: after [importMemoryState], when the imported memories have distinct
    ids, the table is the imported list; the bucket of every granularity
    and key holds exactly the ids of the memories whose time stamp falls in
    it, in table order (no bucket is empty); the domain index holds for each
    domain exactly the ids of its memories in table order; and an id is in
    the category index under [c] exactly when it is a memory of category
    [c]. *)
Theorem importMemoryState_indexes env state st :
  NoDup (map fst (ms_memories state)) ->
  let st' := importMemoryState env state st in
  memoryStore st' = ms_memories state /\
  (forall g k, mget bkey_dec k (buckets g st') =
     nonempty (map fst (filter (fun p => if bkey_dec (gkey env g (timestamp (snd p))) k
                                         then true else false) (ms_memories state)))) /\
  (forall d, sget d (domainClusters st') =
     nonempty (map fst (filter (fun p => if string_dec (domain (snd p)) d then true else false)
                               (ms_memories state)))) /\
  (forall c mid, (exists s, sget c (semanticCategories st') = Some s /\ In mid s)
     <-> exists e, In (mid, e) (ms_memories state) /\ In c (categories e)).
Proof.
  intros Hn st'. unfold st'. rewrite importMemoryState_eq.
  rewrite (mapFromEntries_id string_dec (ms_memories state) Hn).
  lazymatch goal with
  | |- context [rebuildIndices env ?s] => pose proof (rebuildIndices_indexes env s Hn) as H
  end.
  split; [|exact H]. rewrite rebuildIndices_eq. reflexivity.
Qed.

Lemma importMemoryState_indexes_witness :
  let st' := importMemoryState utcEnv (exportMemoryState "tensor-memory-1" 5000 evictionSample)
               (emptyStore 1) in
  memoryStore st' = memoryStore evictionSample.
Proof.
  destruct (importMemoryState_indexes utcEnv (exportMemoryState "tensor-memory-1" 5000 evictionSample)
              (emptyStore 1)) as (H & _).
  - vm_compute. repeat constructor; simpl; intuition discriminate.
  - exact H.
Defined.

Lemma length_nonempty l : length (set_or_empty (nonempty l)) = length l.
Proof. destruct l; reflexivity. Qed.

(** X3: after [importMemoryState] of memories with distinct ids,
    [getMemoriesInTimeRange] for ['hour'], ['day'], ['week'] or ['month']
    is the number of imported memories whose time stamp falls in the same
    hour (day, week, month) as [now]. *)
Theorem getMemoriesInTimeRange_after_import env now state st g :
  NoDup (map fst (ms_memories state)) ->
  getMemoriesInTimeRange env now (granularityName g) (importMemoryState env state st) =
  length (filter (fun p => if bkey_dec (gkey env g (timestamp (snd p))) (gkey env g now)
                           then true else false) (ms_memories state)).
Proof.
  intros Hn. rewrite importMemoryState_eq.
  rewrite (mapFromEntries_id string_dec (ms_memories state) Hn).
  lazymatch goal with
  | |- context [rebuildIndices env ?s] => pose proof (rebuildIndices_indexes env s Hn) as H
  end.
  destruct H as [Hb _].
  set (st' := rebuildIndices env _) in *.
  assert (Hc : getMemoriesInTimeRange env now (granularityName g) st' =
               length (set_or_empty (mget bkey_dec (gkey env g now) (buckets g st')))).
  { unfold getMemoriesInTimeRange. destruct g; simpl;
      destruct (mget _ _ _); reflexivity. }
  rewrite Hc, Hb, length_nonempty, length_map. reflexivity.
Qed.

Lemma getMemoriesInTimeRange_after_import_witness :
  getMemoriesInTimeRange utcEnv 20 (granularityName GDay)
    (importMemoryState utcEnv (exportMemoryState "tensor-memory-1" 5000 evictionSample)
       (emptyStore 1)) = 3%nat.
Proof.
  rewrite (getMemoriesInTimeRange_after_import utcEnv 20
             (exportMemoryState "tensor-memory-1" 5000 evictionSample) (emptyStore 1) GDay).
  - vm_compute. reflexivity.
  - vm_compute. repeat constructor; simpl; intuition discriminate.
Defined.

(** ** Content-type distribution *)

Lemma sget_count_content_type_other d x c :
  c <> x -> sget c (count_content_type d x) = sget c d.
Proof.
  intros Hne. unfold count_content_type.
  destruct (sget x d) as [[n|nm k]|]; unfold sset; try (apply mget_mset_other; exact Hne).
  destruct (string_dec x "__proto__"); [reflexivity|].
  destruct (shas string_dec x objectPrototypeMembers); apply mget_mset_other; exact Hne.
Qed.

Lemma distribution_plain c l d n :
  ~ In c objectPrototypeMembers -> sget c d = count_of n ->
  sget c (fold_left count_content_type l d) = count_of (n + content_count c l).
Proof.
  intros Hc. revert d n. induction l as [|x l IH]; intros d n Hd; simpl.
  - rewrite Nat.add_0_r. exact Hd.
  - unfold content_count. simpl. destruct (string_dec x c) as [->|Hne].
    + simpl. rewrite <- Nat.add_succ_comm. apply IH. unfold count_content_type.
      rewrite Hd. destruct n as [|n]; cbn [count_of].
      * destruct (string_dec c "__proto__") as [->|_]; [exfalso; apply Hc; simpl; tauto|].
        destruct (shas string_dec c objectPrototypeMembers) eqn:Hs.
        -- apply shas_In in Hs. contradiction.
        -- apply mget_mset_same.
      * apply mget_mset_same.
    + apply IH. rewrite sget_count_content_type_other by congruence. exact Hd.
Qed.

Lemma distribution_inherited c l d :
  In c objectPrototypeMembers -> (forall n, sget c d <> Some (DCount n)) ->
  forall n, sget c (fold_left count_content_type l d) <> Some (DCount n).
Proof.
  intros Hc. revert d. induction l as [|x l IH]; intros d Hd; simpl; [exact Hd|].
  apply IH. intros n. destruct (string_dec c x) as [<-|Hne].
  - unfold count_content_type. destruct (sget c d) as [[m|nm k]|] eqn:E.
    + exfalso. exact (Hd m eq_refl).
    + unfold sget, sset. rewrite mget_mset_same. discriminate.
    + destruct (string_dec c "__proto__"); [rewrite E; discriminate|].
      destruct (shas string_dec c objectPrototypeMembers) eqn:Hs.
      * unfold sget, sset. rewrite mget_mset_same. discriminate.
      * exfalso. apply (proj2 (shas_In string_dec _ _)) in Hc. congruence.
  - rewrite sget_count_content_type_other by exact Hne. apply Hd.
Qed.

(** X5: in [getMemoryDistribution], a content type [c] that is not the name
    of a member inherited from [Object.prototype] maps to the number of
    records of that content type (and is absent when there are none); a
    content type such as ['constructor'] or ['toString'] never maps to a
    count. *)
Theorem getMemoryDistribution_counts (st : Store) (c : string) :
  (~ In c objectPrototypeMembers ->
   sget c (getMemoryDistribution st) =
   count_of (length (filter (fun p => if string_dec (contentType (snd p)) c then true else false)
                            (memoryStore st)))) /\
  (In c objectPrototypeMembers -> forall n, sget c (getMemoryDistribution st) <> Some (DCount n)).
Proof.
  split.
  - intros Hc. unfold getMemoryDistribution. rewrite (distribution_plain c _ [] 0 Hc eq_refl).
    f_equal. unfold content_count. induction (memoryStore st) as [|p l IH]; simpl; [reflexivity|].
    destruct (string_dec (contentType (snd p)) c); simpl; [f_equal|]; exact IH.
  - intros Hc. apply distribution_inherited; [exact Hc|]. intros n. discriminate.
Qed.

Lemma getMemoryDistribution_counts_witness :
  sget "general" (getMemoryDistribution evictionSample) = Some (DCount 3) /\
  sget "constructor" (getMemoryDistribution (set_memoryStore (emptyStore 5)
     [("a", {| memoryId := "a"; timestamp := 1; url := ""; domain := ""; textSummary := "";
               textConfidence := 0; visionSynthesis := ""; visionConfidence := 0;
               unifiedAnalysis := ""; orchestratorConfidence := 0; unified := None;
               textEmbedding := None; visionEmbedding := None; dimension := 0;
               contentType := "constructor"; pageType := "page"; topics := [];
               categories := []; quality := None; confidence := None; tf_hour := 0;
               tf_dayOfWeek := 0; tf_month := 0; tf_season := "winter";
               processingTime := None; synthesisApproach := None |})]%string)) =
    Some (DInherited "constructor" 1).
Proof.
  split.
  - rewrite (proj1 (getMemoryDistribution_counts evictionSample "general")).
    + reflexivity.
    + simpl. intuition discriminate.
  - vm_compute. reflexivity.
Defined.

(** ** Sorting on a key, with a comparator that agrees on the elements *)

Section SortExt.
Context {A : Type} (P : A -> Prop) (b1 b2 : A -> A -> bool).
Hypothesis Hb : forall x y, P x -> P y -> b1 x y = b2 x y.

Lemma insert_sorted_perm_any (b : A -> A -> bool) (x : A) (l : list A) :
  Permutation (insert_sorted b x l) (x :: l).
Proof.
  induction l as [|y l IH]; simpl; [reflexivity|].
  destruct (b x y); [reflexivity|]. rewrite IH. apply perm_swap.
Qed.

Lemma insert_sorted_ext (x : A) (l : list A) :
  P x -> Forall P l -> insert_sorted b1 x l = insert_sorted b2 x l.
Proof.
  intros Hx. induction l as [|y l IH]; intros Hl; simpl; [reflexivity|].
  apply Forall_cons_iff in Hl as [Hy Hl].
  rewrite (Hb x y Hx Hy). destruct (b2 x y); [reflexivity|]. rewrite IH by exact Hl. reflexivity.
Qed.

Lemma sort_by_aux_ext (acc l : list A) :
  Forall P acc -> Forall P l -> sort_by_aux b1 acc l = sort_by_aux b2 acc l.
Proof.
  revert acc. induction l as [|x l IH]; intros acc Ha Hl; simpl; [reflexivity|].
  apply Forall_cons_iff in Hl as [Hx Hl].
  rewrite insert_sorted_ext by assumption. apply IH; [|exact Hl].
  apply (Permutation_Forall (Permutation_sym (insert_sorted_perm_any b2 x acc))).
  constructor; assumption.
Qed.

Lemma sort_by_ext (l : list A) : Forall P l -> sort_by b1 l = sort_by b2 l.
Proof. intros Hl. apply sort_by_aux_ext; [constructor|exact Hl]. Qed.
End SortExt.

Lemma StronglySorted_firstn {A} (R : A -> A -> Prop) n (l : list A) :
  StronglySorted R l -> StronglySorted R (firstn n l).
Proof.
  revert l. induction n as [|n IH]; intros [|x l] H; simpl; [constructor|constructor|constructor|].
  apply StronglySorted_inv in H as [H1 H2]. constructor; [apply IH; exact H1|].
  rewrite Forall_forall in *. intros y Hy. apply H2. exact (In_firstn _ _ _ Hy).
Qed.

Lemma StronglySorted_mono {A} (R1 R2 : A -> A -> Prop) (l : list A) :
  (forall x y, R1 x y -> R2 x y) -> StronglySorted R1 l -> StronglySorted R2 l.
Proof.
  intros H. induction l as [|x l IH]; intros Hs; [constructor|].
  apply StronglySorted_inv in Hs as [H1 H2]. constructor; [apply IH; exact H1|].
  rewrite Forall_forall in *. intros y Hy. apply H. apply H2. exact Hy.
Qed.

(** Sorting by an integer key: the result is a sorted permutation, and
    its first [n] elements are at most as large as every other element. *)
Lemma sort_by_key_top {A} (f : A -> Z) (l : list A) (n : nat) :
  let s := sort_by (fun x y => (f x <? f y)%Z) l in
  Permutation s l /\ StronglySorted (fun x y => (f x <= f y)%Z) s /\
  (forall x y, In x (firstn n s) -> In y (skipn n s) -> (f x <= f y)%Z).
Proof.
  intros s. split; [apply sort_by_perm|]. split.
  - apply sort_by_aux_sorted. constructor.
  - assert (Hs : StronglySorted (fun x y => (f x <= f y)%Z) s)
      by (apply sort_by_aux_sorted; constructor).
    intros x y Hx Hy. rewrite <- (firstn_skipn n s) in Hs.
    exact (StronglySorted_app_rel _ _ _ _ _ Hs Hx Hy).
Qed.

Lemma js_slice0_nonneg {A} (l : list A) (n : Z) :
  (0 <= n)%Z -> js_slice0 l n = firstn (Z.to_nat n) l.
Proof. intros H. unfold js_slice0. destruct (Z.ltb_spec n 0); [lia|reflexivity]. Qed.

(** ** Top categories and domains *)

Lemma mget_In_NoDup {V} (l : list (string * V)) k v :
  NoDup (map fst l) -> In (k, v) l -> sget k l = Some v.
Proof.
  induction l as [|[k' v'] l IH]; intros Hn Hin; [destruct Hin|].
  simpl in Hn. apply NoDup_cons_iff in Hn as [Hk Hn]. unfold sget. simpl.
  destruct Hin as [Heq|Hin].
  - injection Heq as -> ->. destruct (string_dec k k); congruence.
  - destruct (string_dec k k') as [->|]; [|apply IH; assumption].
    exfalso. apply Hk. apply (in_map fst) in Hin. exact Hin.
Qed.

Lemma fold_sset_counts (l : list (string * list string)) m :
  fold_left (fun m kv => sset (fst kv) (length (snd kv)) m) l m =
  fold_left (fun m kv => mset string_dec (fst kv) (snd kv) m)
            (map (fun kv => (fst kv, length (snd kv))) l) m.
Proof. revert m. induction l as [|kv l IH]; intros m; simpl; [reflexivity|]. apply IH. Qed.

Lemma topCounts_ok (index : list (string * list string)) :
  NoDup (map fst index) -> top_ok index (topCounts index).
Proof.
  intros Hn. unfold topCounts. cbv zeta.
  set (g := fun kv : string * list string => (fst kv, length (snd kv))).
  assert (Hg : NoDup (map fst (map g index))) by (rewrite map_map; exact Hn).
  rewrite fold_sset_counts. fold g.
  rewrite (fold_mset_fresh string_dec (map g index) []) by (assumption || reflexivity).
  simpl app.
  set (f := fun p : string * nat => (- Z.of_nat (snd p))%Z).
  assert (Hs : sort_by larger_count (map g index) = sort_by (fun x y => (f x <? f y)%Z) (map g index)).
  { apply (sort_by_ext (fun _ => True)); [|apply Forall_forall; trivial].
    intros x y _ _. unfold larger_count, f.
    destruct (Nat.ltb_spec (snd y) (snd x)); destruct (Z.ltb_spec (- Z.of_nat (snd x)) (- Z.of_nat (snd y)));
      reflexivity || lia. }
  rewrite Hs, js_slice0_nonneg by lia. change (Z.to_nat 10) with 10%nat.
  destruct (sort_by_key_top f (map g index) 10) as (Hp & Hsorted & Htop).
  set (s := sort_by (fun x y => (f x <? f y)%Z) (map g index)) in *.
  assert (Hns : NoDup (map fst s)) by (apply (Permutation_NoDup (Permutation_map fst (Permutation_sym Hp))); exact Hg).
  split; [|split; [|split; [|split]]].
  - rewrite length_firstn, (Permutation_length Hp), length_map. reflexivity.
  - rewrite <- firstn_map. apply NoDup_firstn_str. exact Hns.
  - intros k n Hin. apply In_firstn in Hin. apply (Permutation_in _ Hp) in Hin.
    apply in_map_iff in Hin as ([k' s'] & Heq & Hin). unfold g in Heq. simpl in Heq.
    injection Heq as -> <-. exists s'. split; [apply mget_In_NoDup; assumption|reflexivity].
  - apply StronglySorted_firstn. refine (StronglySorted_mono _ _ _ _ Hsorted). intros x y H. unfold f in H. lia.
  - intros k s0 Hin Hnot q Hq.
    assert (Hks : In (k, length s0) s)
      by (apply (Permutation_in _ (Permutation_sym Hp)); apply in_map_iff; exists (k, s0); split; reflexivity || exact Hin).
    rewrite <- (firstn_skipn 10 s) in Hks. apply in_app_or in Hks as [Hks|Hks].
    + exfalso. apply Hnot. rewrite <- firstn_map. apply (in_map fst) in Hks. rewrite firstn_map. exact Hks.
    + specialize (Htop q _ Hq Hks). unfold f in Htop. simpl in Htop. lia.
Qed.

(** X6: for an index with distinct keys, [getTopCategories] and
    [getTopDomains] list at most ten distinct keys, [min 10 n] of the [n]
    keys, each with the size of its set, in non-increasing order of size;
    every key left out has a set no larger than any listed one. *)
Theorem getTopCategories_getTopDomains (st : Store) :
  (NoDup (map fst (semanticCategories st)) ->
   top_ok (semanticCategories st) (getTopCategories st)) /\
  (NoDup (map fst (domainClusters st)) -> top_ok (domainClusters st) (getTopDomains st)).
Proof. split; intros Hn; apply topCounts_ok; exact Hn. Qed.

Lemma getTopCategories_getTopDomains_witness :
  let st := set_domainClusters
              (set_semanticCategories (emptyStore 1)
                 [("news", ["a"]); ("tech", ["a"; "b"; "c"]); ("art", ["b"; "c"])]%string)
              [("example.com", ["a"; "b"])]%string in
  getTopCategories st = [("tech"%string, 3%nat); ("art"%string, 2%nat); ("news"%string, 1%nat)] /\
  top_ok (semanticCategories st) (getTopCategories st) /\
  top_ok (domainClusters st) (getTopDomains st).
Proof.
  intros st. destruct (getTopCategories_getTopDomains st) as [H1 H2]. split; [|split].
  - vm_compute. reflexivity.
  - apply H1. vm_compute. repeat constructor; simpl; intuition discriminate.
  - apply H2. vm_compute. repeat constructor; simpl; intuition discriminate.
Defined.

(** ** Recent memories *)

(** X7: when [limit >= 0] and every time stamp is a valid [Date] value,
    [getRecentMemories(limit)] returns [min limit n] of the [n] stored
    records, newest first, and no record left out is newer than a returned
    one. *)
Theorem getRecentMemories_newest (limit : Z) (st : Store) :
  (0 <= limit)%Z ->
  (forall p, In p (memoryStore st) -> (Z.abs (timestamp (snd p)) <= 8640000000000000)%Z) ->
  let r := getRecentMemories limit st in
  length r = Nat.min (Z.to_nat limit) (length (memoryStore st)) /\
  StronglySorted (fun a b => (timestamp b <= timestamp a)%Z) r /\
  exists rest, Permutation (map snd (memoryStore st)) (r ++ rest) /\
    forall a b, In a r -> In b rest -> (timestamp b <= timestamp a)%Z.
Proof.
  intros Hl Hv r. unfold r, getRecentMemories. rewrite js_slice0_nonneg by exact Hl.
  set (f := fun m : MemoryEntry => (- timestamp m)%Z).
  set (l := map snd (memoryStore st)).
  assert (Hs : sort_by more_recent l = sort_by (fun x y => (f x <? f y)%Z) l).
  { apply (sort_by_ext (fun m => (Z.abs (timestamp m) <= 8640000000000000)%Z)).
    - intros x y Hx Hy. unfold more_recent, dateValue, f.
      apply Z.leb_le in Hx, Hy. rewrite Hx, Hy.
      destruct (Z.ltb_spec (timestamp y) (timestamp x));
        destruct (Z.ltb_spec (- timestamp x) (- timestamp y)); reflexivity || lia.
    - apply Forall_forall. intros m Hm. unfold l in Hm. apply in_map_iff in Hm as (p & <- & Hp).
      exact (Hv p Hp). }
  rewrite Hs. destruct (sort_by_key_top f l (Z.to_nat limit)) as (Hp & Hsorted & Htop).
  set (s := sort_by (fun x y => (f x <? f y)%Z) l) in *.
  split; [|split].
  - rewrite length_firstn, (Permutation_length Hp). unfold l. rewrite length_map. reflexivity.
  - apply StronglySorted_firstn. refine (StronglySorted_mono _ _ _ _ Hsorted). intros x y H. unfold f in H. lia.
  - exists (skipn (Z.to_nat limit) s). split.
    + rewrite firstn_skipn. apply Permutation_sym. exact Hp.
    + intros a b Ha Hb. specialize (Htop a b Ha Hb). unfold f in Htop. lia.
Qed.

Lemma getRecentMemories_newest_witness :
  map memoryId (getRecentMemories 2 evictionSample) = ["a"; "c"]%string /\
  length (getRecentMemories 2 evictionSample) = 2%nat.
Proof.
  destruct (getRecentMemories_newest 2 evictionSample) as (H1 & _ & _).
  - lia.
  - intros p Hp. simpl in Hp. destruct Hp as [<-|[<-|[<-|[]]]]; simpl; lia.
  - split; [vm_compute; reflexivity|exact H1].
Defined.

(** ** Search *)

Section SortRel.
Context {A : Type} (b : A -> A -> bool) (le : A -> A -> Prop).
Hypothesis Htrue : forall x y, b x y = true -> le x y.
Hypothesis Hfalse : forall x y, b x y = false -> le y x.
Hypothesis Htrans : forall x y z, le x y -> le y z -> le x z.

Lemma insert_sorted_rel (x : A) (l : list A) :
  StronglySorted le l -> StronglySorted le (insert_sorted b x l).
Proof.
  induction l as [|y l IH]; intros Hs; simpl; [repeat constructor|].
  apply StronglySorted_inv in Hs as [Hl Hf].
  destruct (b x y) eqn:E.
  - constructor; [constructor; assumption|]. constructor; [apply Htrue; exact E|].
    rewrite Forall_forall in Hf |- *. intros z Hz. apply (Htrans _ y); [apply Htrue; exact E|].
    apply Hf; exact Hz.
  - constructor; [apply IH; exact Hl|].
    apply (Permutation_Forall (Permutation_sym (insert_sorted_perm_any b x l))).
    constructor; [apply Hfalse; exact E|exact Hf].
Qed.

Lemma sort_by_rel (l : list A) : StronglySorted le (sort_by b l).
Proof.
  unfold sort_by. assert (H : StronglySorted le (@nil A)) by constructor. revert H.
  generalize (@nil A). induction l as [|x l IH]; intros acc H; simpl; [exact H|].
  apply IH. apply insert_sorted_rel. exact H.
Qed.
End SortRel.

Lemma sort_by_perm_any {A} (b : A -> A -> bool) (l : list A) : Permutation (sort_by b l) l.
Proof.
  unfold sort_by. change l with ([] ++ l) at 2. generalize (@nil A).
  induction l as [|x l IH]; intros acc; simpl.
  - rewrite app_nil_r. reflexivity.
  - rewrite IH, insert_sorted_perm_any. simpl. apply Permutation_middle.
Qed.

Lemma StronglySorted_map {A B} (R1 : A -> A -> Prop) (R2 : B -> B -> Prop) (g : A -> B) l :
  (forall x y, R1 x y -> R2 (g x) (g y)) -> StronglySorted R1 l -> StronglySorted R2 (map g l).
Proof.
  intros H. induction l as [|x l IH]; intros Hs; simpl; [constructor|].
  apply StronglySorted_inv in Hs as [H1 H2]. constructor; [apply IH; exact H1|].
  apply Forall_map. rewrite Forall_forall in *. intros y Hy. apply H, H2, Hy.
Qed.

Lemma In_js_slice0 {A} (l : list A) n x : In x (js_slice0 l n) -> In x l.
Proof. unfold js_slice0. destruct (n <? 0)%Z; apply In_firstn. Qed.

Lemma StronglySorted_js_slice0 {A} (R : A -> A -> Prop) (l : list A) n :
  StronglySorted R l -> StronglySorted R (js_slice0 l n).
Proof. unfold js_slice0. destruct (n <? 0)%Z; apply StronglySorted_firstn. Qed.

Lemma findSimilarMemories_none q th ms idx :
  findSimilarMemories q th ms idx = None <->
  exists mid ee, In (mid, ee) idx /\ th <= calculateCosineSimilarity q (ee_unified ee) /\
                 sget mid ms = None.
Proof.
  induction idx as [|[mid ee] idx IH]; simpl.
  - split; [discriminate|]. intros (? & ? & [] & _).
  - destruct (Rle_dec th (calculateCosineSimilarity q (ee_unified ee))) as [Hle|Hnle].
    + destruct (sget mid ms) as [m|] eqn:E.
      * destruct (findSimilarMemories q th ms idx) as [rest|] eqn:F; simpl.
        -- split; [discriminate|]. intros (mid' & ee' & [Heq|Hin] & H1 & H2).
           ++ injection Heq as -> ->. congruence.
           ++ assert (Hn : Some rest = None) by (apply IH; exists mid', ee'; tauto). discriminate.
        -- split; [|reflexivity]. intros _. destruct IH as [IH _].
           destruct (IH eq_refl) as (mid' & ee' & H0 & H1 & H2). exists mid', ee'. tauto.
      * split; [|reflexivity]. intros _. exists mid, ee. tauto.
    + rewrite IH. split.
      * intros (mid' & ee' & H0 & H1 & H2). exists mid', ee'. tauto.
      * intros (mid' & ee' & [Heq|H0] & H1 & H2).
        -- injection Heq as -> ->. contradiction.
        -- exists mid', ee'. tauto.
Qed.

Lemma findSimilarMemories_some q th ms idx hs :
  findSimilarMemories q th ms idx = Some hs -> forall h, In h hs ->
  (exists ee, In (hit_memoryId h, ee) idx /\
              hit_similarity h = calculateCosineSimilarity q (ee_unified ee)) /\
  th <= hit_similarity h /\ sget (hit_memoryId h) ms = Some (hit_memory h) /\
  hit_relationships h = None.
Proof.
  revert hs. induction idx as [|[mid ee] idx IH]; intros hs Hf h Hh; simpl in Hf.
  - injection Hf as <-. destruct Hh.
  - destruct (Rle_dec th (calculateCosineSimilarity q (ee_unified ee))) as [Hle|Hnle].
    + destruct (sget mid ms) as [m|] eqn:E; [|discriminate].
      destruct (findSimilarMemories q th ms idx) as [rest|] eqn:F; [|discriminate].
      simpl in Hf. injection Hf as <-. destruct Hh as [<-|Hh].
      * simpl. split; [exists ee; split; [left; reflexivity|reflexivity]|]. tauto.
      * destruct (IH rest eq_refl h Hh) as ((ee' & H1 & H2) & H3).
        split; [exists ee'; split; [right; exact H1|exact H2]|exact H3].
    + destruct (IH hs Hf h Hh) as ((ee' & H1 & H2) & H3).
      split; [exists ee'; split; [right; exact H1|exact H2]|exact H3].
Qed.

Lemma applyFilters_In (o : SearchOptions) hs h :
  In h (applyFilters o hs) <-> In h hs /\ passes_filters o (hit_memory h).
Proof.
  unfold applyFilters, passes_filters. cbv zeta.
  match goal with |- context [match opt_categoryFilter o with Some _ => _ | None => ?f1 end] =>
    set (F1 := f1) end.
  assert (HF1 : forall h, In h F1 <-> In h hs /\
            (forall d, opt_domainFilter o = Some d -> truthy_str d = true -> domain (hit_memory h) = d)).
  { intros h'. unfold F1. destruct (opt_domainFilter o) as [d|].
    - destruct (truthy_str d) eqn:Td.
      + rewrite filter_In. destruct (string_dec (domain (hit_memory h')) d) as [Hd|Hd].
        * split; [intros [H _]; split; [exact H|intros d' Hd' _; injection Hd' as <-; exact Hd]|].
          intros [H _]. split; [exact H|reflexivity].
        * split; [intros [_ H]; discriminate|]. intros [_ H]. exfalso. apply Hd. apply H; reflexivity || exact Td.
      + split; [intros H; split; [exact H|intros d' Hd' Td'; injection Hd' as <-; congruence]|tauto].
    - split; [intros H; split; [exact H|discriminate]|tauto]. }
  clearbody F1.
  match goal with |- context [match opt_temporalFilter o with Some _ => _ | None => ?f2 end] =>
    set (F2 := f2) end.
  assert (HF2 : forall h, In h F2 <-> In h F1 /\
            (forall c, opt_categoryFilter o = Some c -> truthy_str c = true -> In c (categories (hit_memory h)))).
  { intros h'. unfold F2. destruct (opt_categoryFilter o) as [c|].
    - destruct (truthy_str c) eqn:Tc.
      + rewrite filter_In, (shas_In string_dec).
        split; [intros [H1 H2]; split; [exact H1|intros c' Hc' _; injection Hc' as <-; exact H2]|].
        intros [H1 H2]. split; [exact H1|apply H2; reflexivity || exact Tc].
      + split; [intros H; split; [exact H|intros c' Hc' Tc'; injection Hc' as <-; congruence]|tauto].
    - split; [intros H; split; [exact H|discriminate]|tauto]. }
  clearbody F2.
  destruct (opt_temporalFilter o) as [[s e]|].
  - rewrite filter_In, andb_true_iff, !Z.leb_le, HF2, HF1.
    split.
    + intros [[[H0 H1] H2] H3]. split; [exact H0|]. split; [exact H1|]. split; [exact H2|].
      intros s' e' Hse. injection Hse as <- <-. exact H3.
    + intros [H0 (H1 & H2 & H3)]. split; [tauto|]. apply H3. reflexivity.
  - rewrite HF2, HF1. split.
    + intros [[H0 H1] H2]. split; [exact H0|]. split; [exact H1|]. split; [exact H2|discriminate].
    + intros [H0 (H1 & H2 & H3)]. tauto.
Qed.

Lemma enhanceWithRelationships_In st hs h' :
  In h' (enhanceWithRelationships st hs) ->
  exists h, In h hs /\ hit_memoryId h' = hit_memoryId h /\ hit_similarity h' = hit_similarity h /\
    hit_memory h' = hit_memory h /\
    exists rels, hit_relationships h' = Some rels /\
      forall rm, In rm rels -> exists rel, In rel (edges (hit_memoryId h) (relationshipGraph st)) /\
        rel_type rel = rm_type rm /\ strength rel = rm_strength rm /\
        sget (targetId rel) (memoryStore st) = Some (rm_memory rm).
Proof.
  unfold enhanceWithRelationships. rewrite in_map_iff. intros (h & <- & Hh).
  exists h. simpl. split; [exact Hh|]. do 3 (split; [reflexivity|]).
  eexists; split; [reflexivity|]. intros rm Hrm. apply in_flat_map in Hrm as (rel & Hrel & Hrm).
  exists rel. split; [exact Hrel|].
  destruct (sget (targetId rel) (memoryStore st)) as [m|]; [|destruct Hrm].
  destruct Hrm as [<-|[]]. simpl. tauto.
Qed.

Lemma search_unfold st query o qemb :
  sr_error (searchMemories st query o qemb) = None ->
  exists sims,
    match qemb with
    | Some q => findSimilarMemories q (opt_threshold o) (memoryStore st) (embeddingIndex st)
    | None => Some []
    end = Some sims /\
    sr_results (searchMemories st query o qemb) =
      (let ranked := js_slice0 (sort_by by_similarity (applyFilters o sims)) (opt_limit o) in
       if opt_includeRelationships o then enhanceWithRelationships st ranked else ranked).
Proof.
  unfold searchMemories. intros H.
  destruct (match qemb with
            | Some q => findSimilarMemories q (opt_threshold o) (memoryStore st) (embeddingIndex st)
            | None => Some []
            end) as [sims|]; [|discriminate].
  exists sims. split; reflexivity.
Qed.

Lemma by_similarity_sorted hs :
  StronglySorted (fun a b => hit_similarity b <= hit_similarity a) (sort_by by_similarity hs).
Proof.
  apply sort_by_rel.
  - intros x y. unfold by_similarity. destruct (Rlt_dec (hit_similarity y) (hit_similarity x)); [lra|discriminate].
  - intros x y. unfold by_similarity. destruct (Rlt_dec (hit_similarity y) (hit_similarity x)); [discriminate|lra].
  - intros x y z. lra.
Qed.

(** X8: [searchMemories] returns an error ([TypeError]) exactly when a
    query embedding was obtained and some id of the embedding index with a
    similarity at or above the threshold has no record in [memoryStore];
    an error result carries no results and no metrics. *)
Theorem searchMemories_error_iff (st : Store) (query : string) (o : SearchOptions)
  (qemb : option (list R)) :
  let r := searchMemories st query o qemb in
  (sr_error r = Some "TypeError"%string <->
   exists q mid ee, qemb = Some q /\ In (mid, ee) (embeddingIndex st) /\
     opt_threshold o <= calculateCosineSimilarity q (ee_unified ee) /\
     sget mid (memoryStore st) = None) /\
  (sr_error r <> None -> sr_results r = [] /\ sr_totalFound r = 0%nat /\ sr_searchMetrics r = None).
Proof.
  intros r. unfold r, searchMemories. destruct qemb as [q|].
  - destruct (findSimilarMemories q (opt_threshold o) (memoryStore st) (embeddingIndex st))
      as [sims|] eqn:F; simpl.
    + split; [|intros H; contradiction H; reflexivity]. split; [discriminate|].
      intros (q' & mid & ee & Hq & H). injection Hq as <-.
      assert (Hn : findSimilarMemories q (opt_threshold o) (memoryStore st) (embeddingIndex st) = None)
        by (apply findSimilarMemories_none; exists mid, ee; exact H).
      congruence.
    + split; [|tauto]. split; [intros _|reflexivity].
      apply findSimilarMemories_none in F as (mid & ee & H). exists q, mid, ee. tauto.
  - simpl. split; [|intros H; contradiction H; reflexivity]. split; [discriminate|].
    intros (q' & _ & _ & Hq & _). discriminate.
Qed.

(** X9: every hit of a successful [searchMemories] comes from an entry of
    the embedding index whose cosine similarity with the query embedding is
    the hit's similarity and at least the threshold; its record is the one
    stored under its id, and the record passes every filter given. *)
Theorem searchMemories_hits_sound (st : Store) (query : string) (o : SearchOptions)
  (qemb : option (list R)) (h : SearchHit) :
  let r := searchMemories st query o qemb in
  sr_error r = None -> In h (sr_results r) ->
  (exists q ee, qemb = Some q /\ In (hit_memoryId h, ee) (embeddingIndex st) /\
     hit_similarity h = calculateCosineSimilarity q (ee_unified ee)) /\
  opt_threshold o <= hit_similarity h /\
  sget (hit_memoryId h) (memoryStore st) = Some (hit_memory h) /\
  passes_filters o (hit_memory h).
Proof.
  intros r He Hh. destruct (search_unfold st query o qemb He) as (sims & Hs & Hr).
  unfold r in Hh. rewrite Hr in Hh. cbv zeta in Hh.
  assert (Hsrc : exists h0, In h0 sims /\ passes_filters o (hit_memory h0) /\
            hit_memoryId h = hit_memoryId h0 /\ hit_similarity h = hit_similarity h0 /\
            hit_memory h = hit_memory h0).
  { set (ranked := js_slice0 _ _) in Hh.
    assert (Hin : forall x, In x ranked -> In x sims /\ passes_filters o (hit_memory x)).
    { intros x Hx. apply In_js_slice0 in Hx.
      apply (Permutation_in _ (sort_by_perm_any by_similarity _)) in Hx.
      apply applyFilters_In. exact Hx. }
    destruct (opt_includeRelationships o).
    - apply enhanceWithRelationships_In in Hh as (h0 & H0 & H1 & H2 & H3 & _).
      exists h0. destruct (Hin h0 H0). tauto.
    - exists h. destruct (Hin h Hh). tauto. }
  destruct Hsrc as (h0 & Hin & Hp & E1 & E2 & E3). rewrite E1, E2, E3.
  destruct qemb as [q|]; [|injection Hs as <-; destruct Hin].
  destruct (findSimilarMemories_some _ _ _ _ _ Hs h0 Hin) as ((ee & H1 & H2) & H3 & H4 & _).
  split; [exists q, ee; tauto|]. tauto.
Qed.

(** X10: the results of a successful [searchMemories] are in
    non-increasing order of similarity and, for a limit [>= 0], at most
    [limit] many; with [includeRelationships] the related memories of every
    hit are exactly the edges of its own relationship list, in order, whose
    target is stored, each turned into its type, its strength and the stored
    target record (edges to a missing target are dropped); without it a hit
    has no related memories. *)
Theorem searchMemories_ranked (st : Store) (query : string) (o : SearchOptions)
  (qemb : option (list R)) :
  let r := searchMemories st query o qemb in
  sr_error r = None ->
  StronglySorted (fun a b => hit_similarity b <= hit_similarity a) (sr_results r) /\
  ((0 <= opt_limit o)%Z -> (length (sr_results r) <= Z.to_nat (opt_limit o))%nat) /\
  (forall h, In h (sr_results r) ->
     if opt_includeRelationships o then
       hit_relationships h =
         Some (flat_map (fun rel => match sget (targetId rel) (memoryStore st) with
                                    | Some m => [{| rm_type := rel_type rel;
                                                    rm_strength := strength rel;
                                                    rm_memory := m |}]
                                    | None => []
                                    end)
                        (edges (hit_memoryId h) (relationshipGraph st)))
     else hit_relationships h = None).
Proof.
  intros r He. destruct (search_unfold st query o qemb He) as (sims & Hs & Hr).
  unfold r. rewrite Hr. cbv zeta.
  set (ranked := js_slice0 (sort_by by_similarity (applyFilters o sims)) (opt_limit o)).
  assert (Hsorted : StronglySorted (fun a b => hit_similarity b <= hit_similarity a) ranked)
    by (apply StronglySorted_js_slice0, by_similarity_sorted).
  assert (Hlen : (0 <= opt_limit o)%Z -> (length ranked <= Z.to_nat (opt_limit o))%nat)
    by (intros Hl; unfold ranked; rewrite js_slice0_nonneg by exact Hl; rewrite length_firstn; lia).
  assert (Hnone : forall h, In h ranked -> hit_relationships h = None).
  { intros h Hh. apply In_js_slice0 in Hh.
    apply (Permutation_in _ (sort_by_perm_any by_similarity _)) in Hh.
    apply applyFilters_In in Hh as [Hh _].
    destruct qemb as [q|]; [|injection Hs as <-; destruct Hh].
    exact (proj2 (proj2 (proj2 (findSimilarMemories_some _ _ _ _ _ Hs h Hh)))). }
  destruct (opt_includeRelationships o).
  - split; [|split].
    + unfold enhanceWithRelationships. refine (StronglySorted_map _ _ _ _ _ Hsorted). intros x y H. exact H.
    + intros Hl. unfold enhanceWithRelationships. rewrite length_map. exact (Hlen Hl).
    + intros h Hh. unfold enhanceWithRelationships in Hh.
      apply in_map_iff in Hh as (h0 & <- & _). reflexivity.
  - split; [exact Hsorted|]. split; [exact Hlen|exact Hnone].
Qed.

Lemma calculateCosineSimilarity_unit : calculateCosineSimilarity [1] [1] = 1.
Proof.
  unfold calculateCosineSimilarity. cbn [length Nat.eqb cos_loop].
  replace (0 + 1 * 1) with 1 by ring. rewrite sqrt_1.
  destruct (Req_dec_T (1 * 1) 0); [lra|]. field.
Qed.

Lemma searchSample_similar :
  findSimilarMemories [1] 0.7 (memoryStore searchSample) (embeddingIndex searchSample) =
  Some [{| hit_memoryId := "a"; hit_similarity := 1; hit_memory := sampleEmbEntry "a" 1000 [1];
           hit_url := "https://example.com/"; hit_timestamp := 1000;
           hit_summary := "No summary available"; hit_relationships := None |}].
Proof.
  cbn [findSimilarMemories searchSample set_relationshipGraph set_embeddingIndex set_memoryStore
       embeddingIndex memoryStore ee_unified sampleEmbedding].
  rewrite calculateCosineSimilarity_unit. destruct (Rle_dec 0.7 1) as [_|H]; [|lra].
  reflexivity.
Qed.

Lemma searchSample_run :
  sr_error (searchMemories searchSample "q" defaultSearchOptions (Some [1])) = None /\
  sr_results (searchMemories searchSample "q" defaultSearchOptions (Some [1])) = [searchSampleHit].
Proof.
  unfold searchMemories. change (opt_threshold defaultSearchOptions) with 0.7.
  rewrite searchSample_similar. split; reflexivity.
Qed.

Lemma searchMemories_hits_sound_witness :
  let r := searchMemories searchSample "q" defaultSearchOptions (Some [1]) in
  sr_error r = None /\ In searchSampleHit (sr_results r) /\
  sget "a" (memoryStore searchSample) = Some (sampleEmbEntry "a" 1000 [1]) /\
  opt_threshold defaultSearchOptions <= 1.
Proof.
  intros r. destruct searchSample_run as [He Hr].
  assert (Hh : In searchSampleHit (sr_results r)) by (unfold r; rewrite Hr; left; reflexivity).
  destruct (searchMemories_hits_sound searchSample "q" defaultSearchOptions (Some [1])
              searchSampleHit He Hh) as (_ & H1 & H2 & _).
  split; [exact He|]. split; [exact Hh|]. split; [exact H2|exact H1].
Defined.

Lemma searchMemories_ranked_witness :
  let r := searchMemories searchSample "q" defaultSearchOptions (Some [1]) in
  sr_error r = None /\ (length (sr_results r) <= 10)%nat /\
  StronglySorted (fun a b => hit_similarity b <= hit_similarity a) (sr_results r).
Proof.
  intros r. destruct searchSample_run as [He _].
  destruct (searchMemories_ranked searchSample "q" defaultSearchOptions (Some [1]) He)
    as (H1 & H2 & _).
  split; [exact He|]. split; [apply H2; cbn; lia|exact H1].
Defined.

(** ** Removal *)

Lemma In_mmap {K V} (f : V -> V) (m : list (K * V)) k v :
  In (k, v) (mmap f m) <-> exists v0, In (k, v0) m /\ v = f v0.
Proof.
  unfold mmap. rewrite in_map_iff. split.
  - intros ([k0 v0] & Heq & Hin). injection Heq as <- <-. exists v0. tauto.
  - intros (v0 & Hin & ->). exists (k, v0). tauto.
Qed.

(** X16: after [removeMemory(id)], [id] has no record, no embedding and
    no relationship list, and no temporal bucket, category set, domain set
    or cluster member list holds it; every other relationship list loses
    only its first edge to [id]; clusters keep their centroids, and
    [embeddingBuckets] is left as it was. *)
Theorem removeMemory_purges (mid : string) (st : Store) :
  let st' := removeMemory mid st in
  sget mid (memoryStore st') = None /\ sget mid (embeddingIndex st') = None /\
  sget mid (relationshipGraph st') = None /\
  (forall g k s, In (k, s) (buckets g st') -> ~ In mid s) /\
  (forall k s, In (k, s) (semanticCategories st') -> ~ In mid s) /\
  (forall k s, In (k, s) (domainClusters st') -> ~ In mid s) /\
  (forall k c', In (k, c') (conceptClusters st') ->
     exists c, In (k, c) (conceptClusters st) /\ centroid c' = centroid c /\
       forall x, In x (members c') <-> In x (members c) /\ x <> mid) /\
  (forall k, k <> mid ->
     edges k (relationshipGraph st') = remove_first_target mid (edges k (relationshipGraph st))) /\
  embeddingBuckets st' = embeddingBuckets st.
Proof.
  intros st'.
  assert (Hset : forall {K} (m : list (K * list string)) k s,
            In (k, s) (mmap (sdelete string_dec mid) m) -> ~ In mid s).
  { intros K m k s Hin. apply In_mmap in Hin as (s0 & _ & ->).
    rewrite (In_sdelete string_dec). tauto. }
  unfold st', removeMemory. cbn [memoryStore embeddingIndex relationshipGraph conceptClusters
    semanticCategories domainClusters embeddingBuckets].
  split; [apply mget_mdelete_same|]. split; [apply mget_mdelete_same|].
  split; [unfold sget; rewrite mget_mmap, mget_mdelete_same; reflexivity|].
  split; [intros g k s; destruct g; apply Hset|].
  split; [apply Hset|]. split; [apply Hset|].
  split.
  - intros k c' Hin. apply In_mmap in Hin as (c & Hc & ->). exists c. split; [exact Hc|].
    split; [reflexivity|]. intros x. cbn [members with_members]. rewrite (In_sdelete string_dec). tauto.
  - split; [|reflexivity]. intros k Hk. unfold edges, sget. rewrite mget_mmap.
    rewrite mget_mdelete_other by exact Hk.
    destruct (mget string_dec k (relationshipGraph st)); reflexivity.
Qed.

(** ** Capacity at most zero *)

Lemma removeMemory_members_none k v st :
  (forall cid c, In (cid, c) (conceptClusters st) -> ~ In k (members c)) \/ k = v ->
  forall cid c, In (cid, c) (conceptClusters (removeMemory v st)) -> ~ In k (members c).
Proof.
  intros H cid c Hin. cbn [removeMemory conceptClusters] in Hin.
  apply In_mmap in Hin as (c0 & Hc0 & ->). cbn [members with_members].
  rewrite (In_sdelete string_dec). intros [Hk Hne].
  destruct H as [H|H]; [exact (H cid c0 Hc0 Hk)|congruence].
Qed.

Lemma fold_remove_gone (vs : list (string * MemoryEntry)) st k :
  In k (map fst vs) ->
  let st' := fold_left (fun st p => removeMemory (fst p) st) vs st in
  sget k (relationshipGraph st') = None /\
  forall cid c, In (cid, c) (conceptClusters st') -> ~ In k (members c).
Proof.
  assert (Hkeep : forall (vs : list (string * MemoryEntry)) st, sget k (relationshipGraph st) = None /\
            (forall cid c, In (cid, c) (conceptClusters st) -> ~ In k (members c)) ->
            let st' := fold_left (fun st p => removeMemory (fst p) st) vs st in
            sget k (relationshipGraph st') = None /\
            forall cid c, In (cid, c) (conceptClusters st') -> ~ In k (members c)).
  { induction vs0 as [|v vs0 IH]; intros st0 [H1 H2]; simpl; [tauto|].
    apply IH. split; [apply removeMemory_graph_none; left; exact H1|].
    apply removeMemory_members_none. left. exact H2. }
  revert st. induction vs as [|v vs IH]; intros st Hin; [destruct Hin|].
  destruct Hin as [Hv|Hin]; simpl.
  - apply Hkeep. split; [apply removeMemory_graph_none; right; congruence|].
    apply removeMemory_members_none. right. congruence.
  - apply IH. exact Hin.
Qed.

Lemma maintainMemoryLimits_nonpositive (st : Store) :
  (maxMemories st <= 0)%Z -> memoryStore st <> [] ->
  let st' := maintainMemoryLimits st in
  memoryStore st' = [] /\
  forall k, In k (map fst (memoryStore st)) ->
    sget k (relationshipGraph st') = None /\ getMemoryClusters k st' = [].
Proof.
  intros Hmax Hne st'.
  assert (Hlen : (1 <= length (memoryStore st))%nat)
    by (destruct (memoryStore st); [congruence|simpl; lia]).
  assert (Hv : evictionVictims st = sort_by older (memoryStore st)).
  { unfold evictionVictims. rewrite js_slice0_nonneg by lia. apply firstn_all2.
    rewrite (Permutation_length (sort_by_perm_any older _)). lia. }
  assert (Hperm : forall k, In k (map fst (memoryStore st)) -> In k (map fst (evictionVictims st))).
  { intros k Hk. rewrite Hv. exact (Permutation_in _ (Permutation_map fst (Permutation_sym (sort_by_perm_any older _))) Hk). }
  assert (Hst' : st' = fold_left (fun st p => removeMemory (fst p) st) (evictionVictims st) st).
  { unfold st', maintainMemoryLimits.
    destruct (Z.leb_spec (Z.of_nat (length (memoryStore st))) (maxMemories st)); [lia|reflexivity]. }
  split.
  - destruct (memoryStore st') as [|q qs] eqn:E; [reflexivity|exfalso].
    assert (Hq : In q (memoryStore st')) by (rewrite E; left; reflexivity).
    rewrite Hst' in Hq. apply memoryStore_fold_remove in Hq as [Hq Hn].
    apply Hn, Hperm, in_map, Hq.
  - intros k Hk. destruct (fold_remove_gone (evictionVictims st) st k (Hperm k Hk)) as [H1 H2].
    rewrite <- Hst' in H1, H2. split; [exact H1|].
    unfold getMemoryClusters. destruct (filter _ (conceptClusters st')) as [|[cid c] l] eqn:F;
      [reflexivity|exfalso].
    assert (Hin : In (cid, c) (filter (fun p => shas string_dec k (members (snd p))) (conceptClusters st')))
      by (rewrite F; left; reflexivity).
    apply filter_In in Hin as [Hin Hs]. apply (shas_In string_dec) in Hs. exact (H2 cid c Hin Hs).
Qed.

(** X11: with [maxMemories <= 0], a [storeMemory] whose record can be
    built reports [stored: true] with the new id, yet the record is evicted
    at once: the table ends empty, and the reported relationship and
    cluster counts are 0. *)
Theorem storeMemory_nonpositive_capacity (env : Env) (mid cid : string) (r : OrchestrationResult)
  (st : Store) (e : MemoryEntry) :
  createMemoryEntry env mid r = Some e -> (maxMemories st <= 0)%Z ->
  let (st', res) := storeMemory env mid cid r st in
  res_stored res = true /\ res_memoryId res = Some mid /\ res_error res = None /\
  memoryStore st' = [] /\ res_relationships res = 0%nat /\ res_clusters res = 0%nat.
Proof.
  intros He Hmax. unfold storeMemory. rewrite He. unfold insertEntry. cbv zeta.
  set (st7 := updateConceptClusters mid e cid (discoverRelationships env mid e (indexEntry env mid e st))).
  assert (Hms : memoryStore st7 = sset mid e (memoryStore st)) by apply memoryStore_before_limits.
  assert (Hmx : maxMemories st7 = maxMemories st) by apply maxMemories_before_limits.
  assert (Hin : In mid (map fst (memoryStore st7))).
  { rewrite Hms. assert (Hg : sget mid (sset mid e (memoryStore st)) = Some e)
      by (unfold sget, sset; apply mget_mset_same).
    revert Hg. generalize (sset mid e (memoryStore st)). intros m. unfold sget.
    induction m as [|[k v] m IH]; simpl; [discriminate|].
    destruct (string_dec mid k); [left; congruence|right; apply IH; assumption]. }
  assert (Hne : memoryStore st7 <> []) by (intros E; rewrite E in Hin; destruct Hin).
  destruct (maintainMemoryLimits_nonpositive st7 ltac:(lia) Hne) as [H1 H2].
  destruct (H2 mid Hin) as [H3 H4]. cbn [res_stored res_memoryId res_error res_relationships res_clusters].
  rewrite H3, H4. tauto.
Qed.

Lemma storeMemory_nonpositive_capacity_witness :
  let r := visionOnlyResult 1000 "https://ex.com/a" "one" in
  res_stored (snd (storeMemory utcEnv "A" "cA" r (emptyStore 0))) = true /\
  memoryStore (fst (storeMemory utcEnv "A" "cA" r (emptyStore 0))) = [] /\
  res_clusters (snd (storeMemory utcEnv "A" "cA" r (emptyStore 0))) = 0%nat.
Proof.
  intros r. destruct (createMemoryEntry utcEnv "A" r) as [e|] eqn:E;
    [|exfalso; vm_compute in E; discriminate].
  pose proof (storeMemory_nonpositive_capacity utcEnv "A" "cA" r (emptyStore 0) e E
                ltac:(cbn; lia)) as H.
  destruct (storeMemory utcEnv "A" "cA" r (emptyStore 0)) as [st' res]. cbn [fst snd]. tauto.
Defined.

(** ** Discovered relationships *)

Lemma similar_rels_In kind th t pick ex idx rel :
  In rel (similar_rels kind th t pick ex idx) ->
  rel_type rel = kind /\ targetId rel <> ex /\ th < strength rel.
Proof.
  unfold similar_rels. rewrite in_flat_map. intros ([k ee] & _ & Hin). cbn [fst snd] in Hin.
  destruct (string_dec k ex) as [_|Hne]; [destruct Hin|].
  destruct (pick ee) as [emb|]; [|destruct Hin].
  destruct (Rlt_dec th (calculateCosineSimilarity t emb)) as [Hlt|]; [|destruct Hin].
  destruct Hin as [<-|[]]. cbn. tauto.
Qed.

Lemma In_filter_neq_id ex l x : In x (filter (neq_id ex) l) -> x <> ex.
Proof.
  rewrite filter_In. unfold neq_id. intros [_ H]. destruct (string_dec x ex); [discriminate|exact n].
Qed.

Lemma length_firstn_le {A} n (l : list A) : (length (firstn n l) <= n)%nat.
Proof. rewrite length_firstn. lia. Qed.

(** X12: the relationships [discoverRelationships] finds for a record
    never point to the record itself, are at most 16 (5 by domain, 5
    semantic, 3 temporal, 3 visual), and each is a [domain-related] edge of
    strength 0.7, a [temporal-related] edge of strength 0.5, a
    [semantic-similar] edge stronger than 0.7 or a [visual-similar] edge
    stronger than 0.8. *)
Theorem discoveredRelationships_bounds (env : Env) (mid : string) (e : MemoryEntry) (st : Store) :
  let rels := discoveredRelationships env mid e st in
  (length rels <= 16)%nat /\
  forall rel, In rel rels -> targetId rel <> mid /\
    ((rel_type rel = "domain-related"%string /\ strength rel = 0.7) \/
     (rel_type rel = "semantic-similar"%string /\ 0.7 < strength rel) \/
     (rel_type rel = "temporal-related"%string /\ strength rel = 0.5) \/
     (rel_type rel = "visual-similar"%string /\ 0.8 < strength rel)).
Proof.
  intros rels. unfold rels, discoveredRelationships. split.
  - rewrite !length_app, !length_map.
    assert (H1 : (length (findDomainRelatedMemories (domain e) mid st) <= 5)%nat)
      by apply length_firstn_le.
    assert (H2 : (length (findSemanticallySimilarMemories e mid st) <= 5)%nat)
      by (unfold findSemanticallySimilarMemories; destruct (unified e); [apply length_firstn_le|simpl; lia]).
    assert (H3 : (length (findTemporallyRelatedMemories env (timestamp e) mid st) <= 3)%nat)
      by apply length_firstn_le.
    assert (H4 : (length (match visionEmbedding e with
                          | Some _ => findVisuallySimilarMemories e mid st | None => [] end) <= 3)%nat)
      by (unfold findVisuallySimilarMemories; destruct (visionEmbedding e); [apply length_firstn_le|simpl; lia]).
    lia.
  - intros rel Hin. rewrite !in_app_iff in Hin.
    destruct Hin as [Hin|[Hin|[Hin|Hin]]].
    + apply in_map_iff in Hin as (x & <- & Hx). cbn.
      unfold findDomainRelatedMemories in Hx. apply In_firstn, In_filter_neq_id in Hx. tauto.
    + unfold findSemanticallySimilarMemories in Hin. destruct (unified e) as [t|]; [|destruct Hin].
      apply In_firstn in Hin. apply (Permutation_in _ (sort_by_perm_any stronger _)) in Hin.
      apply similar_rels_In in Hin as (H1 & H2 & H3). tauto.
    + apply in_map_iff in Hin as (x & <- & Hx). cbn.
      unfold findTemporallyRelatedMemories in Hx. apply In_firstn, In_filter_neq_id in Hx. tauto.
    + destruct (visionEmbedding e) as [v|] eqn:Ev; [|destruct Hin].
      unfold findVisuallySimilarMemories in Hin. rewrite Ev in Hin.
      apply In_firstn in Hin. apply (Permutation_in _ (sort_by_perm_any stronger _)) in Hin.
      apply similar_rels_In in Hin as (H1 & H2 & H3). tauto.
Qed.

(** ** Summaries and categories *)

Lemma str_length_append a b : String.length (a ++ b) = (String.length a + String.length b)%nat.
Proof. induction a as [|c a IH]; simpl; [reflexivity|]. rewrite IH. reflexivity. Qed.

Lemma str_append_assoc a b c : ((a ++ b) ++ c)%string = (a ++ b ++ c)%string.
Proof. induction a as [|x a IH]; simpl; [reflexivity|]. rewrite IH. reflexivity. Qed.

Lemma substring0_app n a b :
  substring 0 n (a ++ b) = (substring 0 n a ++ substring 0 (n - String.length a) b)%string.
Proof.
  revert n. induction a as [|c a IH]; intros n.
  - rewrite Nat.sub_0_r. destruct n; reflexivity.
  - destruct n as [|n]; simpl; [destruct b; reflexivity|]. rewrite IH. reflexivity.
Qed.

Lemma substring0_all n s : (String.length s <= n)%nat -> substring 0 n s = s.
Proof.
  revert n. induction s as [|c s IH]; intros n Hn; destruct n as [|n]; simpl in *; try reflexivity; [lia|].
  rewrite IH by lia. reflexivity.
Qed.

Lemma substring0_split n s : exists rest, s = (substring 0 n s ++ rest)%string /\
  String.length (substring 0 n s) = Nat.min n (String.length s).
Proof.
  revert n. induction s as [|c s IH]; intros n.
  - exists ""%string. destruct n; simpl; split; reflexivity.
  - destruct n as [|n]; simpl.
    + exists (String c s). split; reflexivity.
    + destruct (IH n) as (rest & H1 & H2). exists rest. rewrite <- H1. split; [reflexivity|].
      rewrite H2. reflexivity.
Qed.

Lemma clip_with_ellipsis_clipped s : clipped s (clip_with_ellipsis s).
Proof.
  unfold clipped, clip_with_ellipsis. destruct s as [x|].
  - destruct (substring0_split 200 x) as (rest & H1 & H2).
    destruct (substring 0 200 x) as [|c y] eqn:E.
    + left. split; [reflexivity|]. intros x' Hx. injection Hx as <-.
      destruct x; [reflexivity|simpl in H2; lia].
    + right. exists x, (String c y), rest. simpl truthy_str. cbv iota. split; [reflexivity|].
      split; [exact H1|]. split; [discriminate|]. split; [exact H2|reflexivity].
  - left. split; [reflexivity|discriminate].
Qed.

(** X13: every summary field [createMemoryEntry] stores (text summary,
    vision synthesis, unified analysis) is [''] when its source text is
    absent or empty, and otherwise the first [min 200 n] characters of the
    [n]-character source followed by [...], appended even when nothing was
    cut. *)
Theorem createMemoryEntry_clipped (env : Env) (mid : string) (r : OrchestrationResult)
  (e : MemoryEntry) :
  createMemoryEntry env mid r = Some e ->
  clipped (text_summary r) (textSummary e) /\
  clipped (vision_synthesis r) (visionSynthesis e) /\
  clipped (match r_orchestratorSynthesis r with Some os => os_unifiedAnalysis os | None => None end)
          (unifiedAnalysis e).
Proof.
  unfold createMemoryEntry. destruct (r_agentResults r), (r_orchestratorSynthesis r) as [os|],
    (r_qualityMetrics r), (r_orchestrationMetadata r); try discriminate.
  intros H. injection H as <-. cbn [textSummary visionSynthesis unifiedAnalysis].
  split; [apply clip_with_ellipsis_clipped|]. split; apply clip_with_ellipsis_clipped.
Qed.

(** X14: the summary [searchMemories] shows for a record built by
    [createMemoryEntry] from an orchestrator analysis [x] is [x] followed
    by two ellipses when [x] has 1 to 197 characters, the first 200
    characters of [x] followed by one ellipsis when [x] has at least 200,
    and [No summary available] when the analysis is absent or empty. *)
Theorem generateMemorySummary_createMemoryEntry (env : Env) (mid : string)
  (r : OrchestrationResult) (e : MemoryEntry) :
  createMemoryEntry env mid r = Some e ->
  let x := match r_orchestratorSynthesis r with
           | Some os => match os_unifiedAnalysis os with Some x => x | None => ""%string end
           | None => ""%string end in
  (x = ""%string -> generateMemorySummary e = "No summary available"%string) /\
  (x <> ""%string -> (String.length x <= 197)%nat -> generateMemorySummary e = (x ++ "......")%string) /\
  ((200 <= String.length x)%nat -> generateMemorySummary e = (substring 0 200 x ++ "...")%string).
Proof.
  intros He. cbv zeta. unfold createMemoryEntry in He.
  destruct (r_agentResults r), (r_orchestratorSynthesis r) as [os|],
    (r_qualityMetrics r), (r_orchestrationMetadata r); try discriminate.
  injection He as <-. unfold generateMemorySummary. cbn [unifiedAnalysis].
  destruct (os_unifiedAnalysis os) as [s|]; unfold clip_with_ellipsis.
  - destruct (substring0_split 200 s) as (rest & Hs & Hl).
    split; [|split].
    + intros ->. reflexivity.
    + intros Hne Hle. rewrite (substring0_all 200 s) by lia.
      destruct s as [|c s]; [congruence|]. cbv beta iota zeta. simpl truthy_str. cbv iota.
      rewrite substring0_all by (rewrite str_length_append; simpl; simpl in Hle; lia).
      simpl truthy_str. cbv iota. rewrite str_append_assoc. reflexivity.
    + intros Hge. assert (Hl' : String.length (substring 0 200 s) = 200%nat)
        by (rewrite Hl; apply Nat.min_l; exact Hge).
      destruct (substring 0 200 s) as [|c y] eqn:E; [simpl in Hl'; discriminate|].
      simpl truthy_str. cbv iota. rewrite substring0_app, Hl', Nat.sub_diag.
      rewrite (substring0_all 200 (String c y)) by (rewrite Hl'; lia).
      rewrite str_append_assoc. reflexivity.
  - split; [intros _; reflexivity|]. split; [intros H; contradiction H; reflexivity|].
    simpl. lia.
Qed.

Lemma createMemoryEntry_clipped_witness :
  let r := visionOnlyResult 1000 "https://ex.com/a" "one" in
  exists e, createMemoryEntry utcEnv "A" r = Some e /\
    clipped (vision_synthesis r) (visionSynthesis e) /\
    clipped (text_summary r) (textSummary e).
Proof.
  intros r. destruct (createMemoryEntry utcEnv "A" r) as [e|] eqn:E;
    [|exfalso; vm_compute in E; discriminate].
  exists e. destruct (createMemoryEntry_clipped utcEnv "A" r e E) as (H1 & H2 & _). tauto.
Defined.

Lemma generateMemorySummary_createMemoryEntry_witness :
  let r := visionOnlyResult 1000 "https://ex.com/a" "one" in
  exists e, createMemoryEntry utcEnv "A" r = Some e /\
    generateMemorySummary e = "one......"%string.
Proof.
  intros r. destruct (createMemoryEntry utcEnv "A" r) as [e|] eqn:E;
    [|exfalso; vm_compute in E; discriminate].
  exists e. split; [reflexivity|].
  destruct (generateMemorySummary_createMemoryEntry utcEnv "A" r e E) as (_ & H & _).
  apply H; cbn; [discriminate|lia].
Defined.

Lemma push_if_In s l c :
  In c (push_if s l) <-> In c l \/ (s = Some c /\ truthy_str c = true).
Proof.
  unfold push_if. destruct s as [x|].
  - destruct (truthy_str x) eqn:T.
    + rewrite in_app_iff. simpl. split.
      * intros [H|[<-|[]]]; [left; exact H|right; tauto].
      * intros [H|[Hx _]]; [left; exact H|injection Hx as <-; right; left; reflexivity].
    + split; [tauto|]. intros [H|[Hx Tc]]; [exact H|injection Hx as <-; congruence].
  - split; [tauto|]. intros [H|[Hx _]]; [exact H|discriminate].
Qed.

Lemma push_if_length s l : (length (push_if s l) <= S (length l))%nat.
Proof.
  unfold push_if. destruct s as [x|]; [destruct (truthy_str x)|]; try (simpl; lia).
  rewrite length_app. simpl. lia.
Qed.

Lemma dedup_aux_complete (seen l : list string) x :
  In x l -> ~ In x seen -> In x (dedup_aux string_dec seen l).
Proof.
  revert seen. induction l as [|y l IH]; intros seen Hx Hs; [destruct Hx|]. simpl.
  destruct (string_dec x y) as [<-|Hne].
  - destruct (shas string_dec x seen) eqn:E; [apply (shas_In string_dec) in E; contradiction|].
    left. reflexivity.
  - destruct Hx as [Hx|Hx]; [congruence|].
    destruct (shas string_dec y seen); [apply IH; assumption|].
    right. apply IH; [exact Hx|]. rewrite in_app_iff. intros [H|[H|[]]]; [contradiction|congruence].
Qed.

Lemma dedup_aux_length (seen l : list string) : (length (dedup_aux string_dec seen l) <= length l)%nat.
Proof.
  revert seen. induction l as [|y l IH]; intros seen; simpl; [lia|].
  destruct (shas string_dec y seen); simpl; [specialize (IH seen); lia|specialize (IH (seen ++ [y])); lia].
Qed.

(** X15: the categories [createMemoryEntry] stores are distinct, at most
    four, and are exactly the non-empty strings among the text content
    type, the text page type, the visual design style and the visual user
    experience. *)
Theorem extractCategories_spec (r : OrchestrationResult) :
  let cs := extractCategories r in
  NoDup cs /\ (length cs <= 4)%nat /\
  forall c, In c cs <-> truthy_str c = true /\ In (Some c) (category_sources r).
Proof.
  intros cs. unfold cs, extractCategories, category_sources, dedup. cbv zeta.
  set (s1 := match text_metadata r with Some m => tm_contentType m | None => None end).
  set (s2 := match text_metadata r with Some m => tm_pageType m | None => None end).
  set (s3 := match visual_features r with Some f => vf_designStyle f | None => None end).
  set (s4 := match visual_features r with Some f => vf_userExperience f | None => None end).
  set (l := push_if s4 (push_if s3 (push_if s2 (push_if s1 [])))).
  split; [apply dedup_aux_spec|]. split.
  - eapply Nat.le_trans; [apply dedup_aux_length|]. unfold l.
    pose proof (push_if_length s1 []). pose proof (push_if_length s2 (push_if s1 [])).
    pose proof (push_if_length s3 (push_if s2 (push_if s1 []))).
    pose proof (push_if_length s4 (push_if s3 (push_if s2 (push_if s1 [])))).
    simpl in *. lia.
  - intros c. assert (Hl : In c l <-> truthy_str c = true /\ In (Some c) [s1; s2; s3; s4]).
    { unfold l. rewrite !push_if_In. simpl. split.
      - intros [[[[[]|H1]|H2]|H3]|H4]; intuition congruence.
      - intros [T [H|[H|[H|[H|[]]]]]]; [left; left; left; right|left; left; right|left; right|right];
          split; congruence || exact T. }
    rewrite <- Hl. split.
    + intros H. apply (proj2 (dedup_aux_spec [] l)) in H. tauto.
    + intros H. apply dedup_aux_complete; [exact H|intros []].
Qed.

(** ** Week numbers *)

(** X17: when the local calendar places [t] within 366 days after the
    start of its year and [getDay] of that start lies in 0..6,
    [getWeekNumber(t)] lies in 1..54. *)
Theorem getWeekNumber_range (env : Env) (t : Z) :
  let f := yearStart env (getFullYear env t) in
  (f <= t < f + 366 * 86400000)%Z -> (0 <= getDay env f <= 6)%Z ->
  (1 <= getWeekNumber env t <= 54)%Z.
Proof.
  intros f Ht Hd. unfold getWeekNumber. fold f.
  set (num := (t - f + (getDay env f + 1) * 86400000)%Z).
  assert (Hn : (86400000 <= num < 373 * 86400000)%Z) by (unfold num; lia).
  pose proof (Z.div_mod (- num) (7 * 86400000) ltac:(lia)) as Hdm.
  pose proof (Z.mod_pos_bound (- num) (7 * 86400000) ltac:(lia)) as Hb.
  set (q := (- num / (7 * 86400000))%Z) in *.
  set (m := (- num mod (7 * 86400000))%Z) in *.
  lia.
Qed.

Lemma getWeekNumber_range_witness :
  let t := 978220800000%Z in
  (1 <= getWeekNumber utcEnv t <= 54)%Z /\ getWeekNumber utcEnv t = 54%Z.
Proof.
  intros t. split; [|vm_compute; reflexivity].
  apply getWeekNumber_range; split; vm_compute; first [discriminate|reflexivity].
Defined.

(** ** What [storeMemory] leaves alone *)

Lemma fold_remove_shrinks (vs : list (string * MemoryEntry)) st :
  let st' := fold_left (fun st p => removeMemory (fst p) st) vs st in
  (forall k ee, In (k, ee) (embeddingIndex st') -> In (k, ee) (embeddingIndex st)) /\
  (forall k c', In (k, c') (conceptClusters st') ->
     exists c, In (k, c) (conceptClusters st) /\ centroid c' = centroid c /\
       incl (members c') (members c)).
Proof.
  revert st. induction vs as [|v vs IH]; intros st; simpl.
  - split; [tauto|]. intros k c' H. exists c'. split; [exact H|]. split; [reflexivity|apply incl_refl].
  - destruct (IH (removeMemory (fst v) st)) as [H1 H2]. split.
    + intros k ee H. apply H1 in H. cbn [removeMemory embeddingIndex] in H.
      unfold mdelete in H. apply filter_In in H. tauto.
    + intros k c' H. destruct (H2 k c' H) as (c1 & Hc1 & E1 & I1).
      cbn [removeMemory conceptClusters] in Hc1. apply In_mmap in Hc1 as (c & Hc & ->).
      exists c. split; [exact Hc|]. split; [exact E1|].
      intros x Hx. apply I1 in Hx. cbn [members with_members] in Hx.
      apply (In_sdelete string_dec) in Hx. tauto.
Qed.

(** X20: [storeMemory] never adds to the embedding index and never
    creates or grows a concept cluster: every index entry after the call
    was there before, and every cluster after the call was there before,
    with the same centroid and a subset of its members. *)
Theorem storeMemory_no_embedding_no_cluster (env : Env) (mid cid : string)
  (r : OrchestrationResult) (st : Store) :
  let st' := fst (storeMemory env mid cid r st) in
  (forall k ee, In (k, ee) (embeddingIndex st') -> In (k, ee) (embeddingIndex st)) /\
  (forall k c', In (k, c') (conceptClusters st') ->
     exists c, In (k, c) (conceptClusters st) /\ centroid c' = centroid c /\
       incl (members c') (members c)).
Proof.
  intros st'. unfold st', storeMemory.
  destruct (createMemoryEntry env mid r) as [e|] eqn:Hc.
  - assert (Hu : unified e = None).
    { unfold createMemoryEntry in Hc.
      destruct (r_agentResults r), (r_orchestratorSynthesis r), (r_qualityMetrics r),
        (r_orchestrationMetadata r); try discriminate.
      injection Hc as <-. reflexivity. }
    cbn [fst]. unfold insertEntry. cbv zeta.
    set (st7 := updateConceptClusters mid e cid (discoverRelationships env mid e (indexEntry env mid e st))).
    assert (He7 : embeddingIndex st7 = embeddingIndex st /\ conceptClusters st7 = conceptClusters st).
    { unfold st7, updateConceptClusters. rewrite Hu.
      destruct (indexEntry_no_embedding env mid e st Hu) as [E1 E2].
      unfold discoverRelationships. cbn. split; assumption. }
    destruct He7 as [E1 E2]. rewrite <- E1, <- E2.
    unfold maintainMemoryLimits. destruct (_ <=? _)%Z.
    + split; [tauto|]. intros k c' H. exists c'. split; [exact H|]. split; [reflexivity|apply incl_refl].
    + apply fold_remove_shrinks.
  - cbn [fst]. split; [tauto|]. intros k c' H. exists c'. split; [exact H|].
    split; [reflexivity|apply incl_refl].
Qed.

Lemma searchMemories_fields st1 st2 query o qemb :
  memoryStore st1 = memoryStore st2 -> embeddingIndex st1 = embeddingIndex st2 ->
  relationshipGraph st1 = relationshipGraph st2 ->
  searchMemories st1 query o qemb = searchMemories st2 query o qemb.
Proof.
  intros H1 H2 H3. unfold searchMemories, enhanceWithRelationships.
  rewrite H1, H2, H3. reflexivity.
Qed.

(** X21: a search over a store rebuilt by [importMemoryState] from the store's
    own [exportMemoryState] returns exactly what the same search returns over
    the original store (keys of the exported tables distinct). *)
Theorem searchMemories_after_reimport env sid now st st' query o qemb :
  NoDup (map fst (memoryStore st)) -> NoDup (map fst (embeddingIndex st)) ->
  NoDup (map fst (relationshipGraph st)) ->
  searchMemories (importMemoryState env (exportMemoryState sid now st) st') query o qemb =
  searchMemories st query o qemb.
Proof.
  intros H1 H2 H4. apply searchMemories_fields;
  rewrite importMemoryState_eq, rebuildIndices_eq; cbn;
  apply mapFromEntries_id; assumption.
Qed.

(** X22: [rebuildIndices] recomputes the hour, day, week and month
    buckets, the category index and the domain index from [memoryStore]
    alone: two stores with the same table get the same six indexes, whatever
    they held before, and a second rebuild changes nothing.  (The embedding
    index, the embedding buckets, the relationship graph and the concept
    clusters are not rebuilt.) *)
Theorem rebuildIndices_canonical env st1 st2 :
  memoryStore st1 = memoryStore st2 ->
  hourBuckets (rebuildIndices env st1) = hourBuckets (rebuildIndices env st2) /\
  dayBuckets (rebuildIndices env st1) = dayBuckets (rebuildIndices env st2) /\
  weekBuckets (rebuildIndices env st1) = weekBuckets (rebuildIndices env st2) /\
  monthBuckets (rebuildIndices env st1) = monthBuckets (rebuildIndices env st2) /\
  semanticCategories (rebuildIndices env st1) = semanticCategories (rebuildIndices env st2) /\
  domainClusters (rebuildIndices env st1) = domainClusters (rebuildIndices env st2) /\
  rebuildIndices env (rebuildIndices env st1) = rebuildIndices env st1.
Proof.
  intros H. rewrite !rebuildIndices_eq. cbn. rewrite H. repeat split.
Qed.

Lemma searchMemories_after_reimport_witness :
  searchMemories (importMemoryState utcEnv (exportMemoryState "session" 5000 searchSample)
                    (emptyStore 3)) "q" defaultSearchOptions (Some [1]) =
  searchMemories searchSample "q" defaultSearchOptions (Some [1]).
Proof.
  apply searchMemories_after_reimport; cbn; repeat constructor; simpl; intuition discriminate.
Defined.

Lemma rebuildIndices_canonical_witness :
  let st2 := set_semanticCategories searchSample [("junk", ["x"])]%string in
  semanticCategories searchSample <> semanticCategories st2 /\
  semanticCategories (rebuildIndices utcEnv searchSample) =
  semanticCategories (rebuildIndices utcEnv st2).
Proof.
  intros st2. split.
  - cbn. discriminate.
  - destruct (rebuildIndices_canonical utcEnv searchSample st2) as (_ & _ & _ & _ & H & _);
      [reflexivity|exact H].
Defined.
